(** * stomp_moveit: the STOMP planning context (stomp_planner.cpp)

    A shallow embedding of [stomp_moveit::StompPlanner]: seed extraction and
    repair, the Cartesian IK chain, start/goal resolution and the [solve]
    entry point, followed by the properties proved about them.

    Conventions.
    - A C++ [double] is an IEEE-754 binary64 number: Rocq's primitive [float].
    - [std::vector] and [Eigen::VectorXd] are lists; an [Eigen::MatrixXd] is
      its row count together with the list of its columns.
    - A member function that writes through reference parameters returns the
      written values next to its [bool].
    - What C++ leaves to the build or to the standard is explicit in
      [outcome]: an exception, a failed assertion, undefined behaviour.
    - MoveIt, KDL, TRAC-IK, the STOMP optimizer and the polynomial smoothing
      helper are collaborators of the planner: they are fields of the
      [StompPlanner] record and every function is parametrised by it. *)

From Stdlib Require Import String List Bool Arith ZArith Lia Floats.
Import ListNotations.

Set Implicit Arguments.

(* ================================================================== *)
(** * Outcomes of a C++ call                                            *)
(* ================================================================== *)

(** The exceptions that cross the planner's functions. *)
Inductive exception : Set :=
| moveit_Exception (what : string)
| std_runtime_error (what : string).

Inductive outcome (A : Type) : Type :=
| Ret (a : A)                 (* the call returns *)
| Throw (e : exception)       (* an exception leaves the call *)
| AssertFailed                (* assert / ROS_ASSERT / eigen_assert aborts *)
| Undefined.                  (* undefined behaviour: operator[] out of range,
                                 control reaching the end of a non-void
                                 function *)

Arguments Ret {A} a.
Arguments Throw {A} e.
Arguments AssertFailed {A}.
Arguments Undefined {A}.

Definition bind {A B : Type} (c : outcome A) (k : A -> outcome B) : outcome B :=
  match c with
  | Ret a => k a
  | Throw e => Throw e
  | AssertFailed => AssertFailed
  | Undefined => Undefined
  end.

Declare Scope cxx_scope.
Delimit Scope cxx_scope with cxx.
Notation "x <- c ;; k" := (bind c (fun x => k))
  (at level 61, c at next level, right associativity) : cxx_scope.
Notation "' pat <- c ;; k" := (bind c (fun x => match x with pat => k end))
  (at level 61, pat pattern, c at next level, right associativity) : cxx_scope.
Notation "c ;;; k" := (bind c (fun _ => k))
  (at level 61, right associativity) : cxx_scope.
Open Scope cxx_scope.

(** [v[i]] on a [std::vector]: undefined outside the vector. *)
Definition at_index {A : Type} (v : list A) (i : nat) : outcome A :=
  match nth_error v i with
  | Some a => Ret a
  | None => Undefined
  end.

(** [assert(c)] and [ROS_ASSERT(c)]: compiled out under NDEBUG. *)
Definition cxx_assert (ndebug c : bool) : outcome unit :=
  if ndebug || c then Ret tt else AssertFailed.

(** [eigen_assert(c)] guards Eigen's size preconditions: it aborts in a debug
    build, and the operation that follows is undefined when it is compiled
    out. *)
Definition eigen_assert (ndebug c : bool) : outcome unit :=
  if c then Ret tt else if ndebug then Undefined else AssertFailed.

(* ================================================================== *)
(** * Numbers, vectors and matrices                                     *)
(* ================================================================== *)

Definition double : Set := float.
Definition VectorXd : Set := list double.

(** A default-constructed [Eigen::VectorXd] has size 0. *)
Definition VectorXd_empty : VectorXd := [].

Record MatrixXd : Set := mkMatrix {
  rows : nat;
  colvecs : list VectorXd        (* column t is the configuration at step t *)
}.

Definition cols (m : MatrixXd) : nat := length (colvecs m).

(** A default-constructed [Eigen::MatrixXd] is 0 x 0. *)
Definition MatrixXd_empty : MatrixXd := mkMatrix 0 [].

(** [(a - b).cwiseAbs().sum()], summed from the first coefficient on. Eigen
    is free to add the coefficients in another order; the planner only
    compares the sum with its tolerance. *)
Definition cwiseAbsDiff (a b : VectorXd) : VectorXd :=
  map (fun ab => abs (fst ab - snd ab))%float (combine a b).

Definition sum (v : VectorXd) : double :=
  fold_left (fun acc x => acc + x)%float v 0%float.

Definition l1_distance (a b : VectorXd) : double := sum (cwiseAbsDiff a b).

(** [m.leftCols(1)] and [m.rightCols(1)] read as a vector. *)
Definition leftCols1 (ndebug : bool) (m : MatrixXd) : outcome VectorXd :=
  eigen_assert ndebug (1 <=? cols m) ;;;
  at_index (colvecs m) 0.

Definition rightCols1 (ndebug : bool) (m : MatrixXd) : outcome VectorXd :=
  eigen_assert ndebug (1 <=? cols m) ;;;
  at_index (colvecs m) (cols m - 1).

Fixpoint set_nth {A : Type} (i : nat) (x : A) (l : list A) : list A :=
  match l, i with
  | [], _ => []
  | _ :: t, O => x :: t
  | h :: t, S j => h :: set_nth j x t
  end.

(** [m.leftCols(1) = v] and [m.rightCols(1) = v]: a block is never resized,
    so [v] must have [rows m] coefficients. *)
Definition assign_leftCols1 (ndebug : bool) (m : MatrixXd) (v : VectorXd)
  : outcome MatrixXd :=
  eigen_assert ndebug ((1 <=? cols m) && (length v =? rows m)) ;;;
  Ret (mkMatrix (rows m) (set_nth 0 v (colvecs m))).

Definition assign_rightCols1 (ndebug : bool) (m : MatrixXd) (v : VectorXd)
  : outcome MatrixXd :=
  eigen_assert ndebug ((1 <=? cols m) && (length v =? rows m)) ;;;
  Ret (mkMatrix (rows m) (set_nth (cols m - 1) v (colvecs m))).

(* ================================================================== *)
(** * Messages                                                          *)
(* ================================================================== *)

(** The fields of the ROS messages that the planner reads or writes. *)

Record JointConstraint : Set := mkJointConstraint {
  joint_name : string;
  position : double
}.

Record Vector3 : Set := mkVector3 { v3_x : double; v3_y : double; v3_z : double }.

Record Quaternion : Set := mkQuaternion {
  q_x : double; q_y : double; q_z : double; q_w : double
}.

Record PositionConstraint : Set := mkPositionConstraint {
  target_point_offset : Vector3
}.

Record OrientationConstraint : Set := mkOrientationConstraint {
  orientation : Quaternion
}.

Record Constraints : Set := mkConstraints {
  joint_constraints : list JointConstraint;
  position_constraints : list PositionConstraint;
  orientation_constraints : list OrientationConstraint
}.

(** A default-constructed [moveit_msgs::Constraints]. *)
Definition Constraints_empty : Constraints := mkConstraints [] [] [].

(** [moveit_msgs::TrajectoryConstraints]: the ordered constraint sets. *)
Record TrajectoryConstraints : Set := mkTrajectoryConstraints {
  constraints : list Constraints
}.

(** [moveit_msgs::RobotState], through its joint state. *)
Record RobotStateMsg : Set := mkRobotStateMsg {
  joint_state_name : list string;
  joint_state_position : list double
}.

(** A default-constructed [moveit_msgs::RobotState]. *)
Definition RobotStateMsg_empty : RobotStateMsg := mkRobotStateMsg [] [].

Record MotionPlanRequest : Set := mkMotionPlanRequest {
  start_state : RobotStateMsg;
  goal_constraints : list Constraints;
  trajectory_constraints : TrajectoryConstraints;
  allowed_planning_time : double;
  max_velocity_scaling_factor : double
}.

Record JointTrajectoryPoint : Set := mkJointTrajectoryPoint {
  positions : list double;
  velocities : list double;
  accelerations : list double;
  time_from_start : double
}.

(** A default-constructed point, then its positions pushed. *)
Definition point_of_positions (p : list double) : JointTrajectoryPoint :=
  mkJointTrajectoryPoint p [] [] 0%float.

Record JointTrajectory : Set := mkJointTrajectory {
  joint_names : list string;
  points : list JointTrajectoryPoint
}.

Definition JointTrajectory_empty : JointTrajectory := mkJointTrajectory [] [].

(** [moveit_msgs::MoveItErrorCodes], the values the planner assigns. *)
Inductive MoveItErrorCodes : Set :=
| SUCCESS
| FAILURE
| PLANNING_FAILED
| INVALID_MOTION_PLAN.

(* ================================================================== *)
(** * Collaborators                                                     *)
(* ================================================================== *)

(** [KDL::Frame]: the translation, and the rotation through the quaternion
    handed to [KDL::Rotation::Quaternion]. *)
Record Frame : Set := mkFrame { Frame_p : Vector3; Frame_M : Quaternion }.

(** [KDL::JntArray(n)]: [n] entries, all zero. *)
Definition JntArray (n : nat) : VectorXd := repeat 0%float n.

(** A [TRAC_IK::TRAC_IK] solver built for one chain. [getKDLChain] is [None]
    when the chain could not be built, and the chain's joint count otherwise;
    [CartToJnt q_init p_in] gives the return code and [q_out]. *)
Record TRAC_IK : Set := mkTRAC_IK {
  getKDLChain : option nat;
  getKDLLimits : option (VectorXd * VectorXd);     (* lower, upper *)
  CartToJnt : VectorXd -> Frame -> Z * VectorXd
}.

(** One invocation of [CartToJnt]: the initial configuration and the target. *)
Record IKCall : Set := mkIKCall { q_init : VectorXd; p_in : Frame }.

(** [stomp_core::StompConfiguration], the fields [solve] touches. *)
Record StompConfiguration : Set := mkStompConfiguration {
  num_timesteps : Z;
  num_dimensions : Z
}.

(** Conversion of an [Eigen::Index] to [int]. *)
Definition int_of_Index (n : nat) : Z :=
  ((Z.of_nat n + 2 ^ 31) mod 2 ^ 32 - 2 ^ 31)%Z.

Record StompPlanner : Type := mkStompPlanner {
  (** the build: [assert], [ROS_ASSERT] and [eigen_assert] compiled out *)
  NDEBUG : bool;

  (** [robot_model_->getJointModelGroup(group_)] *)
  getActiveJointModelNames : list string;
  getJointRoots_size : nat;

  (** [moveit::core::RobotState] *)
  RobotState : Type;
  RobotState_new : RobotState;                       (* RobotState(robot_model_) *)
  robotStateMsgToRobotState : RobotStateMsg -> RobotState -> bool * RobotState;
  getVariablePosition : RobotState -> string -> double;
  setVariablePosition : RobotState -> string -> double -> outcome RobotState;
  satisfiesBounds : RobotState -> bool;              (* satisfiesBounds() *)
  satisfiesBounds_group : RobotState -> bool;        (* satisfiesBounds(group) *)
  enforceBounds : RobotState -> RobotState;          (* enforceBounds(group) *)

  (** [robot_trajectory::RobotTrajectory] and the time parameterization *)
  RobotTrajectory : Type;
  setRobotTrajectoryMsg : RobotState -> JointTrajectory -> RobotTrajectory;
  getRobotTrajectoryMsg : RobotTrajectory -> JointTrajectory;
  computeTimeStamps : RobotTrajectory -> double -> bool * RobotTrajectory;

  (** [planning_scene_]: [None] when the pointer is null *)
  isPathValid : option (RobotTrajectory -> bool);

  (** the solver that [ikFromCartesianConstraints] builds on every call, and
      the default argument of its [hint] parameter (declared in the header) *)
  tracik_solver : TRAC_IK;
  ik_default_hint : VectorXd;

  (** [utils::polynomial::applyPolynomialSmoothing(robot_model_, group_,
      parameters, 5, 1e-5)] *)
  applyPolynomialSmoothing : MatrixXd -> bool * MatrixXd;

  (** [stomp_config_], [task_] and [stomp_] *)
  stomp_config_ : StompConfiguration;
  setMotionPlanRequest :
    MotionPlanRequest -> StompConfiguration -> MoveItErrorCodes ->
    bool * MoveItErrorCodes;
  stomp_solve_seed :
    MotionPlanRequest -> StompConfiguration -> MatrixXd -> bool * MatrixXd;
  stomp_solve :
    MotionPlanRequest -> StompConfiguration -> VectorXd -> VectorXd ->
    bool * MatrixXd;

  (** [ros::WallTime::now() - start_time] when [solve] reads the clock *)
  wall_elapsed : double;

  (** the coefficients of a vector after [resize(n)], which does not
      initialise them *)
  uninitialized : nat -> VectorXd
}.

Definition MAX_START_DISTANCE_THRESH : double := 0.5%float.

(* ================================================================== *)
(** * Seed trajectories                                                 *)
(* ================================================================== *)

(** ** jointTrajectorytoParameters (lines 469-486) *)

(** The inner loop: [mat(joint, step) = traj.points[step].positions[joint]]
    for [joint < dof]. *)
Fixpoint parameters_column (dof joint : nat) (pos : list double)
  : outcome VectorXd :=
  match dof with
  | O => Ret []
  | S dof' =>
      x <- at_index pos joint ;;
      rest <- parameters_column dof' (S joint) pos ;;
      Ret (x :: rest)
  end.

Fixpoint parameters_columns (dof : nat) (pts : list JointTrajectoryPoint)
  : outcome (list VectorXd) :=
  match pts with
  | [] => Ret []
  | pt :: pts' =>
      c <- parameters_column dof 0 (positions pt) ;;
      cs <- parameters_columns dof pts' ;;
      Ret (c :: cs)
  end.

Definition jointTrajectorytoParameters (traj : JointTrajectory)
  : outcome (bool * MatrixXd) :=
  let dof := length (joint_names traj) in
  mat_cols <- parameters_columns dof (points traj) ;;
  Ret (true, mkMatrix dof mat_cols).

(** ** extractSeedJointTrajectory (lines 488-523) *)

(** The loop over the joint constraints of one constraint set, from index
    [j] on: [None] when a name differs from [names[j]]. *)
Fixpoint seed_point_positions (names : list string) (jcs : list JointConstraint)
  (j : nat) (pos : list double) : outcome (option (list double)) :=
  match jcs with
  | [] => Ret (Some pos)
  | c :: jcs' =>
      name_j <- at_index names j ;;
      if negb (String.eqb (joint_name c) name_j) then Ret None
      else seed_point_positions names jcs' (S j) (pos ++ [position c])
  end.

Fixpoint extractSeedJointTrajectory_loop (names : list string)
  (cs : list Constraints) (seed : JointTrajectory)
  : outcome (bool * JointTrajectory) :=
  match cs with
  | [] => Ret (true, mkJointTrajectory names (points seed))
  | c :: cs' =>
      if negb (length (joint_constraints c) =? length names)
      then Ret (false, seed)
      else
        r <- seed_point_positions names (joint_constraints c) 0 [] ;;
        match r with
        | None => Ret (false, seed)
        | Some pos =>
            extractSeedJointTrajectory_loop names cs'
              (mkJointTrajectory (joint_names seed)
                 (points seed ++ [point_of_positions pos]))
        end
  end.

Definition extractSeedJointTrajectory (P : StompPlanner)
  (req : MotionPlanRequest) (seed : JointTrajectory)
  : outcome (bool * JointTrajectory) :=
  extractSeedJointTrajectory_loop (getActiveJointModelNames P)
    (constraints (trajectory_constraints req)) seed.

(** ** encodeSeedTrajectory (lines 586-612) *)

Definition encode_point (names : list string) (pt : JointTrajectoryPoint)
  : outcome Constraints :=
  if negb (length (positions pt) =? length names)
  then Throw (std_runtime_error
    "All trajectory position fields must have same dimensions as joint_names")
  else Ret (mkConstraints
              (map (fun np => mkJointConstraint (fst np) (snd np))
                   (combine names (positions pt)))
              [] []).

Fixpoint encode_points (names : list string) (pts : list JointTrajectoryPoint)
  : outcome (list Constraints) :=
  match pts with
  | [] => Ret []
  | pt :: pts' =>
      c <- encode_point names pt ;;
      cs <- encode_points names pts' ;;
      Ret (c :: cs)
  end.

Definition encodeSeedTrajectory (seed : JointTrajectory)
  : outcome TrajectoryConstraints :=
  cs <- encode_points (joint_names seed) (points seed) ;;
  Ret (mkTrajectoryConstraints cs).

(** ** ikFromCartesianConstraints (lines 614-677) *)

(** The pose handed to the solver. *)
Definition end_effector_pose (pos_constraint : PositionConstraint)
  (orient_constraint : OrientationConstraint) : Frame :=
  mkFrame (target_point_offset pos_constraint) (orientation orient_constraint).

(** The initial configuration handed to the solver: a fresh [JntArray] of the
    chain's size, overwritten by the hint when the hint is not empty. *)
Definition nominal (chain_joints : nat) (hint : VectorXd) : VectorXd :=
  if 0 <? length hint then hint else JntArray chain_joints.

(** Returns the [bool], the value of [result] on return and the solver
    invocations made. [result] is written only when the solver succeeds. *)
Definition ikFromCartesianConstraints (P : StompPlanner)
  (pos_constraint : PositionConstraint) (orient_constraint : OrientationConstraint)
  (result hint : VectorXd) : outcome (bool * VectorXd * list IKCall) :=
  cxx_assert (NDEBUG P) (getJointRoots_size P =? 1) ;;;
  match getKDLChain (tracik_solver P) with
  | None => Ret (false, result, [])
  | Some chain_joints =>
      let pose := end_effector_pose pos_constraint orient_constraint in
      let q := nominal chain_joints hint in
      let '(rc, ik_result) := CartToJnt (tracik_solver P) q pose in
      if (0 <=? rc)%Z
      then Ret (true, ik_result, [mkIKCall q pose])
      else Ret (false, result, [mkIKCall q pose])
  end.

(** ** extractSeedCartesianTrajectory (lines 525-566) *)

(** The state of the loop over the waypoints. [fail_count] is an [int] in the
    source; it stays below the number of waypoints. *)
Record CartesianSeedState : Set := mkCartesianSeedState {
  joint_pos : VectorXd;
  fail_count : nat;
  seed_points : list JointTrajectoryPoint;
  ik_calls : list IKCall
}.

Fixpoint extractSeedCartesianTrajectory_loop (P : StompPlanner)
  (pcs : list PositionConstraint) (ocs : list OrientationConstraint)
  (i : nat) (st : CartesianSeedState) : outcome CartesianSeedState :=
  match pcs with
  | [] => Ret st
  | pc :: pcs' =>
      oc <- at_index ocs i ;;
      '(found, joint_pos', calls) <-
         ikFromCartesianConstraints P pc oc (joint_pos st) (joint_pos st) ;;
      let st' :=
        if found
        then mkCartesianSeedState joint_pos' (fail_count st)
               (seed_points st ++ [point_of_positions joint_pos'])
               (ik_calls st ++ calls)
        else mkCartesianSeedState joint_pos' (S (fail_count st))
               (seed_points st ++ [point_of_positions joint_pos'])
               (ik_calls st ++ calls) in
      extractSeedCartesianTrajectory_loop P pcs' ocs (S i) st'
  end.

(** What the function leaves behind besides [seed]: the failure count it
    reports in its closing log line, and the solver invocations. *)
Record CartesianSeedReport : Set := mkCartesianSeedReport {
  reported_failures : nat;
  solver_calls : list IKCall
}.

Definition extractSeedCartesianTrajectory (P : StompPlanner)
  (req : MotionPlanRequest) (seed : JointTrajectory)
  : outcome (bool * JointTrajectory * CartesianSeedReport) :=
  let cs := constraints (trajectory_constraints req) in
  cxx_assert (NDEBUG P) (length cs =? 1) ;;;
  cxx_assert (NDEBUG P)
    (match cs with
     | front :: _ => length (position_constraints front)
                     =? length (orientation_constraints front)
     | [] => false
     end) ;;;
  cxx_assert (NDEBUG P)
    (match cs with
     | front :: _ => 0 <? length (position_constraints front)
     | [] => false
     end) ;;;
  c0 <- at_index cs 0 ;;
  st <- extractSeedCartesianTrajectory_loop P
          (position_constraints c0) (orientation_constraints c0) 0
          (mkCartesianSeedState VectorXd_empty 0 (points seed) []) ;;
  Ret (true,
       mkJointTrajectory (getActiveJointModelNames P) (seed_points st),
       mkCartesianSeedReport (fail_count st) (ik_calls st)).

(** ** isCartesianSeed (lines 679-695) *)

(** Reads the planner's own [request_]. Control reaches the end of the
    function without a [return] when the first constraint set has no joint
    constraints and lacks position or orientation constraints. *)
Definition isCartesianSeed (request_ : MotionPlanRequest) : outcome bool :=
  let cs := constraints (trajectory_constraints request_) in
  c0 <- at_index cs 0 ;;
  if 0 <? length (joint_constraints c0) then Ret false
  else if (0 <? length (position_constraints c0))
          && (0 <? length (orientation_constraints c0))
  then Ret true
  else Undefined.

(** ** extractSeedTrajectory (lines 568-584) *)

Definition extractSeedTrajectory (P : StompPlanner)
  (request_ req : MotionPlanRequest) (seed : JointTrajectory)
  : outcome (bool * JointTrajectory) :=
  match constraints (trajectory_constraints req) with
  | [] => Ret (false, seed)
  | _ :: _ =>
      cartesian <- isCartesianSeed request_ ;;
      if cartesian
      then '(ok, seed', _) <- extractSeedCartesianTrajectory P req seed ;;
           Ret (ok, seed')
      else extractSeedJointTrajectory P req seed
  end.

(* ================================================================== *)
(** * Seed repair: getSeedParameters (lines 295-428)                     *)
(* ================================================================== *)

(** The lambda [within_tolerance]: [(a - b).cwiseAbs().sum() <= tol]. *)
Definition within_tolerance (ndebug : bool) (a b : VectorXd) (tol : double)
  : outcome bool :=
  eigen_assert ndebug (length a =? length b) ;;;
  Ret (l1_distance a b <=? tol)%float.

(** [for j: v(j) = state.getVariablePosition(joint_names[j])] on a vector [v]
    that already has its size. *)
Definition copy_joint_values (P : StompPlanner) (state : RobotState P)
  (v : VectorXd) : outcome VectorXd :=
  let names := getActiveJointModelNames P in
  eigen_assert (NDEBUG P) (length names <=? length v) ;;;
  Ret (map (getVariablePosition P state) names ++ skipn (length names) v).

(** [for jc in gc.joint_constraints:
       state.setVariablePosition(jc.joint_name, jc.position)] *)
Fixpoint set_joint_constraint_values (P : StompPlanner) (state : RobotState P)
  (jcs : list JointConstraint) : outcome (RobotState P) :=
  match jcs with
  | [] => Ret state
  | jc :: jcs' =>
      state' <- setVariablePosition P state (joint_name jc) (position jc) ;;
      set_joint_constraint_values P state' jcs'
  end.

(** [v.front()] on a [std::vector]. *)
Definition front {A : Type} (v : list A) : outcome A := at_index v 0.

(** [v.back()] on a [std::vector]. *)
Definition back {A : Type} (v : list A) : outcome A :=
  at_index v (length v - 1).

(** The loop over [request_.goal_constraints] of [getSeedParameters]
    (lines 365-401); the [bool] is [found_goal]. *)
Fixpoint seed_goal_loop (P : StompPlanner) (gcs : list Constraints)
  (state : RobotState P) (goal : VectorXd) : outcome (bool * VectorXd) :=
  match gcs with
  | [] => Ret (false, goal)
  | gc :: gcs' =>
      if negb (length (joint_constraints gc) =? 0)
      then
        state' <- set_joint_constraint_values P state (joint_constraints gc) ;;
        if negb (satisfiesBounds_group P state')
        then seed_goal_loop P gcs' state' goal           (* continue *)
        else
          goal' <- copy_joint_values P state' goal ;;
          Ret (true, goal')                               (* break *)
      else
        if negb (length (position_constraints gc) =? 0)
           && negb (length (orientation_constraints gc) =? 0)
        then
          pc <- front (position_constraints gc) ;;
          oc <- front (orientation_constraints gc) ;;
          '(found, goal', _) <-
             ikFromCartesianConstraints P pc oc goal (ik_default_hint P) ;;
          if found then Ret (true, goal')
          else seed_goal_loop P gcs' state goal'
        else seed_goal_loop P gcs' state goal
  end.

(** The block that compares the seed's first column with the start state of
    the request and snaps it (lines 346-354); the [bool] is [false] where the
    source returns [false]. *)
Definition seed_start_block (ndebug : bool) (parameters : MatrixXd)
  (start : VectorXd) : outcome (bool * MatrixXd) :=
  first_col <- leftCols1 ndebug parameters ;;
  within <- within_tolerance ndebug first_col start MAX_START_DISTANCE_THRESH ;;
  if within
  then parameters' <- assign_leftCols1 ndebug parameters start ;;
       Ret (true, parameters')
  else Ret (false, parameters).

(** The block that forces the goal into the seed's last column (lines
    404-420). *)
Definition seed_goal_block (ndebug : bool) (parameters : MatrixXd)
  (found_goal : bool) (goal : VectorXd) : outcome (bool * MatrixXd) :=
  if found_goal
  then
    last_col <- rightCols1 ndebug parameters ;;
    within <- within_tolerance ndebug last_col goal MAX_START_DISTANCE_THRESH ;;
    if within
    then parameters' <- assign_rightCols1 ndebug parameters goal ;;
         Ret (true, parameters')
    else Ret (false, parameters)
  else Ret (false, parameters).

(** [parameters] is the caller's matrix on entry; the result carries its
    value on return. *)
Definition getSeedParameters (P : StompPlanner) (request_ : MotionPlanRequest)
  (parameters : MatrixXd) : outcome (bool * MatrixXd) :=
  '(extracted, traj) <-
     extractSeedTrajectory P request_ request_ JointTrajectory_empty ;;
  if negb extracted then Ret (false, parameters)
  else
    '(converted, parameters) <- jointTrajectorytoParameters traj ;;
    if negb converted then Ret (false, parameters)
    else if cols parameters <=? 2 then Ret (false, parameters)
    else
      let '(got_start, state) :=
        robotStateMsgToRobotState P (start_state request_) (RobotState_new P) in
      if negb got_start then Ret (false, parameters)
      else
        let start := map (getVariablePosition P state)
                         (getActiveJointModelNames P) in
        let state := enforceBounds P state in
        '(start_ok, parameters) <-
           seed_start_block (NDEBUG P) parameters start ;;
        if negb start_ok then Ret (false, parameters)
        else
          goal <- rightCols1 (NDEBUG P) parameters ;;
          '(found_goal, goal) <-
             seed_goal_loop P (goal_constraints request_) state goal ;;
          '(goal_ok, parameters) <-
             seed_goal_block (NDEBUG P) parameters found_goal goal ;;
          if negb goal_ok then Ret (false, parameters)
          else
            let '(smoothed, parameters) :=
              applyPolynomialSmoothing P parameters in
            if negb smoothed then Ret (false, parameters)
            else Ret (true, parameters).

(* ================================================================== *)
(** * Start and goal: getStartAndGoal (lines 697-854)                   *)
(* ================================================================== *)

(** Both helpers are unfinished in the source: [assert(false)], then the
    default-constructed message is returned. *)
Definition robotStateFromEigen (P : StompPlanner) (state : VectorXd)
  : outcome RobotStateMsg :=
  cxx_assert (NDEBUG P) false ;;;
  Ret RobotStateMsg_empty.

Definition jointConstraintsFromEigen (P : StompPlanner) (state : VectorXd)
  : outcome Constraints :=
  cxx_assert (NDEBUG P) false ;;;
  Ret Constraints_empty.

(** [v.setZero(n)] *)
Definition setZero (n : nat) : VectorXd := repeat 0%float n.

Definition set_start_state (r : MotionPlanRequest) (s : RobotStateMsg)
  : MotionPlanRequest :=
  mkMotionPlanRequest s (goal_constraints r) (trajectory_constraints r)
    (allowed_planning_time r) (max_velocity_scaling_factor r).

Definition set_goal_constraints (r : MotionPlanRequest) (g : list Constraints)
  : MotionPlanRequest :=
  mkMotionPlanRequest (start_state r) g (trajectory_constraints r)
    (allowed_planning_time r) (max_velocity_scaling_factor r).

(** What [getStartAndGoal] returns and leaves behind: its [bool], the two
    vectors and the planner's [request_]. *)
Record StartAndGoal : Set := mkStartAndGoal {
  sg_found : bool;
  sg_start : VectorXd;
  sg_goal : VectorXd;
  sg_request : MotionPlanRequest
}.

(** The branch taken when [isCartesianSeed()] holds (lines 727-764). *)
Definition getStartAndGoal_cartesian (P : StompPlanner)
  (request_ : MotionPlanRequest) : outcome StartAndGoal :=
  let n := length (getActiveJointModelNames P) in
  let start := setZero n in
  let goal := setZero n in
  c0 <- at_index (constraints (trajectory_constraints request_)) 0 ;;
  let position_constraints := position_constraints c0 in
  let orientation_constraints := orientation_constraints c0 in
  pc <- front position_constraints ;;
  oc <- front orientation_constraints ;;
  '(found_start, start, _) <-
     ikFromCartesianConstraints P pc oc start (ik_default_hint P) ;;
  pc <- back position_constraints ;;
  oc <- back orientation_constraints ;;
  '(found_goal, goal, _) <-
     ikFromCartesianConstraints P pc oc goal (ik_default_hint P) ;;
  if found_goal && found_start
  then
    start_msg <- robotStateFromEigen P start ;;
    let request_ := set_start_state request_ start_msg in
    let request_ := set_goal_constraints request_ [] in
    goal_msg <- jointConstraintsFromEigen P goal ;;
    let request_ := set_goal_constraints request_
                      (goal_constraints request_ ++ [goal_msg]) in
    Ret (mkStartAndGoal (found_goal && found_start) start goal request_)
  else Ret (mkStartAndGoal (found_goal && found_start) start goal request_).

(** The loop over [request_.goal_constraints] of [getStartAndGoal] (lines
    802-842). *)
Fixpoint goal_loop (P : StompPlanner) (gcs : list Constraints)
  (state : RobotState P) (goal : VectorXd) : outcome (bool * VectorXd) :=
  match gcs with
  | [] => Ret (false, goal)
  | gc :: gcs' =>
      if negb (length (joint_constraints gc) =? 0)
      then
        state' <- set_joint_constraint_values P state (joint_constraints gc) ;;
        if negb (satisfiesBounds P state')
        then goal_loop P gcs' state' goal                (* continue *)
        else
          goal' <- copy_joint_values P state' goal ;;
          Ret (true, goal')                               (* break *)
      else
        if negb (length (position_constraints gc) =? 0)
           && negb (length (orientation_constraints gc) =? 0)
        then
          pc <- front (position_constraints gc) ;;
          oc <- front (orientation_constraints gc) ;;
          '(found, goal', _) <-
             ikFromCartesianConstraints P pc oc goal (ik_default_hint P) ;;
          if found then Ret (true, goal')
          else goal_loop P gcs' state goal'
        else goal_loop P gcs' state goal
  end.

(** The body of the [try] block (lines 768-845). *)
Definition getStartAndGoal_joint_try (P : StompPlanner)
  (request_ : MotionPlanRequest) (start goal : VectorXd)
  : outcome StartAndGoal :=
  let '(got_start, state) :=
    robotStateMsgToRobotState P (start_state request_) (RobotState_new P) in
  if negb got_start then Ret (mkStartAndGoal false start goal request_)
  else
    let n := length (getActiveJointModelNames P) in
    let start := uninitialized P n in
    let goal := uninitialized P n in
    if negb (satisfiesBounds P state)
    then Ret (mkStartAndGoal false start goal request_)
    else
      start <- copy_joint_values P state start ;;
      if length (goal_constraints request_) =? 0
      then Ret (mkStartAndGoal false start goal request_)
      else
        '(found_goal, goal) <-
           goal_loop P (goal_constraints request_) state goal ;;
        Ret (mkStartAndGoal found_goal start goal request_).

(** What [goal] holds when the loop of [getStartAndGoal] is left, by
    [break], at the end of the list or by an exception: [goal] is a
    reference, so what the loop wrote to it before an exception stays
    written. *)
Fixpoint goal_loop_goal (P : StompPlanner) (gcs : list Constraints)
  (state : RobotState P) (goal : VectorXd) : VectorXd :=
  match gcs with
  | [] => goal
  | gc :: gcs' =>
      if negb (length (joint_constraints gc) =? 0)
      then
        match set_joint_constraint_values P state (joint_constraints gc) with
        | Ret state' =>
            if negb (satisfiesBounds P state')
            then goal_loop_goal P gcs' state' goal
            else
              match copy_joint_values P state' goal with
              | Ret goal' => goal'
              | _ => goal
              end
        | _ => goal                     (* [setVariablePosition] threw *)
        end
      else
        if negb (length (position_constraints gc) =? 0)
           && negb (length (orientation_constraints gc) =? 0)
        then
          match
            pc <- front (position_constraints gc) ;;
            oc <- front (orientation_constraints gc) ;;
            ikFromCartesianConstraints P pc oc goal (ik_default_hint P)
          with
          | Ret (found, goal', _) =>
              if found then goal' else goal_loop_goal P gcs' state goal'
          | _ => goal
          end
        else goal_loop_goal P gcs' state goal
  end.

(** [try { ... } catch (moveit::Exception&) { return false; }]. [start] and
    [goal] are references: after the handler they hold what the [try] block
    had written when the exception left it. In the block only
    [setVariablePosition] throws, in the goal loop (lines 802-842); by then
    both vectors have been resized (lines 780-781) and [start] holds the
    start state (lines 789-792). *)
Definition getStartAndGoal_joint (P : StompPlanner)
  (request_ : MotionPlanRequest) (start goal : VectorXd)
  : outcome StartAndGoal :=
  match getStartAndGoal_joint_try P request_ start goal with
  | Throw (moveit_Exception _) =>
      let state :=
        snd (robotStateMsgToRobotState P (start_state request_)
               (RobotState_new P)) in
      let n := length (getActiveJointModelNames P) in
      let start :=
        match copy_joint_values P state (uninitialized P n) with
        | Ret start => start
        | _ => uninitialized P n
        end in
      let goal :=
        goal_loop_goal P (goal_constraints request_) state
          (uninitialized P n) in
      Ret (mkStartAndGoal false start goal request_)
  | r => r
  end.

Definition getStartAndGoal (P : StompPlanner) (request_ : MotionPlanRequest)
  (start goal : VectorXd) : outcome StartAndGoal :=
  cartesian <- isCartesianSeed request_ ;;
  if cartesian
  then getStartAndGoal_cartesian P request_
  else getStartAndGoal_joint P request_ start goal.

(* ================================================================== *)
(** * The planning attempt: solve                                       *)
(* ================================================================== *)

(** ** parametersToJointTrajectory (lines 430-467) *)

Definition parameters_point (nrows : nat) (column : VectorXd)
  : JointTrajectoryPoint :=
  mkJointTrajectoryPoint column (repeat 0%float nrows) (repeat 0%float nrows)
    0%float.

Definition parametersToJointTrajectory (P : StompPlanner)
  (request_ : MotionPlanRequest) (parameters : MatrixXd)
  : bool * JointTrajectory :=
  let trajectory :=
    mkJointTrajectory (getActiveJointModelNames P)
      (map (parameters_point (rows parameters)) (colvecs parameters)) in
  let robot_state :=
    snd (robotStateMsgToRobotState P (start_state request_) (RobotState_new P)) in
  let traj := setRobotTrajectoryMsg P robot_state trajectory in
  let '(timed, traj) :=
    computeTimeStamps P traj (max_velocity_scaling_factor request_) in
  if timed then (true, getRobotTrajectoryMsg P traj)
  else (false, trajectory).

(** ** solve (lines 174-293) *)

Record MotionPlanDetailedResponse (P : StompPlanner) : Type :=
  mkMotionPlanDetailedResponse {
  trajectory_ : list (option (RobotTrajectory P));   (* [None]: a null pointer *)
  description_ : list string;
  processing_time_ : list double;
  error_code_ : MoveItErrorCodes
}.

(** [v.resize(1, x)] *)
Definition resize1 {A : Type} (x : A) (v : list A) : list A :=
  match v with
  | [] => [x]
  | a :: _ => [a]
  end.

Definition set_error_code (P : StompPlanner) (res : MotionPlanDetailedResponse P)
  (e : MoveItErrorCodes) : MotionPlanDetailedResponse P :=
  mkMotionPlanDetailedResponse P (trajectory_ res) (description_ res)
    (processing_time_ res) e.

Definition set_trajectory0 (P : StompPlanner) (res : MotionPlanDetailedResponse P)
  (t : RobotTrajectory P) : MotionPlanDetailedResponse P :=
  mkMotionPlanDetailedResponse P (set_nth 0 (Some t) (trajectory_ res))
    (description_ res) (processing_time_ res) (error_code_ res).

Definition set_processing_time0 (P : StompPlanner)
  (res : MotionPlanDetailedResponse P) (t : double)
  : MotionPlanDetailedResponse P :=
  mkMotionPlanDetailedResponse P (trajectory_ res) (description_ res)
    (set_nth 0 t (processing_time_ res)) (error_code_ res).

(** What [solve] returns and leaves behind: its [bool], the response and the
    planner's [request_]. *)
Record Solved (P : StompPlanner) : Type := mkSolved {
  solve_result : bool;
  solve_response : MotionPlanDetailedResponse P;
  solve_request : MotionPlanRequest
}.

(** The part of [solve] after the optimizer has run ("Handle results" and
    the check against the planning scene). The local [success] is assigned
    [false] when the path is invalid and is never read: the last statement is
    [return true]. *)
Definition solve_handle_results (P : StompPlanner)
  (request_ : MotionPlanRequest) (res : MotionPlanDetailedResponse P)
  (planning_success : bool) (parameters : MatrixXd) : Solved P :=
  if planning_success
  then
    let '(converted, trajectory) :=
      parametersToJointTrajectory P request_ parameters in
    if negb converted
    then mkSolved false (set_error_code res PLANNING_FAILED) request_
    else
      let robot_state :=
        snd (robotStateMsgToRobotState P (start_state request_)
               (RobotState_new P)) in
      let result_traj := setRobotTrajectoryMsg P robot_state trajectory in
      let res := set_trajectory0 res result_traj in
      let res :=
        match isPathValid P with
        | Some path_valid =>
            if negb (path_valid result_traj)
            then set_error_code res PLANNING_FAILED
            else res
        | None => res
        end in
      let res := set_processing_time0 res (wall_elapsed P) in
      mkSolved true res request_
  else mkSolved false (set_error_code res PLANNING_FAILED) request_.

(** The branch [if (use_seed)]. *)
Definition solve_seeded (P : StompPlanner) (request_ : MotionPlanRequest)
  (res : MotionPlanDetailedResponse P) (config_copy : StompConfiguration)
  (initial_parameters : MatrixXd) : outcome (Solved P) :=
  let config_copy :=
    mkStompConfiguration (int_of_Index (cols initial_parameters))
      (num_dimensions config_copy) in
  let '(task_ok, code) :=
    setMotionPlanRequest P request_ config_copy (error_code_ res) in
  let res := set_error_code res code in
  if negb task_ok
  then Ret (mkSolved false (set_error_code res FAILURE) request_)
  else
    let '(planning_success, parameters) :=
      stomp_solve_seed P request_ config_copy initial_parameters in
    Ret (solve_handle_results request_ res planning_success parameters).

(** The branch [else]: start and goal from the request. *)
Definition solve_unseeded (P : StompPlanner) (request_ : MotionPlanRequest)
  (res : MotionPlanDetailedResponse P) (config_copy : StompConfiguration)
  : outcome (Solved P) :=
  sg <- getStartAndGoal P request_ VectorXd_empty VectorXd_empty ;;
  let request_ := sg_request sg in
  if negb (sg_found sg)
  then Ret (mkSolved false (set_error_code res INVALID_MOTION_PLAN) request_)
  else
    let '(task_ok, code) :=
      setMotionPlanRequest P request_ config_copy (error_code_ res) in
    let res := set_error_code res code in
    if negb task_ok
    then Ret (mkSolved false (set_error_code res FAILURE) request_)
    else
      let '(planning_success, parameters) :=
        stomp_solve P request_ config_copy (sg_start sg) (sg_goal sg) in
      Ret (solve_handle_results request_ res planning_success parameters).

(** The response as [solve] initialises it. *)
Definition solve_init_response (P : StompPlanner)
  (res : MotionPlanDetailedResponse P) : MotionPlanDetailedResponse P :=
  mkMotionPlanDetailedResponse P
    (resize1 None (trajectory_ res))
    (resize1 EmptyString (description_ res))
    (resize1 0%float (processing_time_ res))
    SUCCESS.

(** [solve(planning_interface::MotionPlanDetailedResponse&)]. The timeout
    timer only calls [terminate()], which acts on the optimizer: what it does
    is part of the optimizer's answer. *)
Definition solve (P : StompPlanner) (request_ : MotionPlanRequest)
  (res : MotionPlanDetailedResponse P) : outcome (Solved P) :=
  let res := solve_init_response res in
  let config_copy := stomp_config_ P in
  '(use_seed, initial_parameters) <-
     getSeedParameters P request_ MatrixXd_empty ;;
  if use_seed
  then solve_seeded request_ res config_copy initial_parameters
  else solve_unseeded request_ res config_copy.

(* ================================================================== *)
(** * The specification's vocabulary                                    *)
(* ================================================================== *)

(** The seed classification in the specification's words, read on the first
    constraint set: Cartesian when it has no joint constraints but position
    and orientation constraints, joint when it has joint constraints, and an
    [AmbiguousSeedType] failure when the constraints are empty or have
    neither shape. *)
Inductive SeedType : Set :=
| CartesianSeeded
| JointSeeded
| AmbiguousSeedType.

Definition has_joint_shape (c : Constraints) : bool :=
  0 <? length (joint_constraints c).

Definition has_cartesian_shape (c : Constraints) : bool :=
  (0 <? length (position_constraints c))
  && (0 <? length (orientation_constraints c)).

Definition classifySeed_spec (req : MotionPlanRequest) : SeedType :=
  match constraints (trajectory_constraints req) with
  | [] => AmbiguousSeedType
  | c0 :: _ =>
      if has_joint_shape c0 then JointSeeded
      else if has_cartesian_shape c0 then CartesianSeeded
      else AmbiguousSeedType
  end.

(** How an outcome of the classifier reads as a classification: the two
    booleans, and a reported failure for [AmbiguousSeedType]. *)
Definition classifies (o : outcome bool) (t : SeedType) : Prop :=
  match t with
  | CartesianSeeded => o = Ret true
  | JointSeeded => o = Ret false
  | AmbiguousSeedType => exists e, o = Throw e
  end.

(** A [double] that is a number: neither NaN nor an infinity. *)
Definition is_finite (x : double) : bool :=
  match Prim2SF x with
  | S754_zero _ | S754_finite _ _ _ => true
  | _ => false
  end.

(** A [double] that is neither NaN nor the positive infinity. *)
Definition below_infinity (x : double) : bool :=
  match Prim2SF x with
  | S754_nan | S754_infinity false => false
  | _ => true
  end.

(** The configuration midway between the joint limits. *)
Definition midrange (lower upper : VectorXd) : VectorXd :=
  map (fun lu => (fst lu + snd lu) / 2)%float (combine lower upper).

(** Whether the solver answers a pose when started from [hint]. *)
Definition ik_solves (P : StompPlanner) (pose : Frame) (hint : VectorXd)
  : bool :=
  match getKDLChain (tracik_solver P) with
  | None => false
  | Some chain_joints =>
      (0 <=? fst (CartToJnt (tracik_solver P) (nominal chain_joints hint) pose))%Z
  end.

(** What the solver answers for a pose when started from [hint]. *)
Definition ik_answer (P : StompPlanner) (pose : Frame) (hint : VectorXd)
  : VectorXd :=
  match getKDLChain (tracik_solver P) with
  | None => hint
  | Some chain_joints =>
      snd (CartToJnt (tracik_solver P) (nominal chain_joints hint) pose)
  end.

(** The solver invocation made for a pose when started from [hint]. *)
Definition ik_call (P : StompPlanner) (pose : Frame) (hint : VectorXd)
  : list IKCall :=
  match getKDLChain (tracik_solver P) with
  | None => []
  | Some chain_joints => [mkIKCall (nominal chain_joints hint) pose]
  end.

(** The waypoints of a Cartesian constraint set, in order. *)
Definition waypoints (c : Constraints) : list Frame :=
  map (fun po => end_effector_pose (fst po) (snd po))
      (combine (position_constraints c) (orientation_constraints c)).

(** The IK chain over a list of poses, written as a recursion on the poses:
    the configuration after one waypoint, the configurations after each
    waypoint, the number of waypoints left unsolved, and the solver
    invocations, all starting from the configuration [jp]. *)
Definition chain_step (P : StompPlanner) (jp : VectorXd) (pose : Frame)
  : VectorXd :=
  if ik_solves P pose jp then ik_answer P pose jp else jp.

Fixpoint chain_positions (P : StompPlanner) (jp : VectorXd) (poses : list Frame)
  : list VectorXd :=
  match poses with
  | [] => []
  | pose :: poses' =>
      chain_step P jp pose :: chain_positions P (chain_step P jp pose) poses'
  end.

Fixpoint chain_failures (P : StompPlanner) (jp : VectorXd) (poses : list Frame)
  : nat :=
  match poses with
  | [] => 0
  | pose :: poses' =>
      (if ik_solves P pose jp then 0 else 1)
      + chain_failures P (chain_step P jp pose) poses'
  end.

Fixpoint chain_calls (P : StompPlanner) (jp : VectorXd) (poses : list Frame)
  : list IKCall :=
  match poses with
  | [] => []
  | pose :: poses' =>
      ik_call P pose jp ++ chain_calls P (chain_step P jp pose) poses'
  end.

(** The configuration the loop holds when it reaches waypoint [i], which is
    the hint of the solve for that waypoint: [jp] at the first waypoint, and
    afterwards the configuration after waypoint [i - 1]. *)
Definition chain_hint (P : StompPlanner) (jp : VectorXd) (poses : list Frame)
  (i : nat) : VectorXd :=
  match i with
  | 0 => jp
  | S j => nth j (chain_positions P jp poses) jp
  end.

(** A Cartesian seed request as [extractSeedCartesianTrajectory] asserts it:
    one constraint set, with as many orientation as position constraints and
    at least one of them; the joint group has a single root. *)
Definition cartesian_seed_request (P : StompPlanner) (req : MotionPlanRequest)
  (c0 : Constraints) : Prop :=
  constraints (trajectory_constraints req) = [c0] /\
  length (position_constraints c0) = length (orientation_constraints c0) /\
  0 < length (position_constraints c0) /\
  getJointRoots_size P = 1.

(* ================================================================== *)
(** * A small planner to run the model on                               *)
(* ================================================================== *)

Module Demo.

Local Open Scope float_scope.

(** Two joints; a robot state is the list of the values set so far. *)
Definition names : list string := ["j1"%string; "j2"%string].

Definition State : Type := list (string * double).

Fixpoint lookup (s : State) (n : string) : double :=
  match s with
  | [] => 0
  | (k, v) :: s' => if String.eqb k n then v else lookup s' n
  end.

Definition in_bounds (s : State) : bool :=
  forallb (fun n => (-4 <=? lookup s n) && (lookup s n <=? 4))
          names.

Definition from_msg (m : RobotStateMsg) (s : State) : bool * State :=
  (true, combine (joint_state_name m) (joint_state_position m) ++ s).

(** The solver reaches every pose in front of the robot (x >= 0) and
    answers with the pose's x and y; its joints range over [1, 3]. *)
Definition solver : TRAC_IK :=
  mkTRAC_IK (Some 2%nat)
    (Some ([1; 1], [3; 3]))
    (fun q pose =>
       if v3_x (Frame_p pose) <? 0 then ((-3)%Z, [])
       else (0%Z, [v3_x (Frame_p pose); v3_y (Frame_p pose)])).

(** The optimizer answers with three steps from start to goal. *)
Definition planner (ndebug path_valid : bool) : StompPlanner :=
  {| NDEBUG := ndebug;
     getActiveJointModelNames := names;
     getJointRoots_size := 1;
     RobotState := State;
     RobotState_new := [];
     robotStateMsgToRobotState := from_msg;
     getVariablePosition := lookup;
     setVariablePosition := fun s n v => Ret ((n, v) :: s);
     satisfiesBounds := in_bounds;
     satisfiesBounds_group := in_bounds;
     enforceBounds := fun s => s;
     RobotTrajectory := JointTrajectory;
     setRobotTrajectoryMsg := fun _ t => t;
     getRobotTrajectoryMsg := fun t => t;
     computeTimeStamps := fun t _ => (true, t);
     isPathValid := Some (fun _ => path_valid);
     tracik_solver := solver;
     ik_default_hint := [];
     applyPolynomialSmoothing := fun m => (true, m);
     stomp_config_ := mkStompConfiguration 3 2;
     setMotionPlanRequest := fun _ _ code => (true, code);
     stomp_solve_seed := fun _ _ m => (true, m);
     stomp_solve := fun _ _ s g => (true, mkMatrix 2 [s; s; g]);
     wall_elapsed := 1;
     uninitialized := fun n => repeat 0 n |}.

Definition response0 (ndebug path_valid : bool)
  : MotionPlanDetailedResponse (planner ndebug path_valid) :=
  mkMotionPlanDetailedResponse (planner ndebug path_valid) [] [] [] SUCCESS.

Definition jc (n : string) (v : double) : JointConstraint :=
  mkJointConstraint n v.

Definition joint_set (a b : double) : Constraints :=
  mkConstraints [jc "j1" a; jc "j2" b] [] [].

Definition pc (x y : double) : PositionConstraint :=
  mkPositionConstraint (mkVector3 x y 0).

Definition oc : OrientationConstraint :=
  mkOrientationConstraint (mkQuaternion 0 0 0 1).

Definition start_msg (a b : double) : RobotStateMsg :=
  mkRobotStateMsg names [a; b].

Definition request (start : RobotStateMsg) (goal seed : list Constraints)
  : MotionPlanRequest :=
  mkMotionPlanRequest start goal (mkTrajectoryConstraints seed) 5 1.

(** No seed: a joint start and one joint goal, both within bounds. *)
Definition request_no_seed : MotionPlanRequest :=
  request (start_msg 0 0) [joint_set 1 1] [].

(** A joint seed of three steps, its start 0.25 away from the request's. *)
Definition request_joint_seed : MotionPlanRequest :=
  request (start_msg 0.25 0) [joint_set 1 1]
    [joint_set 0 0; joint_set 0.5 0.5; joint_set 1 1].

(** The same seed with the request's start 0.75 away from it. *)
Definition request_far_start : MotionPlanRequest :=
  request (start_msg 0.75 0) [joint_set 1 1]
    [joint_set 0 0; joint_set 0.5 0.5; joint_set 1 1].

(** A joint seed of two steps. *)
Definition request_short_seed : MotionPlanRequest :=
  request (start_msg 0 0) [joint_set 1 1] [joint_set 0 0; joint_set 1 1].

(** A request whose seed is the single constraint set [c0]. *)
Definition request_with_seed (c0 : Constraints) : MotionPlanRequest :=
  request (start_msg 0 0) [joint_set 1 1] [c0].

(** A Cartesian seed: every waypoint in reach. *)
Definition cartesian_set : Constraints :=
  mkConstraints [] [pc 1 1; pc 2 1; pc 3 1] [oc; oc; oc].

Definition request_cartesian : MotionPlanRequest :=
  request_with_seed cartesian_set.

(** A Cartesian seed whose middle waypoint is out of reach. *)
Definition cartesian_set_middle : Constraints :=
  mkConstraints [] [pc 1 1; pc (-1) 1; pc 3 1] [oc; oc; oc].

Definition request_cartesian_middle : MotionPlanRequest :=
  request_with_seed cartesian_set_middle.

(** A Cartesian seed whose first waypoint is out of reach. *)
Definition cartesian_set_first : Constraints :=
  mkConstraints [] [pc (-1) 1; pc 2 1; pc 3 1] [oc; oc; oc].

Definition request_cartesian_first : MotionPlanRequest :=
  request_with_seed cartesian_set_first.

(** A Cartesian seed of two waypoints, the first one out of reach. *)
Definition cartesian_set_short : Constraints :=
  mkConstraints [] [pc (-1) 1; pc 2 1] [oc; oc].

Definition request_cartesian_short : MotionPlanRequest :=
  request_with_seed cartesian_set_short.

(** A seed whose first constraint set has no constraint at all. *)
Definition request_shapeless : MotionPlanRequest :=
  request (start_msg 0 0) [joint_set 1 1] [Constraints_empty].

End Demo.

(* ================================================================== *)
(** * The compact response: solve(MotionPlanResponse&) (lines 159-172)  *)
(* ================================================================== *)

Record MotionPlanResponse (P : StompPlanner) : Type := mkMotionPlanResponse {
  mpr_trajectory_ : option (RobotTrajectory P);      (* [None]: a null pointer *)
  mpr_planning_time_ : double;
  mpr_error_code_ : MoveItErrorCodes
}.

(** A default-constructed [MotionPlanDetailedResponse]; [solve] overwrites
    its error code before reading it. *)
Definition MotionPlanDetailedResponse_empty (P : StompPlanner)
  : MotionPlanDetailedResponse P :=
  mkMotionPlanDetailedResponse P [] [] [] SUCCESS.

(** [planning_time] is what the wall clock shows when the function reads it
    after the detailed [solve] has returned. Returns the [bool], the
    response and the planner's [request_]. *)
Definition solve_compact (P : StompPlanner) (request_ : MotionPlanRequest)
  (planning_time : double)
  : outcome (bool * MotionPlanResponse P * MotionPlanRequest) :=
  r <- solve request_ (MotionPlanDetailedResponse_empty P) ;;
  let detailed_res := solve_response r in
  trajectory <- back (trajectory_ detailed_res) ;;
  Ret (solve_result r,
       mkMotionPlanResponse P trajectory planning_time
         (error_code_ detailed_res),
       solve_request r).

(* ================================================================== *)
(** * Configuration: parseConfig (lines 50-101), getConfigData (900-926) *)
(* ================================================================== *)

Module XmlRpc.

(** [XmlRpc::XmlRpcValue], by its type tag. The values of the date and
    binary types are never read by the planner. *)
#[local] Unset Elimination Schemes.
Inductive XmlRpcValue : Set :=
| TypeInvalid
| TypeBoolean (b : bool)
| TypeInt (i : Z)
| TypeDouble (d : double)
| TypeString (s : string)
| TypeDateTime
| TypeBase64
| TypeArray (a : list XmlRpcValue)
| TypeStruct (members : list (string * XmlRpcValue)).
#[local] Set Elimination Schemes.

(** What an XmlRpc operation gives: a value, or an [XmlRpcException]. *)
Inductive result (A : Type) : Type :=
| Ok (a : A)
| XmlRpcException (message : string).

Arguments Ok {A} a.
Arguments XmlRpcException {A} message.

Definition bind {A B : Type} (c : result A) (k : A -> result B) : result B :=
  match c with
  | Ok a => k a
  | XmlRpcException m => XmlRpcException m
  end.

(** A [std::map] keyed by strings, as the list of its entries in key order.
    [map_insert] is [std::map::insert]: an entry whose key is present stays
    as it is. *)
Fixpoint map_find {V : Type} (k : string) (m : list (string * V)) : option V :=
  match m with
  | [] => None
  | (k', v) :: m' => if String.eqb k k' then Some v else map_find k m'
  end.

Fixpoint map_place {V : Type} (k : string) (v : V) (m : list (string * V))
  : list (string * V) :=
  match m with
  | [] => [(k, v)]
  | (k', v') :: m' =>
      match String.compare k k' with
      | Gt => (k', v') :: map_place k v m'
      | _ => (k, v) :: m
      end
  end.

Definition map_insert {V : Type} (k : string) (v : V) (m : list (string * V))
  : list (string * V) :=
  match map_find k m with
  | Some _ => m
  | None => map_place k v m
  end.

(** [m[k] = v] on a [std::map] whose key [k] is present. *)
Fixpoint map_assign {V : Type} (k : string) (v : V) (m : list (string * V))
  : list (string * V) :=
  match m with
  | [] => []
  | (k', v') :: m' =>
      if String.eqb k k' then (k', v) :: m' else (k', v') :: map_assign k v m'
  end.

(** [v.hasMember(name)] *)
Definition hasMember (v : XmlRpcValue) (name : string) : bool :=
  match v with
  | TypeStruct members =>
      match map_find name members with Some _ => true | None => false end
  | _ => false
  end.

(** [assertStruct()]: an invalid value becomes an empty struct, any other
    non-struct throws. Gives the members. *)
Definition assertStruct (v : XmlRpcValue)
  : result (list (string * XmlRpcValue)) :=
  match v with
  | TypeStruct members => Ok members
  | TypeInvalid => Ok []
  | _ => XmlRpcException "type error: expected a struct"
  end.

(** [v[name]]: the member, inserted as an invalid value when it is missing;
    also gives [v] as the access leaves it. *)
Definition index (v : XmlRpcValue) (name : string)
  : result (XmlRpcValue * XmlRpcValue) :=
  match assertStruct v with
  | XmlRpcException m => XmlRpcException m
  | Ok members =>
      let members' := map_insert name TypeInvalid members in
      match map_find name members' with
      | Some x => Ok (x, TypeStruct members')
      | None => Ok (TypeInvalid, TypeStruct members')
      end
  end.

(** The conversion operators ([assertTypeOrInvalid]): an invalid value
    becomes the default of the type asked for, a value of another type
    throws. Each gives the converted value and the [XmlRpcValue] as the
    conversion leaves it. *)
Definition as_int (v : XmlRpcValue) : result (Z * XmlRpcValue) :=
  match v with
  | TypeInt i => Ok (i, v)
  | TypeInvalid => Ok (0%Z, TypeInt 0%Z)
  | _ => XmlRpcException "type error"
  end.

Definition as_double (v : XmlRpcValue) : result (double * XmlRpcValue) :=
  match v with
  | TypeDouble d => Ok (d, v)
  | TypeInvalid => Ok (0%float, TypeDouble 0%float)
  | _ => XmlRpcException "type error"
  end.

Definition as_string (v : XmlRpcValue) : result (string * XmlRpcValue) :=
  match v with
  | TypeString s => Ok (s, v)
  | TypeInvalid => Ok (EmptyString, TypeString EmptyString)
  | _ => XmlRpcException "type error"
  end.

End XmlRpc.

(** An [int] converted to [double]: exact. *)
Definition double_of_int (i : Z) : double :=
  SF2Prim (binary_normalize prec emax i 0 false).

Module Config.

(** [stomp_core::StompConfiguration], every field. *)
Record StompConfiguration : Set := mkStompConfiguration {
  num_iterations : Z;
  num_iterations_after_valid : Z;
  num_timesteps : Z;
  num_dimensions : Z;
  delta_t : double;
  initialization_method : Z;
  num_rollouts : Z;
  max_rollouts : Z;
  control_cost_weight : double;
  exponentiated_cost_sensitivity : double
}.

End Config.

(** [if (config.hasMember(name)) field = static_cast<T>(config[name]);]
    after [field = default]: the value the field ends with. [config] is
    [parseConfig]'s own copy and every key is read once, so what the access
    leaves in it is dropped. *)
Definition optional_parameter {A : Type} (config : XmlRpc.XmlRpcValue)
  (name : string) (cast : XmlRpc.XmlRpcValue -> XmlRpc.result (A * XmlRpc.XmlRpcValue))
  (default : A) : XmlRpc.result A :=
  if XmlRpc.hasMember config name
  then XmlRpc.bind (XmlRpc.index config name) (fun vc =>
       XmlRpc.bind (cast (fst vc)) (fun xv => XmlRpc.Ok (fst xv)))
  else XmlRpc.Ok default.

(** [active_joints] is [group->getActiveJointModels().size()]. Every field
    of [stomp_config] is written before the function returns. *)
Definition parseConfig (config : XmlRpc.XmlRpcValue) (active_joints : nat)
  : XmlRpc.result (bool * Config.StompConfiguration) :=
  XmlRpc.bind (optional_parameter config "control_cost_weight"
                 XmlRpc.as_double 0%float) (fun control_cost_weight =>
  XmlRpc.bind (optional_parameter config "initialization_method"
                 XmlRpc.as_int 1%Z) (fun initialization_method =>
  XmlRpc.bind (optional_parameter config "num_timesteps"
                 XmlRpc.as_int 40%Z) (fun num_timesteps =>
  XmlRpc.bind (optional_parameter config "delta_t"
                 XmlRpc.as_double 1%float) (fun delta_t =>
  XmlRpc.bind (optional_parameter config "num_iterations"
                 XmlRpc.as_int 50%Z) (fun num_iterations =>
  XmlRpc.bind (optional_parameter config "num_iterations_after_valid"
                 XmlRpc.as_int 0%Z) (fun num_iterations_after_valid =>
  XmlRpc.bind (optional_parameter config "max_rollouts"
                 XmlRpc.as_int 100%Z) (fun max_rollouts =>
  XmlRpc.bind (optional_parameter config "num_rollouts"
                 XmlRpc.as_int 10%Z) (fun num_rollouts =>
  XmlRpc.bind (optional_parameter config "exponentiated_cost_sensitivity"
                 (fun v => XmlRpc.bind (XmlRpc.as_int v) (fun iv =>
                             XmlRpc.Ok (double_of_int (fst iv), snd iv)))
                 10%float) (fun exponentiated_cost_sensitivity =>
  let num_dimensions := int_of_Index active_joints in
  let stomp_config :=
    Config.mkStompConfiguration num_iterations num_iterations_after_valid
      num_timesteps num_dimensions delta_t initialization_method
      num_rollouts max_rollouts control_cost_weight
      exponentiated_cost_sensitivity in
  XmlRpc.Ok (negb (num_dimensions =? 0)%Z, stomp_config)))))))))).

(** The loop of [getConfigData] over the entries of the [stomp] parameter, in
    key order. The [bool] is [false] where an [XmlRpcException] is caught;
    [config] keeps what was inserted before. *)
Fixpoint getConfigData_loop (entries : list (string * XmlRpc.XmlRpcValue))
  (config : list (string * XmlRpc.XmlRpcValue))
  : bool * list (string * XmlRpc.XmlRpcValue) :=
  match entries with
  | [] => (true, config)
  | (_, second) :: entries' =>
      match XmlRpc.index second "group_name" with
      | XmlRpc.XmlRpcException _ => (false, config)
      | XmlRpc.Ok (member, second) =>
          match XmlRpc.as_string member with
          | XmlRpc.XmlRpcException _ => (false, config)
          | XmlRpc.Ok (group_name, member) =>
              let second :=
                match second with
                | XmlRpc.TypeStruct members =>
                    XmlRpc.TypeStruct
                      (XmlRpc.map_assign "group_name" member members)
                | _ => second
                end in
              getConfigData_loop entries'
                (XmlRpc.map_insert group_name second config)
          end
      end
  end.

(** [getParam] is what [nh.getParam(param, stomp_config)] finds: [None] when
    the parameter is not set. Returns the [bool] and [config]. *)
Definition getConfigData (getParam : option XmlRpc.XmlRpcValue)
  (config : list (string * XmlRpc.XmlRpcValue))
  : bool * list (string * XmlRpc.XmlRpcValue) :=
  match getParam with
  | None => (false, config)
  | Some stomp_config =>
      match XmlRpc.assertStruct stomp_config with
      | XmlRpc.XmlRpcException _ => (false, config)
      | XmlRpc.Ok entries => getConfigData_loop entries config
      end
  end.

(* ================================================================== *)
(** * Loading the planner: setup (lines 120-157)                        *)
(* ================================================================== *)

(** What a constructor called by [setup] does: it returns, or it throws an
    [XmlRpcException], or it throws something else. *)
Inductive Construction : Set :=
| Built
| ThrowsXmlRpcException (message : string)
| ThrowsOther.

(** How [setup] ends: it returns, with [config_] and [stomp_config_] as it
    leaves them, or a [std::logic_error] leaves it, or an exception of a
    constructor that it does not catch. *)
Inductive SetupOutcome : Set :=
| SetupDone (config_ : XmlRpc.XmlRpcValue)
    (stomp_config_ : Config.StompConfiguration)
| logic_error (what : string)
| OtherException.

Definition group_not_found (group_ : string) : string :=
  "Stomp Planning Group '" ++ group_ ++ "' was not found".

Definition failed_to_load (group_ : string) : string :=
  "Stomp 'optimization' parameter for group '" ++ group_
  ++ "' failed to load".

Definition failed_to_load_configuration (group_ message : string) : string :=
  "Stomp Planner failed to load configuration for group '" ++ group_
  ++ "'; " ++ message.

(** [hasJointModelGroup] is [robot_model_->hasJointModelGroup(group_)],
    [active_joints] the number of active joints of that group, [new_task]
    the constructor of [StompOptimizationTask] on the task configuration and
    [new_stomp] the constructor of [stomp_core::Stomp]. The planning scene
    that [setup] creates first holds no data of the model. *)
Definition setup (group_ : string) (config_ : XmlRpc.XmlRpcValue)
  (hasJointModelGroup : bool) (active_joints : nat)
  (new_task : XmlRpc.XmlRpcValue -> Construction)
  (new_stomp : Config.StompConfiguration -> Construction) : SetupOutcome :=
  match XmlRpc.index config_ "task" with
  | XmlRpc.XmlRpcException m =>
      logic_error (failed_to_load_configuration group_ m)
  | XmlRpc.Ok (task_config, config_) =>
      match new_task task_config with
      | ThrowsXmlRpcException m =>
          logic_error (failed_to_load_configuration group_ m)
      | ThrowsOther => OtherException
      | Built =>
          if negb hasJointModelGroup
          then logic_error (group_not_found group_)
          else if negb (XmlRpc.hasMember config_ "optimization")
          then logic_error (failed_to_load group_)
          else
            match XmlRpc.index config_ "optimization" with
            | XmlRpc.XmlRpcException m =>
                logic_error (failed_to_load_configuration group_ m)
            | XmlRpc.Ok (optimization, config_) =>
                match parseConfig optimization active_joints with
                | XmlRpc.XmlRpcException m =>
                    logic_error (failed_to_load_configuration group_ m)
                | XmlRpc.Ok (false, _) => logic_error (failed_to_load group_)
                | XmlRpc.Ok (true, stomp_config_) =>
                    match new_stomp stomp_config_ with
                    | ThrowsXmlRpcException m =>
                        logic_error (failed_to_load_configuration group_ m)
                    | ThrowsOther => OtherException
                    | Built => SetupDone config_ stomp_config_
                    end
                end
            end
      end
  end.

(* ================================================================== *)
(** * Which requests the planner takes: canServiceRequest (856-880)     *)
(* ================================================================== *)

(** [getGroupName] is the planner's group, [req_group_name] the request's
    [group_name], the one field of the request that only this function
    reads. *)
Definition canServiceRequest (getGroupName req_group_name : string)
  (req : MotionPlanRequest) : outcome bool :=
  if negb (String.eqb req_group_name getGroupName) then Ret false
  else if negb (length (goal_constraints req) =? 1) then Ret false
  else
    gc <- at_index (goal_constraints req) 0 ;;
    if length (joint_constraints gc) =? 0 then Ret false
    else Ret true.

(** An entry of the [stomp] parameter that [getConfigData] can register: a
    struct (or an invalid value) whose [group_name], if it has one, is a
    string (or invalid). *)
Definition registers (second : XmlRpc.XmlRpcValue) : bool :=
  match second with
  | XmlRpc.TypeInvalid => true
  | XmlRpc.TypeStruct members =>
      match XmlRpc.map_find "group_name" members with
      | None | Some XmlRpc.TypeInvalid | Some (XmlRpc.TypeString _) => true
      | Some _ => false
      end
  | _ => false
  end.

(** A well-formed entry: a struct with a string [group_name]. *)
Definition group_name_of (second : XmlRpc.XmlRpcValue) : option string :=
  match second with
  | XmlRpc.TypeStruct members =>
      match XmlRpc.map_find "group_name" members with
      | Some (XmlRpc.TypeString s) => Some s
      | _ => None
      end
  | _ => None
  end.

(** The first entry, in key order, whose [group_name] is [g]. *)
Fixpoint first_with_group (g : string)
  (entries : list (string * XmlRpc.XmlRpcValue)) : option XmlRpc.XmlRpcValue :=
  match entries with
  | [] => None
  | (_, second) :: entries' =>
      match group_name_of second with
      | Some g' => if String.eqb g g' then Some second
                   else first_with_group g entries'
      | None => first_with_group g entries'
      end
  end.

(** The optional keys of the [optimization] configuration. *)
Definition optional_keys : list string :=
  ["control_cost_weight"; "initialization_method"; "num_timesteps"; "delta_t";
   "num_iterations"; "num_iterations_after_valid"; "max_rollouts";
   "num_rollouts"; "exponentiated_cost_sensitivity"]%string.

(** What [parseConfig] asks of a key: absent, or an [int] (a [double]), or
    an invalid value. A [config] that is no struct has no member. *)
Definition holds_int (config : XmlRpc.XmlRpcValue) (name : string) : bool :=
  match config with
  | XmlRpc.TypeStruct members =>
      match XmlRpc.map_find name members with
      | None | Some XmlRpc.TypeInvalid | Some (XmlRpc.TypeInt _) => true
      | Some _ => false
      end
  | _ => true
  end.

Definition holds_double (config : XmlRpc.XmlRpcValue) (name : string) : bool :=
  match config with
  | XmlRpc.TypeStruct members =>
      match XmlRpc.map_find name members with
      | None | Some XmlRpc.TypeInvalid | Some (XmlRpc.TypeDouble _) => true
      | Some _ => false
      end
  | _ => true
  end.

(** The types the nine casts of [parseConfig] accept, in the order of the
    casts: [exponentiated_cost_sensitivity], a [double] field, is cast to
    [int]. *)
Definition well_typed (config : XmlRpc.XmlRpcValue) : bool :=
  holds_double config "control_cost_weight" &&
  holds_int config "initialization_method" &&
  holds_int config "num_timesteps" &&
  holds_double config "delta_t" &&
  holds_int config "num_iterations" &&
  holds_int config "num_iterations_after_valid" &&
  holds_int config "max_rollouts" &&
  holds_int config "num_rollouts" &&
  holds_int config "exponentiated_cost_sensitivity".

(** The error codes [solve] assigns next to a [false] result. *)
Definition is_failure_code (e : MoveItErrorCodes) : Prop :=
  e = FAILURE \/ e = PLANNING_FAILED \/ e = INVALID_MOTION_PLAN.

(* ================================================================== *)
(** * More planners to run the model on                                 *)
(* ================================================================== *)

Module Demo2.

Local Open Scope float_scope.

(** [setVariablePosition] as MoveIt has it: an unknown variable name throws. *)
Definition set_known (s : Demo.State) (n : string) (v : double)
  : outcome Demo.State :=
  if existsb (String.eqb n) Demo.names then Ret ((n, v) :: s)
  else Throw (moveit_Exception "Variable is not known to model").

(** The demo planner with another solver and another [setVariablePosition]. *)
Definition planner_with (solver : TRAC_IK)
  (set : Demo.State -> string -> double -> outcome Demo.State)
  : StompPlanner :=
  {| NDEBUG := false;
     getActiveJointModelNames := Demo.names;
     getJointRoots_size := 1;
     RobotState := Demo.State;
     RobotState_new := [];
     robotStateMsgToRobotState := Demo.from_msg;
     getVariablePosition := Demo.lookup;
     setVariablePosition := set;
     satisfiesBounds := Demo.in_bounds;
     satisfiesBounds_group := Demo.in_bounds;
     enforceBounds := fun s => s;
     RobotTrajectory := JointTrajectory;
     setRobotTrajectoryMsg := fun _ t => t;
     getRobotTrajectoryMsg := fun t => t;
     computeTimeStamps := fun t _ => (true, t);
     isPathValid := Some (fun _ => true);
     tracik_solver := solver;
     ik_default_hint := [];
     applyPolynomialSmoothing := fun m => (true, m);
     stomp_config_ := mkStompConfiguration 3 2;
     setMotionPlanRequest := fun _ _ code => (true, code);
     stomp_solve_seed := fun _ _ m => (true, m);
     stomp_solve := fun _ _ s g => (true, mkMatrix 2 [s; s; g]);
     wall_elapsed := 1;
     uninitialized := fun n => repeat 0 n |}.

(** A solver whose chain cannot be built. *)
Definition solver_without_chain : TRAC_IK :=
  mkTRAC_IK None None (CartToJnt Demo.solver).

Definition planner_without_chain : StompPlanner :=
  planner_with solver_without_chain (fun s n v => Ret ((n, v) :: s)).

Definition planner_strict_names : StompPlanner :=
  planner_with Demo.solver set_known.

(** A three-step joint seed; the goal constraint names a joint the robot
    does not have. *)
Definition request_unknown_goal_joint : MotionPlanRequest :=
  Demo.request (Demo.start_msg 0 0)
    [mkConstraints [Demo.jc "j1" 1; Demo.jc "elbow" 1] [] []]
    [Demo.joint_set 0 0; Demo.joint_set 0.5 0.5; Demo.joint_set 1 1].

(** A three-step joint seed that ends 0.25 away from the goal. *)
Definition request_near_goal : MotionPlanRequest :=
  Demo.request (Demo.start_msg 0 0) [Demo.joint_set 1 1.25]
    [Demo.joint_set 0 0; Demo.joint_set 0.5 0.5; Demo.joint_set 1 1].

(** The same seed with the goal 1 away from its end. *)
Definition request_far_goal : MotionPlanRequest :=
  Demo.request (Demo.start_msg 0 0) [Demo.joint_set 1 2]
    [Demo.joint_set 0 0; Demo.joint_set 0.5 0.5; Demo.joint_set 1 1].

(** A two-step joint seed (rejected as a seed) with a start state out of
    bounds. *)
Definition request_start_out_of_bounds : MotionPlanRequest :=
  Demo.request (Demo.start_msg 5 0) [Demo.joint_set 1 1]
    [Demo.joint_set 0 0; Demo.joint_set 1 1].

(** A two-step joint seed (rejected as a seed) whose goal constraint names a
    joint the robot does not have. *)
Definition request_short_unknown_goal : MotionPlanRequest :=
  Demo.request (Demo.start_msg 0 0)
    [mkConstraints [Demo.jc "j1" 1; Demo.jc "elbow" 1] [] []]
    [Demo.joint_set 0 0; Demo.joint_set 1 1].

End Demo2.

(** A [stomp] parameter with two entries for the group [arm] and one for
    [gripper]. *)
Module DemoConfig.

Definition optimization (num_timesteps : Z) : XmlRpc.XmlRpcValue :=
  XmlRpc.TypeStruct [("num_timesteps"%string, XmlRpc.TypeInt num_timesteps)].

Definition group (name : string) (num_timesteps : Z) : XmlRpc.XmlRpcValue :=
  XmlRpc.TypeStruct
    [("group_name"%string, XmlRpc.TypeString name);
     ("optimization"%string, optimization num_timesteps)].

Definition entries : list (string * XmlRpc.XmlRpcValue) :=
  [("a"%string, group "arm" 20);
   ("b"%string, group "arm" 30);
   ("c"%string, group "gripper" 10)].

Definition stomp : XmlRpc.XmlRpcValue := XmlRpc.TypeStruct entries.

(** A map that already holds a configuration for [arm]. *)
Definition loaded : list (string * XmlRpc.XmlRpcValue) :=
  [("arm"%string, group "arm" 60)].

Definition always_built {A : Type} (_ : A) : Construction := Built.

End DemoConfig.

(* ================================================================== *)
(** * Properties                                                        *)
(* ================================================================== *)

(** ** Outcomes and vectors *)

Lemma bind_Ret (A B : Type) (c : outcome A) (k : A -> outcome B) (b : B) :
  bind c k = Ret b -> exists a, c = Ret a /\ k a = Ret b.
Proof.
  destruct c as [a| | |]; simpl; intro H; try discriminate.
  exists a. split; [reflexivity | exact H].
Qed.

Lemma at_index_app_mid (A : Type) (pre : list A) (x : A) (post : list A) :
  at_index (pre ++ x :: post) (length pre) = Ret x.
Proof.
  unfold at_index. rewrite nth_error_app2 by lia.
  rewrite Nat.sub_diag. reflexivity.
Qed.

(** ** The round trip through the constraint encoding *)

Section RoundTrip.

Variable names : list string.

Lemma parameters_column_suffix (pre suf : list double) :
  parameters_column (length suf) (length pre) (pre ++ suf) = Ret suf.
Proof.
  revert pre. induction suf as [|x suf IH]; intro pre; simpl.
  - reflexivity.
  - rewrite at_index_app_mid. simpl.
    replace (pre ++ x :: suf) with ((pre ++ [x]) ++ suf)
      by (rewrite <- app_assoc; reflexivity).
    replace (S (length pre)) with (length (pre ++ [x]))
      by (rewrite length_app; simpl; lia).
    rewrite IH. reflexivity.
Qed.

Lemma parameters_column_exact (pos : list double) :
  parameters_column (length pos) 0 pos = Ret pos.
Proof. exact (parameters_column_suffix [] pos). Qed.

Lemma parameters_columns_exact (pts : list JointTrajectoryPoint) :
  Forall (fun pt => length (positions pt) = length names) pts ->
  parameters_columns (length names) pts = Ret (map positions pts).
Proof.
  induction 1 as [|pt pts Hpt _ IH]; simpl.
  - reflexivity.
  - rewrite <- Hpt, parameters_column_exact. simpl.
    rewrite Hpt, IH. reflexivity.
Qed.

Lemma seed_point_positions_encoded (pre ns : list string) (pos acc : list double) :
  length pos = length ns ->
  seed_point_positions (pre ++ ns)
    (map (fun np => mkJointConstraint (fst np) (snd np)) (combine ns pos))
    (length pre) acc
  = Ret (Some (acc ++ pos)).
Proof.
  revert pre pos acc.
  induction ns as [|n ns IH]; intros pre [|p pos] acc Hlen;
    simpl in *; try discriminate.
  - now rewrite app_nil_r.
  - rewrite at_index_app_mid. simpl. rewrite String.eqb_refl. simpl.
    replace (pre ++ n :: ns) with ((pre ++ [n]) ++ ns)
      by (rewrite <- app_assoc; reflexivity).
    replace (S (length pre)) with (length (pre ++ [n]))
      by (rewrite length_app; simpl; lia).
    rewrite IH by lia. rewrite <- app_assoc. reflexivity.
Qed.

Lemma encode_points_Ret (pts : list JointTrajectoryPoint) :
  Forall (fun pt => length (positions pt) = length names) pts ->
  encode_points names pts
  = Ret (map (fun pt =>
                mkConstraints
                  (map (fun np => mkJointConstraint (fst np) (snd np))
                       (combine names (positions pt))) [] []) pts).
Proof.
  induction 1 as [|pt pts Hpt _ IH]; simpl.
  - reflexivity.
  - unfold encode_point. rewrite Hpt, Nat.eqb_refl. simpl.
    rewrite IH. reflexivity.
Qed.

Lemma extract_encoded (pts : list JointTrajectoryPoint) (seed : JointTrajectory) :
  Forall (fun pt => length (positions pt) = length names) pts ->
  extractSeedJointTrajectory_loop names
    (map (fun pt =>
            mkConstraints
              (map (fun np => mkJointConstraint (fst np) (snd np))
                   (combine names (positions pt))) [] []) pts)
    seed
  = Ret (true,
         mkJointTrajectory names
           (points seed ++ map (fun pt => point_of_positions (positions pt)) pts)).
Proof.
  intro H. revert seed.
  induction H as [|pt pts Hpt _ IH]; intro seed.
  - simpl. now rewrite app_nil_r.
  - cbn [map extractSeedJointTrajectory_loop joint_constraints].
    rewrite length_map, length_combine, Hpt, Nat.min_id, Nat.eqb_refl.
    cbn [negb].
    pose proof (seed_point_positions_encoded [] names (positions pt) [] Hpt)
      as Hpos.
    cbn [app length] in Hpos. rewrite Hpos.
    cbn [bind]. rewrite IH.
    cbn [points joint_names]. rewrite <- app_assoc. reflexivity.
Qed.

End RoundTrip.

(** C9. A joint trajectory whose points each carry one position per active
    joint of the group, under the group's joint names, survives the round
    trip: [encodeSeedTrajectory] returns a constraint list,
    [extractSeedJointTrajectory] accepts it, and
    [jointTrajectorytoParameters] of the decoded trajectory is the matrix
    whose columns are the original positions, coefficient for coefficient. *)
Theorem encode_decode_roundtrip (P : StompPlanner) (req : MotionPlanRequest)
  (seed : JointTrajectory) :
  joint_names seed = getActiveJointModelNames P ->
  Forall (fun pt => length (positions pt) = length (getActiveJointModelNames P))
         (points seed) ->
  exists (encoded : TrajectoryConstraints) (decoded : JointTrajectory),
    encodeSeedTrajectory seed = Ret encoded /\
    extractSeedJointTrajectory P
      (mkMotionPlanRequest (start_state req) (goal_constraints req) encoded
         (allowed_planning_time req) (max_velocity_scaling_factor req))
      JointTrajectory_empty
    = Ret (true, decoded) /\
    jointTrajectorytoParameters decoded
    = Ret (true, mkMatrix (length (getActiveJointModelNames P))
                   (map positions (points seed))).
Proof.
  intros Hnames Hpts.
  eexists. eexists. split; [|split].
  - unfold encodeSeedTrajectory. rewrite Hnames.
    rewrite encode_points_Ret by exact Hpts. reflexivity.
  - unfold extractSeedJointTrajectory. simpl.
    rewrite extract_encoded by exact Hpts. reflexivity.
  - unfold jointTrajectorytoParameters. simpl.
    rewrite parameters_columns_exact.
    + rewrite map_map. simpl. reflexivity.
    + apply Forall_map. simpl. exact Hpts.
Qed.

(** The round trip on a trajectory of three steps. *)
Lemma encode_decode_roundtrip_witness :
  exists encoded decoded,
    encodeSeedTrajectory
      (mkJointTrajectory Demo.names
         [point_of_positions [0; 0]; point_of_positions [0.5; 0.5];
          point_of_positions [1; 1]]%float) = Ret encoded /\
    extractSeedJointTrajectory (Demo.planner true true)
      (mkMotionPlanRequest (start_state Demo.request_no_seed)
         (goal_constraints Demo.request_no_seed) encoded
         (allowed_planning_time Demo.request_no_seed)
         (max_velocity_scaling_factor Demo.request_no_seed))
      JointTrajectory_empty
    = Ret (true, decoded) /\
    jointTrajectorytoParameters decoded
    = Ret (true, mkMatrix 2 [[0; 0]; [0.5; 0.5]; [1; 1]]%float).
Proof.
  apply (@encode_decode_roundtrip (Demo.planner true true) Demo.request_no_seed
           (mkJointTrajectory Demo.names
              [point_of_positions [0; 0]; point_of_positions [0.5; 0.5];
               point_of_positions [1; 1]]%float)).
  - reflexivity.
  - repeat constructor.
Defined.

(** ** The seed classifier *)

Lemma extractSeedTrajectory_no_constraints (P : StompPlanner)
  (request_ req : MotionPlanRequest) (seed : JointTrajectory) :
  constraints (trajectory_constraints req) = [] ->
  extractSeedTrajectory P request_ req seed = Ret (false, seed).
Proof. intro H. unfold extractSeedTrajectory. rewrite H. reflexivity. Qed.

Lemma isCartesianSeed_no_constraints (request_ : MotionPlanRequest) :
  constraints (trajectory_constraints request_) = [] ->
  isCartesianSeed request_ = Undefined.
Proof. intro H. unfold isCartesianSeed. rewrite H. reflexivity. Qed.

(** Trajectory constraints that are empty: [extractSeedTrajectory] answers
    "no seed" before it consults the classifier, and the classifier itself
    has no failure to report: it reads [constraints[0]]. *)
Lemma classifier_no_constraints :
  classifySeed_spec Demo.request_no_seed = AmbiguousSeedType /\
  extractSeedTrajectory (Demo.planner false true) Demo.request_no_seed
    Demo.request_no_seed JointTrajectory_empty
  = Ret (false, JointTrajectory_empty) /\
  isCartesianSeed Demo.request_no_seed = Undefined /\
  ~ classifies (isCartesianSeed Demo.request_no_seed)
               (classifySeed_spec Demo.request_no_seed).
Proof.
  split; [reflexivity|]. split; [reflexivity|]. split; [reflexivity|].
  intros [e He]. discriminate He.
Qed.

(** A first constraint set with neither joint nor position and orientation
    constraints: control reaches the end of the classifier's body. *)
Example classifier_shapeless :
  classifySeed_spec Demo.request_shapeless = AmbiguousSeedType /\
  isCartesianSeed Demo.request_shapeless = Undefined.
Proof. split; reflexivity. Qed.

(** On a request whose first trajectory constraint set has at least one
    joint constraint, or has none but at least one position and one
    orientation constraint, the classifier returns a boolean: [true]
    (Cartesian-seeded) exactly when that set has no joint constraints, and
    [false] (joint-seeded) when it has some. *)
Lemma classifier_on_shaped_requests (request_ : MotionPlanRequest)
  (c0 : Constraints) (rest : list Constraints) :
  constraints (trajectory_constraints request_) = c0 :: rest ->
  has_joint_shape c0 || has_cartesian_shape c0 = true ->
  isCartesianSeed request_ = Ret (negb (has_joint_shape c0)) /\
  (isCartesianSeed request_ = Ret true <->
   has_joint_shape c0 = false /\ has_cartesian_shape c0 = true) /\
  classifies (isCartesianSeed request_) (classifySeed_spec request_).
Proof.
  intros Hcs Hshape.
  unfold isCartesianSeed, classifySeed_spec, classifies. rewrite Hcs. simpl.
  unfold has_joint_shape, has_cartesian_shape in *.
  destruct (0 <? length (joint_constraints c0)); simpl in *.
  - repeat split; try reflexivity; try discriminate.
    intros [H _]. discriminate H.
  - rewrite Hshape. repeat split; reflexivity.
Qed.

(** The classifier on a Cartesian seed of three waypoints. *)
Example classifier_on_cartesian_seed :
  isCartesianSeed Demo.request_cartesian = Ret true.
Proof.
  exact (proj1 (@classifier_on_shaped_requests Demo.request_cartesian
                  Demo.cartesian_set [] eq_refl eq_refl)).
Qed.

(** The classifier, case by case of the specification's classification. *)
Lemma isCartesianSeed_by_classification (request_ : MotionPlanRequest) :
  isCartesianSeed request_
  = match classifySeed_spec request_ with
    | JointSeeded => Ret false
    | CartesianSeeded => Ret true
    | AmbiguousSeedType => Undefined
    end.
Proof.
  unfold isCartesianSeed, classifySeed_spec, has_joint_shape,
    has_cartesian_shape.
  destruct (constraints (trajectory_constraints request_)) as [|c0 rest];
    [reflexivity|].
  cbn [at_index nth_error bind].
  destruct (0 <? length (joint_constraints c0)); [reflexivity|].
  destruct ((0 <? length (position_constraints c0))
            && (0 <? length (orientation_constraints c0))); reflexivity.
Qed.

(** C2. The classifier answers the two shapes as the specification words
    them, and it has no failure for the rest: its result is undefined
    exactly on the requests the specification calls ambiguous, where the
    specification has it fail with [AmbiguousSeedType] rather than return
    an arbitrary value. On trajectory constraints that are empty it reads
    [constraints[0]] of an empty vector: [extractSeedTrajectory] guards the
    call with [empty()], [getStartAndGoal] does not. On a first constraint
    set of neither shape control reaches the end of its body without a
    [return]. *)
Theorem classifier_undefined_when_ambiguous :
  (forall request_ : MotionPlanRequest,
     (classifySeed_spec request_ = JointSeeded <->
      isCartesianSeed request_ = Ret false) /\
     (classifySeed_spec request_ = CartesianSeeded <->
      isCartesianSeed request_ = Ret true) /\
     (classifySeed_spec request_ = AmbiguousSeedType <->
      isCartesianSeed request_ = Undefined) /\
     (classifySeed_spec request_ = AmbiguousSeedType ->
      ~ classifies (isCartesianSeed request_) (classifySeed_spec request_)))
  /\
  (constraints (trajectory_constraints Demo.request_no_seed) = [] /\
   classifySeed_spec Demo.request_no_seed = AmbiguousSeedType /\
   isCartesianSeed Demo.request_no_seed = Undefined /\
   extractSeedTrajectory (Demo.planner false true) Demo.request_no_seed
     Demo.request_no_seed JointTrajectory_empty
   = Ret (false, JointTrajectory_empty) /\
   getStartAndGoal (Demo.planner false true) Demo.request_no_seed [] []
   = Undefined)
  /\
  (constraints (trajectory_constraints Demo.request_shapeless)
   = [Constraints_empty] /\
   classifySeed_spec Demo.request_shapeless = AmbiguousSeedType /\
   isCartesianSeed Demo.request_shapeless = Undefined /\
   extractSeedTrajectory (Demo.planner false true) Demo.request_shapeless
     Demo.request_shapeless JointTrajectory_empty
   = Undefined).
Proof.
  split; [|split; repeat split; reflexivity].
  intro request_. rewrite isCartesianSeed_by_classification.
  destruct (classifySeed_spec request_);
    repeat split; try discriminate; try reflexivity;
    intros _ [e He]; discriminate He.
Qed.

(** ** The IK chain over a Cartesian seed *)

Section IKChain.

Variable P : StompPlanner.

Section SingleRoot.

Hypothesis single_root : getJointRoots_size P = 1.

(** One call: the answer is written to [result] only on success. *)
Lemma ikFromCartesianConstraints_spec (pc : PositionConstraint)
  (oc : OrientationConstraint) (result hint : VectorXd) :
  ikFromCartesianConstraints P pc oc result hint
  = Ret (ik_solves P (end_effector_pose pc oc) hint,
         if ik_solves P (end_effector_pose pc oc) hint
         then ik_answer P (end_effector_pose pc oc) hint
         else result,
         ik_call P (end_effector_pose pc oc) hint).
Proof.
  unfold ikFromCartesianConstraints, ik_solves, ik_answer, ik_call.
  rewrite single_root. unfold cxx_assert. rewrite orb_true_r. simpl.
  destruct (getKDLChain (tracik_solver P)) as [n|]; [|reflexivity].
  destruct (CartToJnt (tracik_solver P) (nominal n hint)
              (end_effector_pose pc oc)) as [rc ans].
  simpl. destruct (0 <=? rc)%Z; reflexivity.
Qed.

(** The loop is the chain over the waypoints not yet visited. *)
Lemma extractSeedCartesianTrajectory_loop_spec (pcs : list PositionConstraint) :
  forall (pre suf : list OrientationConstraint) (st : CartesianSeedState),
    length pcs <= length suf ->
    let poses :=
      map (fun po => end_effector_pose (fst po) (snd po)) (combine pcs suf) in
    extractSeedCartesianTrajectory_loop P pcs (pre ++ suf) (length pre) st
    = Ret (mkCartesianSeedState
             (fold_left (chain_step P) poses (joint_pos st))
             (fail_count st + chain_failures P (joint_pos st) poses)
             (seed_points st
                ++ map point_of_positions
                     (chain_positions P (joint_pos st) poses))
             (ik_calls st ++ chain_calls P (joint_pos st) poses)).
Proof.
  induction pcs as [|pc pcs IH]; intros pre suf st Hlen.
  - simpl. rewrite Nat.add_0_r, !app_nil_r. destruct st; reflexivity.
  - destruct suf as [|oc suf]; [simpl in Hlen; lia|].
    cbn [extractSeedCartesianTrajectory_loop].
    rewrite at_index_app_mid. cbn [bind].
    rewrite ikFromCartesianConstraints_spec. cbn [bind].
    replace (pre ++ oc :: suf) with ((pre ++ [oc]) ++ suf)
      by (rewrite <- app_assoc; reflexivity).
    replace (S (length pre)) with (length (pre ++ [oc]))
      by (rewrite length_app; simpl; lia).
    simpl in Hlen.
    cbn [combine map fold_left chain_failures chain_positions chain_calls
         fst snd].
    change (if ik_solves P (end_effector_pose pc oc) (joint_pos st)
            then ik_answer P (end_effector_pose pc oc) (joint_pos st)
            else joint_pos st)
      with (chain_step P (joint_pos st) (end_effector_pose pc oc)).
    set (jp' := chain_step P (joint_pos st) (end_effector_pose pc oc)).
    destruct (ik_solves P (end_effector_pose pc oc) (joint_pos st));
      rewrite IH by lia; cbn [joint_pos fail_count seed_points ik_calls];
      rewrite <- !app_assoc; cbn [app];
      f_equal; f_equal; lia.
Qed.

(** The whole extraction on a request that meets its assertions. *)
Lemma extractSeedCartesianTrajectory_spec (req : MotionPlanRequest)
  (c0 : Constraints) (seed : JointTrajectory) :
  cartesian_seed_request P req c0 ->
  extractSeedCartesianTrajectory P req seed
  = Ret (true,
         mkJointTrajectory (getActiveJointModelNames P)
           (points seed
              ++ map point_of_positions
                   (chain_positions P VectorXd_empty (waypoints c0))),
         mkCartesianSeedReport
           (chain_failures P VectorXd_empty (waypoints c0))
           (chain_calls P VectorXd_empty (waypoints c0))).
Proof.
  intros (Hcs & Hlen & Hpos & _).
  unfold extractSeedCartesianTrajectory. rewrite Hcs.
  unfold cxx_assert. cbn [length Nat.eqb orb].
  rewrite Hlen, Nat.eqb_refl, !orb_true_r. cbn [bind].
  rewrite <- Hlen.
  apply Nat.ltb_lt in Hpos. rewrite Hpos, orb_true_r. cbn [bind at_index nth_error].
  pose proof (@extractSeedCartesianTrajectory_loop_spec
                (position_constraints c0) [] (orientation_constraints c0)
                (mkCartesianSeedState VectorXd_empty 0 (points seed) []))
    as Hloop.
  cbn [app length] in Hloop. rewrite Hloop by lia.
  reflexivity.
Qed.

End SingleRoot.

(** *** The chain, pose by pose *)

Lemma chain_positions_length (poses : list Frame) :
  forall jp, length (chain_positions P jp poses) = length poses.
Proof.
  induction poses as [|pose poses IH]; intro jp; simpl;
    [reflexivity | now rewrite IH].
Qed.

(** The configuration after waypoint [j+1] is one step from the one after
    waypoint [j]. *)
Lemma chain_positions_succ (poses : list Frame) :
  forall (jp : VectorXd) (j : nat) (s : VectorXd) (pose : Frame),
    nth_error (chain_positions P jp poses) j = Some s ->
    nth_error poses (S j) = Some pose ->
    nth_error (chain_positions P jp poses) (S j) = Some (chain_step P s pose).
Proof.
  induction poses as [|p0 poses IH]; intros jp j s pose Hj Hp.
  - destruct j; discriminate Hj.
  - destruct j as [|j].
    + simpl in Hj. injection Hj as <-.
      destruct poses as [|p1 poses]; [discriminate Hp|].
      simpl in Hp. injection Hp as <-. reflexivity.
    + simpl in Hj. simpl in Hp.
      change (nth_error (chain_positions P (chain_step P jp p0) poses) (S j)
              = Some (chain_step P s pose)).
      now apply IH.
Qed.

(** A waypoint that no hint solves is counted. *)
Lemma chain_failures_unsolvable (poses : list Frame) :
  forall (jp : VectorXd) (k : nat) (pose : Frame),
    nth_error poses k = Some pose ->
    (forall hint, ik_solves P pose hint = false) ->
    1 <= chain_failures P jp poses.
Proof.
  induction poses as [|p0 poses IH]; intros jp k pose Hk Hun.
  - destruct k; discriminate Hk.
  - destruct k as [|k]; simpl in Hk |- *.
    + injection Hk as ->. rewrite Hun. lia.
    + specialize (IH (chain_step P jp p0) k pose Hk Hun). lia.
Qed.

(** While every waypoint so far has failed, the configuration is the empty
    vector the loop started with. *)
Lemma chain_failed_prefix (poses : list Frame) :
  forall k : nat,
    k <= length poses ->
    Forall (fun pose => ik_solves P pose VectorXd_empty = false)
           (firstn k poses) ->
    (forall j, j < k ->
               nth_error (chain_positions P VectorXd_empty poses) j
               = Some VectorXd_empty) /\
    k <= chain_failures P VectorXd_empty poses.
Proof.
  induction poses as [|p0 poses IH]; intros k Hk Hall.
  - simpl in Hk. split; [intros j Hj; lia | lia].
  - destruct k as [|k]; [split; [intros j Hj; lia | lia]|].
    simpl in Hk, Hall. inversion Hall as [|? ? Hp0 Hrest]; subst.
    cbn [chain_positions chain_failures]. unfold chain_step.
    rewrite Hp0.
    destruct (IH k ltac:(lia) Hrest) as [Hpos Hcount].
    split.
    + intros [|j] Hj; [reflexivity|]. simpl. apply Hpos. lia.
    + lia.
Qed.

(** The first solve starts from a fresh [JntArray]; every later solve
    starts from the configuration the loop holds, unless that is empty. *)
Lemma chain_calls_first (pose : Frame) (poses : list Frame) (n : nat) :
  getKDLChain (tracik_solver P) = Some n ->
  exists calls,
    chain_calls P VectorXd_empty (pose :: poses)
    = mkIKCall (JntArray n) pose :: calls.
Proof.
  intro Hn. simpl. unfold ik_call. rewrite Hn. simpl.
  eexists. reflexivity.
Qed.

Lemma chain_calls_nth (poses : list Frame) (n : nat) :
  getKDLChain (tracik_solver P) = Some n ->
  forall (jp : VectorXd) (j : nat) (s : VectorXd) (pose : Frame),
    nth_error (chain_positions P jp poses) j = Some s ->
    nth_error poses (S j) = Some pose ->
    nth_error (chain_calls P jp poses) (S j)
    = Some (mkIKCall (nominal n s) pose).
Proof.
  intro Hn.
  induction poses as [|p0 poses IH]; intros jp j s pose Hj Hp.
  - destruct j; discriminate Hj.
  - cbn [chain_calls]. unfold ik_call at 1. rewrite Hn. cbn [app nth_error].
    destruct j as [|j].
    + simpl in Hj. injection Hj as <-.
      destruct poses as [|p1 poses]; [discriminate Hp|].
      simpl in Hp. injection Hp as <-.
      cbn [chain_calls]. unfold ik_call. rewrite Hn. reflexivity.
    + simpl in Hj, Hp. now apply IH.
Qed.

(** *** The chain by the hint of each solve *)

Lemma chain_hint_succ (jp : VectorXd) (p0 : Frame) (poses : list Frame)
  (i : nat) :
  i <= length poses ->
  chain_hint P jp (p0 :: poses) (S i)
  = chain_hint P (chain_step P jp p0) poses i.
Proof.
  intro Hi. destruct i as [|j]; [reflexivity|].
  cbn [chain_hint chain_positions nth].
  apply nth_indep. rewrite chain_positions_length. exact Hi.
Qed.

(** The configuration after waypoint [i] is one step from the hint of its
    solve. *)
Lemma chain_positions_nth (poses : list Frame) :
  forall (jp : VectorXd) (i : nat) (pose : Frame),
    nth_error poses i = Some pose ->
    nth_error (chain_positions P jp poses) i
    = Some (chain_step P (chain_hint P jp poses i) pose).
Proof.
  induction poses as [|p0 poses IH]; intros jp i pose Hi.
  - destruct i; discriminate Hi.
  - destruct i as [|i].
    + simpl in Hi. injection Hi as <-. reflexivity.
    + simpl in Hi.
      assert (Hlt : i < length poses)
        by (apply nth_error_Some; rewrite Hi; discriminate).
      rewrite chain_hint_succ by (apply Nat.lt_le_incl; exact Hlt).
      cbn [chain_positions nth_error]. now apply IH.
Qed.

(** The hint of the solve for waypoint [j + 1] is the configuration after
    waypoint [j]. *)
Lemma chain_hint_positions (poses : list Frame) (jp : VectorXd) (j : nat)
  (s : VectorXd) :
  nth_error (chain_positions P jp poses) j = Some s ->
  chain_hint P jp poses (S j) = s.
Proof. intro H. cbn [chain_hint]. now apply nth_error_nth. Qed.

Lemma chain_failures_none (poses : list Frame) :
  forall jp : VectorXd,
    (forall i pose, nth_error poses i = Some pose ->
                    ik_solves P pose (chain_hint P jp poses i) = true) ->
    chain_failures P jp poses = 0.
Proof.
  induction poses as [|p0 poses IH]; intros jp H; [reflexivity|].
  cbn [chain_failures].
  rewrite (H 0 p0 eq_refl : ik_solves P p0 jp = true).
  rewrite IH; [reflexivity|].
  intros i pose Hi.
  assert (Hlt : i < length poses)
    by (apply nth_error_Some; rewrite Hi; discriminate).
  rewrite <- chain_hint_succ by (apply Nat.lt_le_incl; exact Hlt).
  exact (H (S i) pose Hi).
Qed.

(** One waypoint that fails from its hint, every other solved from its own:
    one failure. *)
Lemma chain_failures_single (poses : list Frame) :
  forall (jp : VectorXd) (k : nat),
    k < length poses ->
    (forall i pose, nth_error poses i = Some pose ->
                    ik_solves P pose (chain_hint P jp poses i)
                    = negb (i =? k)) ->
    chain_failures P jp poses = 1.
Proof.
  induction poses as [|p0 poses IH]; intros jp k Hk H;
    [simpl in Hk; inversion Hk|].
  assert (Hshift : forall i pose,
            nth_error poses i = Some pose ->
            ik_solves P pose (chain_hint P (chain_step P jp p0) poses i)
            = negb (S i =? k)).
  { intros i pose Hi.
    assert (Hlt : i < length poses)
      by (apply nth_error_Some; rewrite Hi; discriminate).
    rewrite <- chain_hint_succ by (apply Nat.lt_le_incl; exact Hlt).
    exact (H (S i) pose Hi). }
  cbn [chain_failures].
  rewrite (H 0 p0 eq_refl : ik_solves P p0 jp = negb (0 =? k)).
  destruct k as [|k].
  - cbn [Nat.eqb negb]. rewrite chain_failures_none; [reflexivity|].
    intros i pose Hi. exact (Hshift i pose Hi).
  - cbn [Nat.eqb negb]. rewrite (IH _ k); [reflexivity | |].
    + simpl in Hk. now apply Nat.succ_lt_mono.
    + intros i pose Hi. exact (Hshift i pose Hi).
Qed.

End IKChain.

(** C5. On a Cartesian seed of [n] waypoints of which an interior waypoint
    [k] is not solved and every other one is solved, each from the hint the
    chain hands its solve, the extraction does not stop: it returns [true],
    appends exactly [n] points to the seed and reports one failure. Every
    point but point [k] holds the solver's answer for its waypoint, the hint
    of each solve after the first being the positions of the point before
    it, and point [k] is point [k - 1]: the solver's answer for waypoint
    [k - 1], the last successful solution. *)
Theorem cartesian_seed_interior_failure (P : StompPlanner)
  (req : MotionPlanRequest) (c0 : Constraints) (seed : JointTrajectory)
  (k : nat) :
  cartesian_seed_request P req c0 ->
  0 < k -> k < length (waypoints c0) - 1 ->
  (forall i pose,
     nth_error (waypoints c0) i = Some pose ->
     ik_solves P pose (chain_hint P VectorXd_empty (waypoints c0) i)
     = negb (i =? k)) ->
  exists seed' report new_points,
    extractSeedCartesianTrajectory P req seed = Ret (true, seed', report) /\
    points seed' = points seed ++ new_points /\
    length new_points = length (waypoints c0) /\
    1 <= reported_failures report /\
    reported_failures report = 1 /\
    (forall i pose,
       nth_error (waypoints c0) i = Some pose -> i <> k ->
       nth_error new_points i
       = Some (point_of_positions
                 (ik_answer P pose
                    (chain_hint P VectorXd_empty (waypoints c0) i)))) /\
    (forall j pt,
       nth_error new_points j = Some pt ->
       chain_hint P VectorXd_empty (waypoints c0) (S j) = positions pt) /\
    (exists pose pt,
       nth_error (waypoints c0) (k - 1) = Some pose /\
       pt = point_of_positions
              (ik_answer P pose
                 (chain_hint P VectorXd_empty (waypoints c0) (k - 1))) /\
       nth_error new_points (k - 1) = Some pt /\
       nth_error new_points k = Some pt).
Proof.
  intros Hreq Hk0 Hk Hsolv.
  pose proof Hreq as (_ & _ & _ & Hroot).
  destruct k as [|j]; [inversion Hk0|].
  rewrite Nat.sub_succ, Nat.sub_0_r.
  assert (Hother : forall i pose,
            nth_error (waypoints c0) i = Some pose -> i <> S j ->
            nth_error (chain_positions P VectorXd_empty (waypoints c0)) i
            = Some (ik_answer P pose
                      (chain_hint P VectorXd_empty (waypoints c0) i))).
  { intros i pose Hi Hne.
    rewrite (@chain_positions_nth P _ _ _ _ Hi). unfold chain_step.
    rewrite (Hsolv _ _ Hi).
    apply Nat.eqb_neq in Hne. rewrite Hne. reflexivity. }
  destruct (nth_error (waypoints c0) j) as [pose_j|] eqn:Hj;
    [|apply nth_error_None in Hj; lia].
  destruct (nth_error (waypoints c0) (S j)) as [pose_k|] eqn:Hpk;
    [|apply nth_error_None in Hpk; lia].
  assert (Hprev : nth_error (chain_positions P VectorXd_empty (waypoints c0)) j
                  = Some (ik_answer P pose_j
                            (chain_hint P VectorXd_empty (waypoints c0) j))).
  { apply Hother; [exact Hj | lia]. }
  assert (Hat : nth_error (chain_positions P VectorXd_empty (waypoints c0))
                  (S j)
                = Some (ik_answer P pose_j
                          (chain_hint P VectorXd_empty (waypoints c0) j))).
  { rewrite (@chain_positions_nth P _ _ _ _ Hpk). unfold chain_step.
    rewrite (Hsolv _ _ Hpk), Nat.eqb_refl. cbn [negb].
    f_equal. exact (@chain_hint_positions P _ _ _ _ Hprev). }
  eexists. eexists. eexists.
  split; [exact (@extractSeedCartesianTrajectory_spec P Hroot req c0 seed Hreq)|].
  cbn [points reported_failures].
  split; [reflexivity|].
  split; [now rewrite length_map, chain_positions_length|].
  assert (Hone : chain_failures P VectorXd_empty (waypoints c0) = 1).
  { apply (@chain_failures_single P (waypoints c0) VectorXd_empty (S j));
      [lia | exact Hsolv]. }
  split; [rewrite Hone; constructor|].
  split; [exact Hone|].
  split.
  { intros i pose Hi Hne. rewrite nth_error_map.
    exact (f_equal (option_map point_of_positions) (Hother i pose Hi Hne)). }
  split.
  { intros i pt. rewrite nth_error_map.
    match goal with
    | |- option_map _ ?x = _ -> _ => destruct x as [s|] eqn:Hs
    end; simpl; intro Hpt; [|discriminate Hpt].
    injection Hpt as <-.
    exact (@chain_hint_positions P _ _ _ _ Hs). }
  exists pose_j. eexists.
  split; [reflexivity|]. split; [reflexivity|].
  split; rewrite nth_error_map.
  - exact (f_equal (option_map point_of_positions) Hprev).
  - exact (f_equal (option_map point_of_positions) Hat).
Qed.

(** C10. When the solver fails on the first [k >= 1] waypoints of a
    Cartesian seed, nothing has been written to the configuration the loop
    holds: the extraction still returns [true], each of those [k] points has
    an empty [positions] vector, each is counted as a failure, and, the group
    having at least one active joint, the points of the returned seed do not
    all have one position per joint. *)
Theorem cartesian_seed_failed_prefix (P : StompPlanner)
  (req : MotionPlanRequest) (c0 : Constraints) (seed : JointTrajectory)
  (k : nat) :
  cartesian_seed_request P req c0 ->
  0 < k -> k <= length (waypoints c0) ->
  Forall (fun pose => ik_solves P pose VectorXd_empty = false)
         (firstn k (waypoints c0)) ->
  exists seed' report,
    extractSeedCartesianTrajectory P req seed = Ret (true, seed', report) /\
    (forall j, j < k ->
       nth_error (points seed') (length (points seed) + j)
       = Some (point_of_positions [])) /\
    k <= reported_failures report /\
    (0 < length (getActiveJointModelNames P) ->
     ~ Forall (fun pt => length (positions pt)
                         = length (getActiveJointModelNames P))
              (points seed')).
Proof.
  intros Hreq Hk0 Hk Hall.
  pose proof Hreq as (_ & _ & _ & Hroot).
  destruct (@chain_failed_prefix P (waypoints c0) k Hk Hall) as [Hpos Hcount].
  eexists. eexists.
  split; [exact (@extractSeedCartesianTrajectory_spec P Hroot req c0 seed Hreq)|].
  cbn [points reported_failures].
  assert (Hnth : forall j, j < k ->
            nth_error
              (points seed
                 ++ map point_of_positions
                      (chain_positions P VectorXd_empty (waypoints c0)))
              (length (points seed) + j)
            = Some (point_of_positions [])).
  { intros j Hj. rewrite nth_error_app2 by lia.
    replace (length (points seed) + j - length (points seed)) with j by lia.
    rewrite nth_error_map.
    exact (f_equal (option_map point_of_positions) (Hpos j Hj)). }
  split; [exact Hnth|]. split; [exact Hcount|].
  intros Hdof Hforall.
  rewrite Forall_forall in Hforall.
  specialize (Hforall _ (nth_error_In _ _ (Hnth 0 Hk0))).
  simpl in Hforall. lia.
Qed.

(** The hints of the chain: the first solve starts from a fresh [JntArray]
    of the chain's size, and the solve for waypoint [j + 1] starts from the
    positions of point [j], or from a fresh [JntArray] when those are
    empty. *)
Lemma cartesian_seed_hints (P : StompPlanner) (req : MotionPlanRequest)
  (c0 : Constraints) (n : nat) :
  cartesian_seed_request P req c0 ->
  getKDLChain (tracik_solver P) = Some n ->
  exists seed' report,
    extractSeedCartesianTrajectory P req JointTrajectory_empty
    = Ret (true, seed', report) /\
    (exists call, nth_error (solver_calls report) 0 = Some call /\
                  q_init call = JntArray n) /\
    (forall j pt pose,
        nth_error (points seed') j = Some pt ->
        nth_error (waypoints c0) (S j) = Some pose ->
        nth_error (solver_calls report) (S j)
        = Some (mkIKCall (nominal n (positions pt)) pose)).
Proof.
  intros Hreq Hn.
  pose proof Hreq as (_ & Hlen & Hpos & Hroot).
  eexists. eexists.
  split; [exact (@extractSeedCartesianTrajectory_spec P Hroot req c0 _ Hreq)|].
  cbn [points solver_calls JointTrajectory_empty app].
  split.
  - destruct (waypoints c0) as [|pose poses] eqn:Hw.
    + unfold waypoints in Hw. apply (f_equal (@length _)) in Hw.
      rewrite length_map, length_combine in Hw. simpl in Hw. lia.
    + destruct (@chain_calls_first P pose poses n Hn) as [calls Hcalls].
      rewrite Hcalls. eexists. split; reflexivity.
  - intros j pt pose Hpt Hpose.
    rewrite nth_error_map in Hpt. revert Hpt.
    match goal with
    | |- option_map _ ?x = _ -> _ => destruct x as [s|] eqn:Hs
    end; simpl; intro Hpt; [|discriminate Hpt].
    injection Hpt as <-.
    eapply chain_calls_nth; eassumption.
Qed.

(** C6, on the code. The solver of the demo planner has joints ranging over
    [1, 3], so the configuration midway between the limits is [2; 2]; the
    first solve of a Cartesian seed starts from [JntArray 2], all zeros. *)
Theorem first_solve_hint_not_midrange :
  exists seed' report call calls lower upper,
    extractSeedCartesianTrajectory (Demo.planner false true)
      Demo.request_cartesian JointTrajectory_empty
    = Ret (true, seed', report) /\
    solver_calls report = call :: calls /\
    getKDLLimits (tracik_solver (Demo.planner false true))
    = Some (lower, upper) /\
    midrange lower upper = [2; 2]%float /\
    q_init call = [0; 0]%float /\
    q_init call <> midrange lower upper.
Proof.
  do 6 eexists.
  split; [vm_compute; reflexivity|].
  split; [reflexivity|].
  split; [reflexivity|].
  split; [vm_compute; reflexivity|].
  split; [reflexivity|].
  intro H.
  apply (f_equal (fun v => match v with
                           | x :: _ => (x <? 1)%float
                           | [] => false
                           end)) in H.
  vm_compute in H. discriminate H.
Qed.

Lemma demo_cartesian_seed_request (ndebug valid : bool) (c0 : Constraints) :
  length (position_constraints c0) = length (orientation_constraints c0) ->
  0 < length (position_constraints c0) ->
  cartesian_seed_request (Demo.planner ndebug valid)
    (Demo.request_with_seed c0) c0.
Proof. intros Hlen Hpos. repeat split; assumption. Qed.

(** Three waypoints, the middle one out of the solver's reach. *)
Lemma cartesian_seed_interior_failure_witness :
  let P := Demo.planner false true in
  let poses := waypoints Demo.cartesian_set_middle in
  exists seed' report new_points,
    extractSeedCartesianTrajectory P Demo.request_cartesian_middle
      JointTrajectory_empty
    = Ret (true, seed', report) /\
    points seed' = points JointTrajectory_empty ++ new_points /\
    length new_points = length poses /\
    1 <= reported_failures report /\
    reported_failures report = 1 /\
    (forall i pose,
       nth_error poses i = Some pose -> i <> 1 ->
       nth_error new_points i
       = Some (point_of_positions
                 (ik_answer P pose (chain_hint P VectorXd_empty poses i)))) /\
    (forall j pt,
       nth_error new_points j = Some pt ->
       chain_hint P VectorXd_empty poses (S j) = positions pt) /\
    (exists pose pt,
       nth_error poses (1 - 1) = Some pose /\
       pt = point_of_positions
              (ik_answer P pose (chain_hint P VectorXd_empty poses (1 - 1))) /\
       nth_error new_points (1 - 1) = Some pt /\
       nth_error new_points 1 = Some pt).
Proof.
  apply (@cartesian_seed_interior_failure (Demo.planner false true)
           Demo.request_cartesian_middle Demo.cartesian_set_middle
           JointTrajectory_empty 1).
  - apply demo_cartesian_seed_request; simpl; lia.
  - lia.
  - simpl. lia.
  - intros i pose Hi.
    destruct i as [|[|[|i]]]; simpl in Hi;
      [injection Hi as <-; vm_compute; reflexivity ..|].
    destruct i; discriminate Hi.
Defined.

(** On that seed the second point repeats the first, the answer for the
    first waypoint. *)
Example cartesian_seed_interior_failure_demo :
  exists seed' report,
    extractSeedCartesianTrajectory (Demo.planner false true)
      Demo.request_cartesian_middle JointTrajectory_empty
    = Ret (true, seed', report) /\
    points seed'
    = [point_of_positions [1; 1]; point_of_positions [1; 1];
       point_of_positions [3; 1]]%float /\
    reported_failures report = 1.
Proof. eexists. eexists. split; [vm_compute; reflexivity|]. split; reflexivity. Qed.

(** Three waypoints, the first one out of the solver's reach. *)
Lemma cartesian_seed_failed_prefix_witness :
  exists seed' report,
    extractSeedCartesianTrajectory (Demo.planner false true)
      Demo.request_cartesian_first JointTrajectory_empty
    = Ret (true, seed', report) /\
    (forall j, j < 1 ->
       nth_error (points seed') (length (points JointTrajectory_empty) + j)
       = Some (point_of_positions [])) /\
    1 <= reported_failures report /\
    (0 < length (getActiveJointModelNames (Demo.planner false true)) ->
     ~ Forall (fun pt => length (positions pt)
                         = length (getActiveJointModelNames
                                     (Demo.planner false true)))
              (points seed')).
Proof.
  apply (@cartesian_seed_failed_prefix (Demo.planner false true)
           Demo.request_cartesian_first Demo.cartesian_set_first
           JointTrajectory_empty 1).
  - apply demo_cartesian_seed_request; simpl; lia.
  - lia.
  - simpl. lia.
  - simpl. constructor; [vm_compute; reflexivity | constructor].
Defined.

(** ** Binary64 arithmetic in the tolerance test *)

Lemma SFcompare_antisym (x y : spec_float) :
  SFcompare y x = option_map CompOpp (SFcompare x y).
Proof.
  destruct x as [sx|sx| |sx mx ex], y as [sy|sy| |sy my ey]; simpl;
    try reflexivity;
    try (destruct sx; reflexivity); try (destruct sy; reflexivity);
    try (destruct sx, sy; reflexivity).
  f_equal.
  rewrite (Z.compare_antisym ex ey).
  pose proof (Pos.compare_cont_antisym mx my Eq) as Hm. simpl in Hm.
  rewrite <- Hm.
  destruct sx, sy; simpl; try reflexivity;
    destruct (ex ?= ey)%Z; simpl; try reflexivity.

Qed.

Lemma ltb_not_leb (x y : float) : (x <? y)%float = true -> (y <=? x)%float = false.
Proof.
  rewrite ltb_spec, leb_spec. unfold SFltb, SFleb.
  rewrite (SFcompare_antisym (Prim2SF x) (Prim2SF y)).
  destruct (SFcompare (Prim2SF x) (Prim2SF y)) as [[| |]|]; simpl;
    intro H; try discriminate H; reflexivity.
Qed.

Lemma abs_sub_self (x : float) :
  is_finite x = true -> Prim2SF (abs (x - x))%float = S754_zero false.
Proof.
  unfold is_finite. rewrite abs_spec, sub_spec. unfold SF64sub, SFsub.
  destruct (Prim2SF x) as [s|s| |s m e]; intro H; try discriminate H.
  - destruct s; reflexivity.
  - rewrite Z.sub_diag. reflexivity.
Qed.

Lemma add_zero_zero (x y : float) :
  Prim2SF x = S754_zero false -> Prim2SF y = S754_zero false ->
  Prim2SF (x + y)%float = S754_zero false.
Proof. intros Hx Hy. rewrite add_spec, Hx, Hy. reflexivity. Qed.

Lemma zero_leb_half (d : float) :
  Prim2SF d = S754_zero false -> (d <=? 0.5)%float = true.
Proof. intro H. rewrite leb_spec, H. reflexivity. Qed.

Lemma leb_half_below_infinity (d : float) :
  (d <=? 0.5)%float = true -> below_infinity d = true.
Proof.
  rewrite leb_spec. unfold below_infinity.
  destruct (Prim2SF d) as [s|[|]| |s m e]; try reflexivity;
    vm_compute; intro H; discriminate H.
Qed.

(** Adding a magnitude keeps the sum away from NaN and from the positive
    infinity only if the magnitude is a number. *)
Lemma add_abs_below_infinity (acc u : float) :
  below_infinity (acc + abs u)%float = true ->
  below_infinity acc = true /\ is_finite (abs u) = true.
Proof.
  unfold below_infinity, is_finite.
  rewrite add_spec, abs_spec. unfold SF64add, SFadd.
  destruct (Prim2SF acc) as [sa|[|]| |sa ma ea],
           (Prim2SF u) as [su|su| |su mu eu];
    simpl; intro H; try discriminate H; split; reflexivity.
Qed.

Lemma is_finite_abs_sub (a b : float) :
  is_finite (abs (a - b))%float = true -> is_finite b = true.
Proof.
  unfold is_finite. rewrite abs_spec, sub_spec. unfold SF64sub, SFsub.
  destruct (Prim2SF a) as [sa|[|]| |sa ma ea],
           (Prim2SF b) as [sb|[|]| |sb mb eb];
    simpl; intro H; try discriminate H; reflexivity.
Qed.

Lemma sum_of_zeros (v : VectorXd) :
  Forall (fun x => Prim2SF x = S754_zero false) v ->
  forall acc, Prim2SF acc = S754_zero false ->
  Prim2SF (fold_left (fun a x => a + x)%float v acc) = S754_zero false.
Proof.
  induction 1 as [|x v Hx _ IH]; intros acc Hacc; simpl.
  - exact Hacc.
  - apply IH. now apply add_zero_zero.
Qed.

Lemma sum_below_infinity (l : list (double * double)) :
  forall acc,
    below_infinity
      (fold_left (fun a x => a + x)%float
         (map (fun ab => abs (fst ab - snd ab))%float l) acc) = true ->
    below_infinity acc = true /\
    Forall (fun ab => is_finite (snd ab) = true) l.
Proof.
  induction l as [|[a b] l IH]; intros acc H; simpl in *.
  - split; [exact H | constructor].
  - destruct (IH _ H) as [Hacc Hl].
    destruct (add_abs_below_infinity _ _ Hacc) as [Hacc' Hfin].
    split; [exact Hacc'|].
    constructor; [|exact Hl]. simpl. exact (is_finite_abs_sub _ _ Hfin).
Qed.

Lemma Forall_snd_combine (A B : Type) (Q : B -> Prop) (a : list A) :
  forall b : list B,
    length a = length b ->
    Forall (fun ab => Q (snd ab)) (combine a b) -> Forall Q b.
Proof.
  induction a as [|x a IH]; intros [|y b] Hlen H; simpl in *;
    try discriminate; constructor.
  - inversion H; subst. assumption.
  - inversion H; subst. apply IH; [lia | assumption].
Qed.

Lemma cwiseAbsDiff_self (b : VectorXd) :
  Forall (fun x => is_finite x = true) b ->
  Forall (fun d => Prim2SF d = S754_zero false) (cwiseAbsDiff b b).
Proof.
  unfold cwiseAbsDiff. induction 1 as [|x b Hx _ IH]; simpl; constructor.
  - now apply abs_sub_self.
  - exact IH.
Qed.

(** A vector within tolerance of anything is within tolerance of itself:
    its coefficients are numbers, so its distance to itself is zero. *)
Lemma l1_distance_self (a b : VectorXd) :
  length a = length b ->
  (l1_distance a b <=? MAX_START_DISTANCE_THRESH)%float = true ->
  (l1_distance b b <=? MAX_START_DISTANCE_THRESH)%float = true.
Proof.
  intros Hlen H. apply leb_half_below_infinity in H.
  unfold l1_distance, sum, cwiseAbsDiff in H.
  apply sum_below_infinity in H. destruct H as [_ H].
  apply (Forall_snd_combine (fun x => is_finite x = true) _ _ Hlen) in H.
  apply zero_leb_half. unfold l1_distance, sum.
  apply sum_of_zeros; [now apply cwiseAbsDiff_self | reflexivity].
Qed.

(** ** Seed repair *)

Lemma parameters_column_length (pos : list double) :
  forall dof joint c,
    parameters_column dof joint pos = Ret c -> length c = dof.
Proof.
  induction dof as [|dof IH]; intros joint c H; simpl in H.
  - injection H as <-. reflexivity.
  - apply bind_Ret in H. destruct H as (x & _ & H).
    apply bind_Ret in H. destruct H as (r & Hr & H).
    injection H as <-. simpl. f_equal. exact (IH _ _ Hr).
Qed.

Lemma parameters_columns_shape (dof : nat) (pts : list JointTrajectoryPoint) :
  forall cs,
    parameters_columns dof pts = Ret cs ->
    length cs = length pts /\ Forall (fun c => length c = dof) cs.
Proof.
  induction pts as [|pt pts IH]; intros cs H; simpl in H.
  - injection H as <-. split; [reflexivity | constructor].
  - apply bind_Ret in H. destruct H as (c & Hc & H).
    apply bind_Ret in H. destruct H as (cs' & Hcs' & H).
    injection H as <-. destruct (IH _ Hcs') as [Hlen Hall].
    split; [simpl; now rewrite Hlen|].
    constructor; [exact (parameters_column_length _ _ _ Hc) | exact Hall].
Qed.

(** The matrix has one row per joint name and one column per point. *)
Lemma jointTrajectorytoParameters_shape (traj : JointTrajectory)
  (b : bool) (m : MatrixXd) :
  jointTrajectorytoParameters traj = Ret (b, m) ->
  b = true /\
  rows m = length (joint_names traj) /\
  cols m = length (points traj) /\
  Forall (fun c => length c = rows m) (colvecs m).
Proof.
  unfold jointTrajectorytoParameters. intro H.
  apply bind_Ret in H. destruct H as (cs & Hcs & H).
  injection H as <- <-. destruct (parameters_columns_shape _ _ Hcs) as [Hl Ha].
  repeat split; assumption.
Qed.

Lemma extractSeedJointTrajectory_loop_names (names : list string)
  (cs : list Constraints) :
  forall seed traj,
    extractSeedJointTrajectory_loop names cs seed = Ret (true, traj) ->
    joint_names traj = names.
Proof.
  induction cs as [|c cs IH]; intros seed traj H; simpl in H.
  - injection H as <-. reflexivity.
  - destruct (negb (length (joint_constraints c) =? length names));
      [discriminate H|].
    apply bind_Ret in H. destruct H as ([pos|] & _ & H);
      [exact (IH _ _ H) | discriminate H].
Qed.

(** A seed that was extracted carries the group's joint names. *)
Lemma extractSeedTrajectory_names (P : StompPlanner)
  (request_ req : MotionPlanRequest) (seed traj : JointTrajectory) :
  extractSeedTrajectory P request_ req seed = Ret (true, traj) ->
  joint_names traj = getActiveJointModelNames P.
Proof.
  unfold extractSeedTrajectory. intro H.
  destruct (constraints (trajectory_constraints req)) as [|c cs] eqn:Hcs;
    [discriminate H|].
  apply bind_Ret in H. destruct H as ([|] & _ & H).
  - apply bind_Ret in H. destruct H as ([[ok seed'] report] & Hx & H).
    injection H as -> ->.
    unfold extractSeedCartesianTrajectory in Hx.
    repeat (apply bind_Ret in Hx; destruct Hx as (? & _ & Hx)).
    injection Hx as <- _. reflexivity.
  - unfold extractSeedJointTrajectory in H.
    exact (extractSeedJointTrajectory_loop_names _ _ _ H).
Qed.

(** When the seed extracted from the request has fewer than three points
    and converts to a matrix, which then has at most two columns,
    [getSeedParameters] returns [false], and [solve] leaves the seeded branch
    aside: it is its unseeded branch. *)
Lemma short_seed_rejected (P : StompPlanner) (request_ : MotionPlanRequest)
  (traj : JointTrajectory) (m parameters : MatrixXd)
  (res : MotionPlanDetailedResponse P) :
  extractSeedTrajectory P request_ request_ JointTrajectory_empty
  = Ret (true, traj) ->
  jointTrajectorytoParameters traj = Ret (true, m) ->
  length (points traj) < 3 ->
  cols m <= 2 /\
  getSeedParameters P request_ parameters = Ret (false, m) /\
  solve request_ res
  = solve_unseeded request_ (solve_init_response res) (stomp_config_ P).
Proof.
  intros Hex Hconv Hlen.
  destruct (jointTrajectorytoParameters_shape _ Hconv) as (_ & _ & Hcols & _).
  assert (Hle : (cols m <=? 2) = true) by (apply Nat.leb_le; lia).
  assert (Hseed : forall p0, getSeedParameters P request_ p0 = Ret (false, m)).
  { intro p0. unfold getSeedParameters. rewrite Hex. cbn [bind negb].
    rewrite Hconv. cbn [bind negb]. rewrite Hle. reflexivity. }
  split; [lia|]. split; [apply Hseed|].
  unfold solve. rewrite Hseed. reflexivity.
Qed.

(** A joint seed of two steps. *)
Lemma short_seed_rejected_witness :
  getSeedParameters (Demo.planner false true) Demo.request_short_seed
    MatrixXd_empty
  = Ret (false, mkMatrix 2 [[0; 0]; [1; 1]]%float).
Proof.
  refine (proj1 (proj2 (@short_seed_rejected (Demo.planner false true)
            Demo.request_short_seed
            (mkJointTrajectory Demo.names
               [point_of_positions [0; 0]; point_of_positions [1; 1]]%float)
            (mkMatrix 2 [[0; 0]; [1; 1]]%float) MatrixXd_empty
            (Demo.response0 false true) _ _ _))).
  - reflexivity.
  - reflexivity.
  - simpl. lia.
Defined.

(** C4. A Cartesian seed of two waypoints whose first waypoint the solver
    does not reach is extracted as a trajectory of two points, fewer than
    three time steps, the first of them without a position.
    [getSeedParameters] does not reject it as too short: the conversion to a
    matrix reads [positions[0]] of the empty first point (line 480) before
    the length test of line 319 is reached, so that neither
    [getSeedParameters] nor [solve] has a defined result, in a build with
    assertions as in one without. *)
Theorem short_cartesian_seed_not_rejected :
  forall ndebug : bool,
    let P := Demo.planner ndebug true in
    exists traj,
      extractSeedTrajectory P Demo.request_cartesian_short
        Demo.request_cartesian_short JointTrajectory_empty
      = Ret (true, traj) /\
      points traj
      = [point_of_positions []; point_of_positions [2; 1]%float] /\
      length (points traj) < 3 /\
      jointTrajectorytoParameters traj = Undefined /\
      getSeedParameters P Demo.request_cartesian_short MatrixXd_empty
      = Undefined /\
      (forall m,
         getSeedParameters P Demo.request_cartesian_short MatrixXd_empty
         <> Ret (false, m)) /\
      solve Demo.request_cartesian_short (Demo.response0 ndebug true)
      = Undefined.
Proof.
  intros [|]; cbv zeta; eexists;
    (split; [vm_compute; reflexivity|]);
    (split; [reflexivity|]);
    (split; [simpl; lia|]);
    (split; [reflexivity|]);
    (split; [vm_compute; reflexivity|]);
    (split; [intros m H; vm_compute in H; discriminate H|]);
    vm_compute; reflexivity.
Qed.

Section StartSnap.

Variable ndebug : bool.
Variables (m : MatrixXd) (first_col : VectorXd) (rest : list VectorXd).
Variable start : VectorXd.

Hypothesis m_columns : colvecs m = first_col :: rest.
Hypothesis first_col_rows : length first_col = rows m.
Hypothesis start_rows : length start = rows m.

Lemma seed_start_block_far :
  (l1_distance first_col start <=? MAX_START_DISTANCE_THRESH)%float = false ->
  seed_start_block ndebug m start = Ret (false, m).
Proof.
  intro Hfar.
  unfold seed_start_block, leftCols1, within_tolerance, eigen_assert, cols.
  rewrite m_columns. cbn [length Nat.leb bind at_index nth_error].
  rewrite first_col_rows, start_rows, Nat.eqb_refl. cbn [bind].
  rewrite Hfar. reflexivity.
Qed.

Lemma seed_start_block_near :
  (l1_distance first_col start <=? MAX_START_DISTANCE_THRESH)%float = true ->
  seed_start_block ndebug m start
= Ret (true, mkMatrix (rows m) (start :: rest)).
Proof.
  intro Hnear.
  unfold seed_start_block, leftCols1, within_tolerance, assign_leftCols1,
    eigen_assert, cols.
  rewrite m_columns. cbn [length Nat.leb bind at_index nth_error].
  rewrite first_col_rows, start_rows, Nat.eqb_refl. cbn [bind].
  rewrite Hnear. cbn [andb bind set_nth]. reflexivity.
Qed.

Lemma seed_start_block_snapped :
  (l1_distance first_col start <=? MAX_START_DISTANCE_THRESH)%float = true ->
  seed_start_block ndebug (mkMatrix (rows m) (start :: rest)) start
= Ret (true, mkMatrix (rows m) (start :: rest)).
Proof.
  intro Hnear.
  assert (Hself : (l1_distance start start <=? MAX_START_DISTANCE_THRESH)%float
                  = true).
  { apply (l1_distance_self first_col start); [congruence | exact Hnear]. }
  unfold seed_start_block, leftCols1, within_tolerance, assign_leftCols1,
    eigen_assert, cols.
  cbn [colvecs rows length Nat.leb bind at_index nth_error].
  rewrite Nat.eqb_refl. cbn [bind]. rewrite Hself.
  rewrite start_rows, Nat.eqb_refl. reflexivity.
Qed.

(** Forcing the goal into the last column leaves the first column alone
    when there are at least two columns. *)
Lemma seed_goal_block_first_col (found : bool) (goal : VectorXd)
  (out : MatrixXd) :
  2 <= cols m ->
  seed_goal_block ndebug (mkMatrix (rows m) (start :: rest)) found goal
= Ret (true, out) ->
  exists rest', colvecs out = start :: rest'.
Proof.
  intros Hcols H. unfold seed_goal_block in H.
  destruct found; [|discriminate H].
  apply bind_Ret in H. destruct H as (last_col & _ & H).
  apply bind_Ret in H. destruct H as ([|] & _ & H); [|discriminate H].
  apply bind_Ret in H. destruct H as (out' & Hout & H).
  injection H as <-.
  unfold assign_rightCols1 in Hout.
  apply bind_Ret in Hout. destruct Hout as (_ & _ & Hout).
  injection Hout as <-.
  unfold cols in *. rewrite m_columns in Hcols.
  cbn [colvecs rows length] in *.
  destruct rest as [|c rest0]; [simpl in Hcols; lia|].
  cbn [length Nat.sub set_nth]. eexists. reflexivity.
Qed.

End StartSnap.

(** C3. Let the seed extracted from the request convert to a matrix with at
    least three columns, and let the request's start state convert to a
    robot state; [start] is that state read joint by joint. If the L1
    distance between the first column and [start] is at most 0.5,
    [getSeedParameters] replaces the first column by [start] and goes on, to
    the goal and to the smoothing step, with that matrix: the start check
    returns the matrix with its first column replaced by [start], the same
    check on that matrix returns it unchanged, [getSeedParameters] is what
    the rest of its body makes of the snapped matrix, and whenever it
    returns [true], the matrix it handed to the smoothing step has [start]
    as its first column. If the distance exceeds 0.5, the start check fails
    and [getSeedParameters] returns [false]. *)
Theorem seed_start_snap (P : StompPlanner) (request_ : MotionPlanRequest)
  (traj : JointTrajectory) (m parameters : MatrixXd) (st : RobotState P) :
  extractSeedTrajectory P request_ request_ JointTrajectory_empty
  = Ret (true, traj) ->
  jointTrajectorytoParameters traj = Ret (true, m) ->
  3 <= cols m ->
  robotStateMsgToRobotState P (start_state request_) (RobotState_new P)
  = (true, st) ->
  let start := map (getVariablePosition P st) (getActiveJointModelNames P) in
  exists first_col rest,
    colvecs m = first_col :: rest /\
    ((l1_distance first_col start <=? 0.5)%float = true ->
     let snapped := mkMatrix (rows m) (start :: rest) in
     seed_start_block (NDEBUG P) m start = Ret (true, snapped) /\
     seed_start_block (NDEBUG P) snapped start = Ret (true, snapped) /\
     getSeedParameters P request_ parameters
     = (goal <- rightCols1 (NDEBUG P) snapped ;;
        '(found_goal, goal) <-
           seed_goal_loop P (goal_constraints request_) (enforceBounds P st)
             goal ;;
        '(goal_ok, parameters) <-
           seed_goal_block (NDEBUG P) snapped found_goal goal ;;
        if negb goal_ok then Ret (false, parameters)
        else
          let '(smoothed, parameters) :=
            applyPolynomialSmoothing P parameters in
          if negb smoothed then Ret (false, parameters)
          else Ret (true, parameters)) /\
     (forall out,
        getSeedParameters P request_ parameters = Ret (true, out) ->
        exists pre rest',
          colvecs pre = start :: rest' /\
          applyPolynomialSmoothing P pre = (true, out))) /\
    ((0.5 <? l1_distance first_col start)%float = true ->
     seed_start_block (NDEBUG P) m start = Ret (false, m) /\
     getSeedParameters P request_ parameters = Ret (false, m)).
Proof.
  intros Hex Hconv Hcols Hst start.
  destruct (jointTrajectorytoParameters_shape _ Hconv)
    as (_ & Hrows & _ & Hall).
  rewrite (extractSeedTrajectory_names _ _ _ _ Hex) in Hrows.
  destruct (colvecs m) as [|first_col rest] eqn:Hm;
    [unfold cols in Hcols; rewrite Hm in Hcols; simpl in Hcols; lia|].
  assert (Hfirst : length first_col = rows m) by (inversion Hall; assumption).
  assert (Hstart : length start = rows m)
    by (unfold start; rewrite length_map; congruence).
  assert (Hle : (cols m <=? 2) = false) by (apply Nat.leb_gt; lia).
  exists first_col, rest. split; [reflexivity|]. split.
  - intro Hnear. cbv zeta.
    pose proof (@seed_start_block_near (NDEBUG P) m first_col rest start
                  Hm Hfirst Hstart Hnear) as Hblock.
    split; [exact Hblock|].
    split; [exact (@seed_start_block_snapped (NDEBUG P) m first_col rest start
                     Hfirst Hstart Hnear)|].
    assert (Hbody :
      getSeedParameters P request_ parameters
      = (goal <- rightCols1 (NDEBUG P) (mkMatrix (rows m) (start :: rest)) ;;
         '(found_goal, goal) <-
            seed_goal_loop P (goal_constraints request_) (enforceBounds P st)
              goal ;;
         '(goal_ok, parameters) <-
            seed_goal_block (NDEBUG P) (mkMatrix (rows m) (start :: rest))
              found_goal goal ;;
         if negb goal_ok then Ret (false, parameters)
         else
           let '(smoothed, parameters) :=
             applyPolynomialSmoothing P parameters in
           if negb smoothed then Ret (false, parameters)
           else Ret (true, parameters))).
    { unfold getSeedParameters. rewrite Hex. cbn [bind negb].
      rewrite Hconv. cbn [bind negb]. rewrite Hle, Hst. cbn [negb].
      fold start. rewrite Hblock. reflexivity. }
    split; [exact Hbody|].
    intros out Hout. rewrite Hbody in Hout.
    apply bind_Ret in Hout. destruct Hout as (goal & _ & Hout).
    apply bind_Ret in Hout. destruct Hout as ([found goal'] & _ & Hout).
    apply bind_Ret in Hout. destruct Hout as ([goal_ok pre] & Hgoal & Hout).
    destruct goal_ok; cbn [negb] in Hout; [|discriminate Hout].
    destruct (applyPolynomialSmoothing P pre) as [smoothed out'] eqn:Hsmooth.
    destruct smoothed; cbn [negb] in Hout; [|discriminate Hout].
    injection Hout as <-.
    assert (Hpre : exists rest', colvecs pre = start :: rest').
    { eapply seed_goal_block_first_col; try eassumption. lia. }
    destruct Hpre as [rest' Hpre].
    exists pre, rest'. split; [exact Hpre | exact Hsmooth].
  - intro Hfar. apply ltb_not_leb in Hfar.
    pose proof (@seed_start_block_far (NDEBUG P) m first_col rest start
                  Hm Hfirst Hstart Hfar) as Hblock.
    split; [exact Hblock|].
    unfold getSeedParameters. rewrite Hex. cbn [bind negb].
    rewrite Hconv. cbn [bind negb]. rewrite Hle, Hst. cbn [negb].
    fold start. rewrite Hblock. reflexivity.
Qed.

(** A joint seed of three steps whose start is 0.25 away from the request's:
    the first column [0; 0] becomes [0.25; 0]. *)
Lemma seed_start_snap_witness :
  let P := Demo.planner false true in
  let m := mkMatrix 2 [[0; 0]; [0.5; 0.5]; [1; 1]]%float in
  let start := map (getVariablePosition P [("j1"%string, 0.25%float);
                                           ("j2"%string, 0%float)])
                   (getActiveJointModelNames P) in
  exists first_col rest,
    colvecs m = first_col :: rest /\
    ((l1_distance first_col start <=? 0.5)%float = true ->
     let snapped := mkMatrix (rows m) (start :: rest) in
     seed_start_block (NDEBUG P) m start = Ret (true, snapped) /\
     seed_start_block (NDEBUG P) snapped start = Ret (true, snapped) /\
     getSeedParameters P Demo.request_joint_seed MatrixXd_empty
     = (goal <- rightCols1 (NDEBUG P) snapped ;;
        '(found_goal, goal) <-
           seed_goal_loop P (goal_constraints Demo.request_joint_seed)
             (enforceBounds P [("j1"%string, 0.25%float);
                               ("j2"%string, 0%float)])
             goal ;;
        '(goal_ok, parameters) <-
           seed_goal_block (NDEBUG P) snapped found_goal goal ;;
        if negb goal_ok then Ret (false, parameters)
        else
          let '(smoothed, parameters) :=
            applyPolynomialSmoothing P parameters in
          if negb smoothed then Ret (false, parameters)
          else Ret (true, parameters)) /\
     (forall out,
        getSeedParameters P Demo.request_joint_seed MatrixXd_empty
        = Ret (true, out) ->
        exists pre rest',
          colvecs pre = start :: rest' /\
          applyPolynomialSmoothing P pre = (true, out))) /\
    ((0.5 <? l1_distance first_col start)%float = true ->
     seed_start_block (NDEBUG P) m start = Ret (false, m) /\
     getSeedParameters P Demo.request_joint_seed MatrixXd_empty
     = Ret (false, m)).
Proof.
  refine (@seed_start_snap (Demo.planner false true) Demo.request_joint_seed
            (mkJointTrajectory Demo.names
               [point_of_positions [0; 0]; point_of_positions [0.5; 0.5];
                point_of_positions [1; 1]]%float)
            (mkMatrix 2 [[0; 0]; [0.5; 0.5]; [1; 1]]%float)
            MatrixXd_empty
            [("j1"%string, 0.25%float); ("j2"%string, 0%float)]
            _ _ _ _).
  - reflexivity.
  - reflexivity.
  - unfold cols. simpl. lia.
  - reflexivity.
Defined.

(** The three-step seed is snapped when the request starts 0.25 away from
    it, and rejected when the request starts 0.75 away from it. *)
Example seed_start_snap_near :
  getSeedParameters (Demo.planner false true) Demo.request_joint_seed
    MatrixXd_empty
  = Ret (true, mkMatrix 2 [[0.25; 0]; [0.5; 0.5]; [1; 1]]%float).
Proof. vm_compute. reflexivity. Qed.

Example seed_start_snap_far :
  getSeedParameters (Demo.planner false true) Demo.request_far_start
    MatrixXd_empty
  = Ret (false, mkMatrix 2 [[0; 0]; [0.5; 0.5]; [1; 1]]%float).
Proof. vm_compute. reflexivity. Qed.

(** ** Start and goal on the Cartesian path *)

(** What [getStartAndGoal] does once both IK calls of the Cartesian path have
    succeeded: a debug build stops at the [assert(false)] of
    [robotStateFromEigen]; a build without assertions overwrites the
    request's start state with an empty message and its goal constraints
    with one empty constraint set, none of which holds the resolved
    configurations. *)
Lemma getStartAndGoal_cartesian_write_back (P : StompPlanner)
  (request_ : MotionPlanRequest) (c0 : Constraints) (rest : list Constraints)
  (pc_s pc_g : PositionConstraint) (oc_s oc_g : OrientationConstraint)
  (start goal : VectorXd) :
  constraints (trajectory_constraints request_) = c0 :: rest ->
  isCartesianSeed request_ = Ret true ->
  getJointRoots_size P = 1 ->
  front (position_constraints c0) = Ret pc_s ->
  front (orientation_constraints c0) = Ret oc_s ->
  back (position_constraints c0) = Ret pc_g ->
  back (orientation_constraints c0) = Ret oc_g ->
  ik_solves P (end_effector_pose pc_s oc_s) (ik_default_hint P) = true ->
  ik_solves P (end_effector_pose pc_g oc_g) (ik_default_hint P) = true ->
  getStartAndGoal P request_ start goal
  = if NDEBUG P
    then Ret (mkStartAndGoal true
                (ik_answer P (end_effector_pose pc_s oc_s) (ik_default_hint P))
                (ik_answer P (end_effector_pose pc_g oc_g) (ik_default_hint P))
                (mkMotionPlanRequest RobotStateMsg_empty [Constraints_empty]
                   (trajectory_constraints request_)
                   (allowed_planning_time request_)
                   (max_velocity_scaling_factor request_)))
    else AssertFailed.
Proof.
  intros Hcs Hcart Hroot Hps Hos Hpg Hog Hs Hg.
  unfold getStartAndGoal. rewrite Hcart. cbn [bind].
  unfold getStartAndGoal_cartesian. rewrite Hcs.
  cbn [at_index nth_error bind]. rewrite Hps, Hos. cbn [bind].
  rewrite (@ikFromCartesianConstraints_spec P Hroot), Hs. cbn [bind].
  rewrite Hpg, Hog. cbn [bind].
  rewrite (@ikFromCartesianConstraints_spec P Hroot), Hg. cbn [bind andb].
  unfold robotStateFromEigen, jointConstraintsFromEigen, cxx_assert.
  destruct (NDEBUG P); reflexivity.
Qed.

(** C7, on the code. On a Cartesian seed whose first and last waypoints the
    solver reaches, [getStartAndGoal] without assertions returns [true] and
    leaves an empty start state and one empty goal constraint set in the
    request; with assertions it stops at [assert(false)]. The resolved start
    [1; 1] and goal [3; 1] are in neither. *)
Theorem cartesian_write_back_unfinished :
  getStartAndGoal (Demo.planner true true) Demo.request_cartesian [] []
  = Ret (mkStartAndGoal true [1; 1]%float [3; 1]%float
           (mkMotionPlanRequest RobotStateMsg_empty [Constraints_empty]
              (trajectory_constraints Demo.request_cartesian)
              (allowed_planning_time Demo.request_cartesian)
              (max_velocity_scaling_factor Demo.request_cartesian))) /\
  getStartAndGoal (Demo.planner false true) Demo.request_cartesian [] []
  = AssertFailed.
Proof.
  split.
  - exact (@getStartAndGoal_cartesian_write_back (Demo.planner true true)
             Demo.request_cartesian Demo.cartesian_set [] _ _ _ _ [] []
             eq_refl eq_refl eq_refl eq_refl eq_refl eq_refl eq_refl
             eq_refl eq_refl).
  - exact (@getStartAndGoal_cartesian_write_back (Demo.planner false true)
             Demo.request_cartesian Demo.cartesian_set [] _ _ _ _ [] []
             eq_refl eq_refl eq_refl eq_refl eq_refl eq_refl eq_refl
             eq_refl eq_refl).
Qed.

(** ** The unseeded path *)

(** Without trajectory constraints no seed is found, and [getStartAndGoal]
    asks the classifier, which reads [constraints[0]] of an empty vector. *)
Lemma solve_without_seed (P : StompPlanner) (request_ : MotionPlanRequest)
  (res : MotionPlanDetailedResponse P) (parameters : MatrixXd)
  (start goal : VectorXd) :
  constraints (trajectory_constraints request_) = [] ->
  getSeedParameters P request_ parameters = Ret (false, parameters) /\
  getStartAndGoal P request_ start goal = Undefined /\
  solve request_ res = Undefined.
Proof.
  intro Hcs.
  assert (Hseed : forall p0,
            getSeedParameters P request_ p0 = Ret (false, p0)).
  { intro p0. unfold getSeedParameters.
    rewrite (extractSeedTrajectory_no_constraints P request_ request_ _ Hcs).
    reflexivity. }
  assert (Hsg : forall s g, getStartAndGoal P request_ s g = Undefined).
  { intros s g. unfold getStartAndGoal.
    rewrite (isCartesianSeed_no_constraints request_ Hcs). reflexivity. }
  split; [apply Hseed|]. split; [apply Hsg|].
  unfold solve. rewrite Hseed. cbn [bind].
  unfold solve_unseeded. rewrite Hsg. reflexivity.
Qed.

(** C8, on the code. A request without seed, with a joint start state and a
    single joint goal that names both joints, all within bounds: no seed is
    found, start and goal are not extracted, and [solve] has no defined
    result. *)
Theorem solve_no_seed_request :
  constraints (trajectory_constraints Demo.request_no_seed) = [] /\
  satisfiesBounds (Demo.planner false true)
    (snd (Demo.from_msg (start_state Demo.request_no_seed) [])) = true /\
  getSeedParameters (Demo.planner false true) Demo.request_no_seed
    MatrixXd_empty = Ret (false, MatrixXd_empty) /\
  getStartAndGoal (Demo.planner false true) Demo.request_no_seed [] []
  = Undefined /\
  solve Demo.request_no_seed (Demo.response0 false true) = Undefined.
Proof.
  split; [reflexivity|]. split; [vm_compute; reflexivity|].
  exact (@solve_without_seed (Demo.planner false true) Demo.request_no_seed
           (Demo.response0 false true) MatrixXd_empty [] [] eq_refl).
Qed.

(** ** The check against the planning scene *)

(** Whenever the optimizer's result converts to a trajectory that the
    planning scene rejects, the result handling marks the response
    [PLANNING_FAILED], leaves the trajectory in it, and returns [true]. *)
Lemma solve_handle_results_invalid_path (P : StompPlanner)
  (request_ : MotionPlanRequest) (res : MotionPlanDetailedResponse P)
  (parameters : MatrixXd) (trajectory : JointTrajectory)
  (path_valid : RobotTrajectory P -> bool) :
  parametersToJointTrajectory P request_ parameters = (true, trajectory) ->
  isPathValid P = Some path_valid ->
  let result_traj :=
    setRobotTrajectoryMsg P
      (snd (robotStateMsgToRobotState P (start_state request_)
              (RobotState_new P)))
      trajectory in
  path_valid result_traj = false ->
  let r := solve_handle_results request_ (solve_init_response res) true
             parameters in
  solve_result r = true /\
  error_code_ (solve_response r) = PLANNING_FAILED /\
  trajectory_ (solve_response r) = [Some result_traj].
Proof.
  intros Hconv Hscene result_traj Hinvalid r.
  unfold r, solve_handle_results. rewrite Hconv. cbn [negb].
  rewrite Hscene. fold result_traj. rewrite Hinvalid. cbn [negb].
  cbn [solve_result solve_response set_processing_time0 set_error_code
       set_trajectory0 solve_init_response trajectory_ error_code_].
  repeat split.
  destruct (trajectory_ res); reflexivity.
Qed.

(** C1, on the code. A seeded request whose optimized trajectory the planning
    scene rejects: [solve] sets [PLANNING_FAILED], keeps the trajectory in
    the response, and returns [true]. *)
Theorem solve_returns_true_on_invalid_path :
  exists r traj,
    solve Demo.request_joint_seed (Demo.response0 false false) = Ret r /\
    isPathValid (Demo.planner false false) = Some (fun _ => false) /\
    error_code_ (solve_response r) = PLANNING_FAILED /\
    trajectory_ (solve_response r) = [Some traj] /\
    solve_result r = true.
Proof.
  eexists. eexists.
  split; [vm_compute; reflexivity|].
  repeat split.
Qed.

(* ================================================================== *)
(** * Further properties of the planner                                 *)
(* ================================================================== *)

(** ** Decoding a joint seed *)

(** The inner loop never reads [names] out of range once the sizes agree,
    and it accepts exactly the constraint lists that name the joints in
    order. *)
Lemma seed_point_positions_decides (pre : list string) :
  forall (jcs : list JointConstraint) (suf : list string) (acc : list double),
    length jcs = length suf ->
    (map joint_name jcs = suf /\
     seed_point_positions (pre ++ suf) jcs (length pre) acc
     = Ret (Some (acc ++ map position jcs)))
    \/
    (map joint_name jcs <> suf /\
     seed_point_positions (pre ++ suf) jcs (length pre) acc = Ret None).
Proof.
  intros jcs. revert pre.
  induction jcs as [|c jcs IH]; intros pre [|n suf] acc Hlen;
    simpl in Hlen; try discriminate.
  - left. split; [reflexivity|]. simpl. now rewrite app_nil_r.
  - cbn [seed_point_positions]. rewrite at_index_app_mid. cbn [bind].
    destruct (String.eqb (joint_name c) n) eqn:Hn; cbn [negb].
    + apply String.eqb_eq in Hn.
      replace (pre ++ n :: suf) with ((pre ++ [n]) ++ suf)
        by (rewrite <- app_assoc; reflexivity).
      replace (S (length pre)) with (length (pre ++ [n]))
        by (rewrite length_app; simpl; lia).
      destruct (IH (pre ++ [n]) suf (acc ++ [position c]) ltac:(lia))
        as [[Heq Hr] | [Hne Hr]]; rewrite Hr.
      * left. split; [simpl; congruence|].
        simpl. rewrite <- app_assoc. reflexivity.
      * right. split; [|reflexivity].
        simpl. intro H. injection H as _ H. contradiction.
    + apply String.eqb_neq in Hn. right. split; [|reflexivity].
      simpl. intro H. injection H as H _. contradiction.
Qed.

(** The constraint sets that [extractSeedJointTrajectory] takes for a
    waypoint: one joint constraint per active joint, named in the group's
    order. *)
Lemma names_length_eq (names : list string) (c : Constraints) :
  map joint_name (joint_constraints c) = names ->
  length (joint_constraints c) = length names.
Proof. intros <-. now rewrite length_map. Qed.

Lemma extractSeedJointTrajectory_loop_decides (names : list string)
  (cs : list Constraints) :
  forall seed : JointTrajectory,
    (Forall (fun c => map joint_name (joint_constraints c) = names) cs /\
     extractSeedJointTrajectory_loop names cs seed
     = Ret (true,
            mkJointTrajectory names
              (points seed
                 ++ map (fun c => point_of_positions
                                    (map position (joint_constraints c))) cs)))
    \/
    (exists before c after,
       cs = before ++ c :: after /\
       Forall (fun c => map joint_name (joint_constraints c) = names) before /\
       map joint_name (joint_constraints c) <> names /\
       extractSeedJointTrajectory_loop names cs seed
       = Ret (false,
              mkJointTrajectory (joint_names seed)
                (points seed
                   ++ map (fun c => point_of_positions
                                      (map position (joint_constraints c)))
                        before))).
Proof.
  assert (Hstop : forall seed : JointTrajectory,
            seed = mkJointTrajectory (joint_names seed) (points seed ++ [])).
  { intros [ns pts]. cbn [joint_names points]. now rewrite app_nil_r. }
  induction cs as [|c cs IH]; intro seed.
  - left. split; [constructor|]. simpl. now rewrite app_nil_r.
  - cbn [extractSeedJointTrajectory_loop].
    destruct (length (joint_constraints c) =? length names) eqn:Hlen;
      cbn [negb].
    + apply Nat.eqb_eq in Hlen.
      destruct (@seed_point_positions_decides [] (joint_constraints c) names []
                  Hlen) as [[Heq Hr] | [Hne Hr]];
        cbn [app length] in Hr; rewrite Hr; cbn [bind].
      * destruct (IH (mkJointTrajectory (joint_names seed)
                        (points seed
                           ++ [point_of_positions
                                 (map position (joint_constraints c))])))
          as [[Hall Hloop]
             | (before & c' & after & Hcs & Hbefore & Hc' & Hloop)];
          rewrite Hloop.
        -- left. split; [constructor; assumption|].
           cbn [points map]. rewrite <- app_assoc. reflexivity.
        -- right. exists (c :: before), c', after.
           split; [rewrite Hcs; reflexivity|].
           split; [constructor; assumption|].
           split; [exact Hc'|].
           cbn [points joint_names map]. rewrite <- app_assoc. reflexivity.
      * right. exists [], c, cs.
        split; [reflexivity|]. split; [constructor|].
        split; [exact Hne|]. cbn [map]. f_equal. f_equal. apply Hstop.
    + apply Nat.eqb_neq in Hlen. right. exists [], c, cs.
      split; [reflexivity|]. split; [constructor|].
      split; [intro H; apply names_length_eq in H; contradiction|].
      cbn [map]. f_equal. f_equal. apply Hstop.
Qed.

(** X1. [extractSeedJointTrajectory] always returns: it never reads the
    group's joint names out of range. It returns [true] exactly when every
    constraint set carries one joint constraint per active joint, named in
    the group's order; the seed then gains one point per constraint set,
    holding that set's positions, and takes the group's joint names. When it
    returns [false] there is a first constraint set that is not of this
    form; the seed keeps its joint names and has gained exactly the points
    of the constraint sets before that one, each holding its set's
    positions. *)
Theorem extractSeedJointTrajectory_accepts_iff (P : StompPlanner)
  (req : MotionPlanRequest) (seed : JointTrajectory) :
  let names := getActiveJointModelNames P in
  let cs := constraints (trajectory_constraints req) in
  let decode := fun c => point_of_positions
                           (map position (joint_constraints c)) in
  exists ok traj,
    extractSeedJointTrajectory P req seed = Ret (ok, traj) /\
    (ok = true <->
     Forall (fun c => map joint_name (joint_constraints c) = names) cs) /\
    (ok = true ->
     traj = mkJointTrajectory names (points seed ++ map decode cs)) /\
    (ok = false ->
     exists before c after,
       cs = before ++ c :: after /\
       Forall (fun c => map joint_name (joint_constraints c) = names) before /\
       map joint_name (joint_constraints c) <> names /\
       traj = mkJointTrajectory (joint_names seed)
                (points seed ++ map decode before)).
Proof.
  intros names cs decode. unfold extractSeedJointTrajectory. fold names cs.
  destruct (extractSeedJointTrajectory_loop_decides names cs seed)
    as [[Hall Hloop]
       | (before & c & after & Hcs & Hbefore & Hc & Hloop)];
    rewrite Hloop.
  - exists true. eexists. split; [reflexivity|].
    split; [tauto|]. split; [reflexivity | discriminate].
  - exists false. eexists. split; [reflexivity|].
    split.
    + split; [discriminate|]. intro Hall. exfalso. apply Hc.
      rewrite Hcs in Hall. apply Forall_app in Hall.
      destruct Hall as [_ Hall]. exact (Forall_inv Hall).
    + split; [discriminate|]. intros _.
      exists before, c, after. repeat split; assumption || reflexivity.
Qed.

(** A seed whose second constraint set names the joints in the wrong order:
    the point of the first set stays in the seed. *)
Example extractSeedJointTrajectory_partial :
  extractSeedJointTrajectory (Demo.planner false true)
    (Demo.request (Demo.start_msg 0%float 0%float) []
       [Demo.joint_set 0%float 0%float;
        mkConstraints [Demo.jc "j2" 1%float; Demo.jc "j1" 1%float] [] [];
        Demo.joint_set 1%float 1%float])
    JointTrajectory_empty
  = Ret (false, mkJointTrajectory [] [point_of_positions [0; 0]%float]).
Proof. reflexivity. Qed.

(** ** Encoding a seed *)

Lemma encode_points_Throw (names : list string)
  (pts : list JointTrajectoryPoint) :
  Exists (fun pt => length (positions pt) <> length names) pts ->
  encode_points names pts
  = Throw (std_runtime_error
      "All trajectory position fields must have same dimensions as joint_names").
Proof.
  induction pts as [|pt pts IH]; intro H; [inversion H|].
  cbn [encode_points]. unfold encode_point.
  destruct (length (positions pt) =? length names) eqn:Hlen; cbn [negb bind].
  - apply Nat.eqb_eq in Hlen.
    inversion H as [? ? Hpt | ? ? Hrest]; subst; [contradiction|].
    rewrite IH by exact Hrest. reflexivity.
  - reflexivity.
Qed.

(** X2. [encodeSeedTrajectory] throws [std::runtime_error] as soon as one
    point of the trajectory does not have exactly one position per joint
    name, wherever that point stands: no partial encoding is returned. *)
Theorem encodeSeedTrajectory_throws (seed : JointTrajectory) :
  Exists (fun pt => length (positions pt) <> length (joint_names seed))
         (points seed) ->
  encodeSeedTrajectory seed
  = Throw (std_runtime_error
      "All trajectory position fields must have same dimensions as joint_names").
Proof.
  intro H. unfold encodeSeedTrajectory.
  rewrite encode_points_Throw by exact H. reflexivity.
Qed.

(** A trajectory whose second point lacks a position. *)
Lemma encodeSeedTrajectory_throws_witness :
  encodeSeedTrajectory
    (mkJointTrajectory Demo.names
       [point_of_positions [0; 0]; point_of_positions [1]]%float)
  = Throw (std_runtime_error
      "All trajectory position fields must have same dimensions as joint_names").
Proof.
  apply (@encodeSeedTrajectory_throws
           (mkJointTrajectory Demo.names
              [point_of_positions [0; 0]; point_of_positions [1]]%float)).
  simpl. apply Exists_cons_tl. apply Exists_cons_hd. simpl. lia.
Defined.

(** ** A trajectory as a matrix *)

Lemma skipn_nth_error (A : Type) (l : list A) :
  forall (i : nat) (x : A),
    nth_error l i = Some x -> skipn i l = x :: skipn (S i) l.
Proof.
  induction l as [|h t IH]; intros [|i] x H; simpl in H; try discriminate.
  - injection H as ->. reflexivity.
  - exact (IH i x H).
Qed.

Lemma parameters_column_firstn (pos : list double) :
  forall dof joint,
    joint + dof <= length pos ->
    parameters_column dof joint pos = Ret (firstn dof (skipn joint pos)).
Proof.
  induction dof as [|dof IH]; intros joint Hlen; [reflexivity|].
  cbn [parameters_column]. unfold at_index.
  destruct (nth_error pos joint) as [x|] eqn:Hx;
    [|apply nth_error_None in Hx; lia].
  cbn [bind]. rewrite IH by lia. cbn [bind].
  rewrite (skipn_nth_error _ _ Hx). reflexivity.
Qed.

Lemma parameters_column_short (pos : list double) :
  forall dof joint,
    joint <= length pos < joint + dof ->
    parameters_column dof joint pos = Undefined.
Proof.
  induction dof as [|dof IH]; intros joint Hlen; [lia|].
  cbn [parameters_column]. unfold at_index.
  destruct (nth_error pos joint) as [x|] eqn:Hx; [|reflexivity].
  assert (joint < length pos) by (apply nth_error_Some; congruence).
  cbn [bind]. rewrite IH by lia. reflexivity.
Qed.

Lemma parameters_columns_decides (dof : nat) (pts : list JointTrajectoryPoint) :
  (Forall (fun pt => dof <= length (positions pt)) pts /\
   parameters_columns dof pts
   = Ret (map (fun pt => firstn dof (positions pt)) pts))
  \/
  (Exists (fun pt => length (positions pt) < dof) pts /\
   parameters_columns dof pts = Undefined).
Proof.
  induction pts as [|pt pts IH]; [left; split; [constructor | reflexivity]|].
  cbn [parameters_columns].
  destruct (Nat.le_gt_cases dof (length (positions pt))) as [Hle | Hgt].
  - rewrite parameters_column_firstn by lia. cbn [skipn bind].
    destruct IH as [[Hall Hr] | [Hex Hr]]; rewrite Hr.
    + left. split; [constructor; assumption | reflexivity].
    + right. split; [apply Exists_cons_tl; assumption | reflexivity].
  - rewrite parameters_column_short by lia.
    right. split; [apply Exists_cons_hd; assumption | reflexivity].
Qed.

(** X3. [jointTrajectorytoParameters] checks no size. When every point has
    at least as many positions as the trajectory has joint names, it returns
    [true] with one column per point holding the point's first [dof]
    positions: further positions are dropped. When some point has fewer
    positions, it reads [positions[joint]] out of range. *)
Theorem jointTrajectorytoParameters_decides (traj : JointTrajectory) :
  let dof := length (joint_names traj) in
  (Forall (fun pt => dof <= length (positions pt)) (points traj) /\
   jointTrajectorytoParameters traj
   = Ret (true,
          mkMatrix dof (map (fun pt => firstn dof (positions pt)) (points traj))))
  \/
  (Exists (fun pt => length (positions pt) < dof) (points traj) /\
   jointTrajectorytoParameters traj = Undefined).
Proof.
  intro dof. unfold jointTrajectorytoParameters. fold dof.
  destruct (parameters_columns_decides dof (points traj))
    as [[Hall Hr] | [Hex Hr]]; rewrite Hr.
  - left. split; [exact Hall | reflexivity].
  - right. split; [exact Hex | reflexivity].
Qed.

(** ** Cartesian seeds *)

Lemma waypoints_length (c0 : Constraints) :
  length (position_constraints c0) = length (orientation_constraints c0) ->
  length (waypoints c0) = length (position_constraints c0).
Proof.
  intro H. unfold waypoints. rewrite length_map, length_combine, <- H.
  apply Nat.min_id.
Qed.

Lemma chain_failures_bound (P : StompPlanner) (poses : list Frame) :
  forall jp, chain_failures P jp poses <= length poses.
Proof.
  induction poses as [|pose poses IH]; intro jp; simpl; [lia|].
  specialize (IH (chain_step P jp pose)).
  destruct (ik_solves P pose jp); lia.
Qed.

Lemma chain_calls_bound (P : StompPlanner) (poses : list Frame) :
  forall jp, length (chain_calls P jp poses) <= length poses.
Proof.
  induction poses as [|pose poses IH]; intro jp; simpl; [lia|].
  specialize (IH (chain_step P jp pose)).
  rewrite length_app. unfold ik_call.
  destruct (getKDLChain (tracik_solver P)); simpl; lia.
Qed.

(** X4. On a request that meets its assertions,
    [extractSeedCartesianTrajectory] never gives up: whatever the solver
    answers, it returns [true], names the seed after the group's joints and
    appends exactly one point per waypoint; it reports at most one failure
    and makes at most one solver call per waypoint. *)
Theorem cartesian_seed_always_returns (P : StompPlanner)
  (req : MotionPlanRequest) (c0 : Constraints) (seed : JointTrajectory) :
  cartesian_seed_request P req c0 ->
  exists seed' report,
    extractSeedCartesianTrajectory P req seed = Ret (true, seed', report) /\
    joint_names seed' = getActiveJointModelNames P /\
    length (points seed')
    = length (points seed) + length (position_constraints c0) /\
    reported_failures report <= length (position_constraints c0) /\
    length (solver_calls report) <= length (position_constraints c0).
Proof.
  intro Hreq. pose proof Hreq as (_ & Hlen & _ & Hroot).
  eexists. eexists.
  split; [exact (@extractSeedCartesianTrajectory_spec P Hroot req c0 seed Hreq)|].
  cbn [joint_names points reported_failures solver_calls].
  rewrite <- (waypoints_length c0 Hlen).
  split; [reflexivity|].
  split; [now rewrite length_app, length_map, chain_positions_length|].
  split; [apply chain_failures_bound | apply chain_calls_bound].
Qed.

(** A Cartesian seed of three waypoints, the middle one out of reach. *)
Lemma cartesian_seed_always_returns_witness :
  exists seed' report,
    extractSeedCartesianTrajectory (Demo.planner false true)
      Demo.request_cartesian_middle JointTrajectory_empty
    = Ret (true, seed', report) /\
    joint_names seed' = getActiveJointModelNames (Demo.planner false true) /\
    length (points seed')
    = length (points JointTrajectory_empty)
      + length (position_constraints Demo.cartesian_set_middle) /\
    reported_failures report
    <= length (position_constraints Demo.cartesian_set_middle) /\
    length (solver_calls report)
    <= length (position_constraints Demo.cartesian_set_middle).
Proof.
  apply (@cartesian_seed_always_returns (Demo.planner false true)
           Demo.request_cartesian_middle Demo.cartesian_set_middle
           JointTrajectory_empty).
  apply demo_cartesian_seed_request; simpl; lia.
Defined.

Lemma chain_all_solved (P : StompPlanner) (poses : list Frame) :
  (forall pose, In pose poses -> forall hint, ik_solves P pose hint = true) ->
  forall jp,
    chain_failures P jp poses = 0 /\
    length (chain_calls P jp poses) = length poses.
Proof.
  induction poses as [|pose poses IH]; intros Hall jp; simpl; [split; reflexivity|].
  assert (Hp : ik_solves P pose jp = true) by (apply Hall; left; reflexivity).
  destruct (IH (fun p Hin => Hall p (or_intror Hin)) (chain_step P jp pose))
    as [Hf Hc].
  rewrite Hp, Hf, length_app, Hc. split; [reflexivity|].
  unfold ik_call. unfold ik_solves in Hp.
  destruct (getKDLChain (tracik_solver P)); [reflexivity | discriminate Hp].
Qed.

(** X5. When the solver reaches every waypoint of a Cartesian seed from
    every hint, the extraction reports no failure and calls the solver once
    per waypoint; the first point holds the solver's answer from an empty
    hint, and every later point holds the solver's answer started from the
    positions of the point before it. *)
Theorem cartesian_seed_all_solved (P : StompPlanner)
  (req : MotionPlanRequest) (c0 : Constraints) :
  cartesian_seed_request P req c0 ->
  (forall pose, In pose (waypoints c0) ->
                forall hint, ik_solves P pose hint = true) ->
  exists seed' report,
    extractSeedCartesianTrajectory P req JointTrajectory_empty
    = Ret (true, seed', report) /\
    reported_failures report = 0 /\
    length (solver_calls report) = length (waypoints c0) /\
    length (points seed') = length (waypoints c0) /\
    (forall pose,
       nth_error (waypoints c0) 0 = Some pose ->
       nth_error (points seed') 0
       = Some (point_of_positions (ik_answer P pose VectorXd_empty))) /\
    (forall j pt pose,
       nth_error (points seed') j = Some pt ->
       nth_error (waypoints c0) (S j) = Some pose ->
       nth_error (points seed') (S j)
       = Some (point_of_positions (ik_answer P pose (positions pt)))).
Proof.
  intros Hreq Hall. pose proof Hreq as (_ & _ & _ & Hroot).
  destruct (chain_all_solved P (waypoints c0) Hall VectorXd_empty) as [Hf Hc].
  eexists. eexists.
  split; [exact (@extractSeedCartesianTrajectory_spec P Hroot req c0 _ Hreq)|].
  cbn [points reported_failures solver_calls JointTrajectory_empty app].
  split; [exact Hf|]. split; [exact Hc|].
  split; [now rewrite length_map, chain_positions_length|].
  split.
  - intros pose Hpose.
    destruct (waypoints c0) as [|p0 poses]; [discriminate Hpose|].
    simpl in Hpose. injection Hpose as ->.
    cbn [chain_positions map nth_error]. unfold chain_step.
    rewrite (Hall pose (or_introl eq_refl)). reflexivity.
  - intros j pt pose Hpt Hpose.
    rewrite nth_error_map. rewrite nth_error_map in Hpt. revert Hpt.
    match goal with
    | |- option_map _ ?x = _ -> _ => destruct x as [s|] eqn:Hs
    end; cbn [option_map]; intro Hpt; [|discriminate Hpt].
    injection Hpt as <-. cbn [positions point_of_positions].
    pose proof (@chain_positions_succ P _ _ _ _ _ Hs Hpose) as Hnext.
    unfold chain_step in Hnext.
    rewrite (Hall pose (nth_error_In _ _ Hpose)) in Hnext.
    exact (f_equal (option_map point_of_positions) Hnext).
Qed.

(** A Cartesian seed of three waypoints, all within reach. *)
Lemma cartesian_seed_all_solved_witness :
  exists seed' report,
    extractSeedCartesianTrajectory (Demo.planner false true)
      Demo.request_cartesian JointTrajectory_empty
    = Ret (true, seed', report) /\
    reported_failures report = 0 /\
    length (solver_calls report) = length (waypoints Demo.cartesian_set) /\
    length (points seed') = length (waypoints Demo.cartesian_set) /\
    (forall pose,
       nth_error (waypoints Demo.cartesian_set) 0 = Some pose ->
       nth_error (points seed') 0
       = Some (point_of_positions
                 (ik_answer (Demo.planner false true) pose VectorXd_empty))) /\
    (forall j pt pose,
       nth_error (points seed') j = Some pt ->
       nth_error (waypoints Demo.cartesian_set) (S j) = Some pose ->
       nth_error (points seed') (S j)
       = Some (point_of_positions
                 (ik_answer (Demo.planner false true) pose (positions pt)))).
Proof.
  apply (@cartesian_seed_all_solved (Demo.planner false true)
           Demo.request_cartesian Demo.cartesian_set).
  - apply demo_cartesian_seed_request; simpl; lia.
  - intros pose Hin hint. simpl in Hin.
    destruct Hin as [<- | [<- | [<- | []]]]; vm_compute; reflexivity.
Defined.

Lemma isCartesianSeed_cartesian_request (P : StompPlanner)
  (req : MotionPlanRequest) (c0 : Constraints) :
  cartesian_seed_request P req c0 ->
  joint_constraints c0 = [] ->
  isCartesianSeed req = Ret true.
Proof.
  intros (Hcs & Hlen & Hpos & _) Hjc. unfold isCartesianSeed.
  rewrite Hcs. cbn [at_index nth_error bind]. rewrite Hjc.
  change (0 <? length (@nil JointConstraint)) with false. cbv iota.
  rewrite <- Hlen. apply Nat.ltb_lt in Hpos. rewrite Hpos. reflexivity.
Qed.

(** X6. A Cartesian seed whose first waypoint the solver does not reach is
    accepted by the extraction with an empty first point, and the conversion
    to a matrix then reads [positions[0]] of that point: for a group with at
    least one active joint, [getSeedParameters] has no defined result, and
    neither has [solve]. *)
Theorem cartesian_seed_first_failure_undefined (P : StompPlanner)
  (req : MotionPlanRequest) (c0 : Constraints) (parameters : MatrixXd)
  (res : MotionPlanDetailedResponse P) :
  cartesian_seed_request P req c0 ->
  joint_constraints c0 = [] ->
  (forall pose, nth_error (waypoints c0) 0 = Some pose ->
                ik_solves P pose VectorXd_empty = false) ->
  0 < length (getActiveJointModelNames P) ->
  getSeedParameters P req parameters = Undefined /\
  solve req res = Undefined.
Proof.
  intros Hreq Hjc Hfail Hdof.
  pose proof Hreq as (Hcs & Hlen & Hpos & Hroot).
  assert (Hseed : forall p0, getSeedParameters P req p0 = Undefined).
  { intro p0. unfold getSeedParameters, extractSeedTrajectory.
    rewrite Hcs, (isCartesianSeed_cartesian_request Hreq Hjc). cbn [bind].
    rewrite (@extractSeedCartesianTrajectory_spec P Hroot req c0 _ Hreq).
    cbn [bind negb points JointTrajectory_empty app].
    pose proof (waypoints_length c0 Hlen) as Hw.
    destruct (waypoints c0) as [|pose poses] eqn:Hwp;
      [simpl in Hw; lia|].
    unfold jointTrajectorytoParameters.
    cbn [joint_names points chain_positions map parameters_columns].
    unfold chain_step. rewrite (Hfail pose eq_refl).
    destruct (length (getActiveJointModelNames P)) as [|d]; [lia|].
    reflexivity. }
  split; [apply Hseed|]. unfold solve. rewrite Hseed. reflexivity.
Qed.

(** A Cartesian seed whose first waypoint is out of the solver's reach. *)
Lemma cartesian_seed_first_failure_undefined_witness :
  getSeedParameters (Demo.planner false true) Demo.request_cartesian_first
    MatrixXd_empty = Undefined /\
  solve Demo.request_cartesian_first (Demo.response0 false true) = Undefined.
Proof.
  apply (@cartesian_seed_first_failure_undefined (Demo.planner false true)
           Demo.request_cartesian_first Demo.cartesian_set_first
           MatrixXd_empty (Demo.response0 false true)).
  - apply demo_cartesian_seed_request; simpl; lia.
  - reflexivity.
  - intros pose Hpose. simpl in Hpose. injection Hpose as <-.
    vm_compute. reflexivity.
  - simpl. lia.
Defined.

Lemma chain_without_solver (P : StompPlanner) (poses : list Frame) :
  getKDLChain (tracik_solver P) = None ->
  forall jp,
    chain_positions P jp poses = repeat jp (length poses) /\
    chain_failures P jp poses = length poses /\
    chain_calls P jp poses = [].
Proof.
  intro Hnone.
  induction poses as [|pose poses IH]; intro jp; simpl;
    [repeat split; reflexivity|].
  unfold chain_step, ik_solves, ik_call. rewrite Hnone.
  destruct (IH jp) as (Hp & Hf & Hc).
  unfold chain_step, ik_solves in Hp, Hf, Hc. rewrite Hp, Hf, Hc.
  repeat split; reflexivity.
Qed.

(** X7. When the kinematic chain cannot be built, the extraction of a
    Cartesian seed still returns [true]: it makes no solver call, reports
    every waypoint as a failure, and appends one point with empty positions
    per waypoint. *)
Theorem cartesian_seed_without_chain (P : StompPlanner)
  (req : MotionPlanRequest) (c0 : Constraints) (seed : JointTrajectory) :
  cartesian_seed_request P req c0 ->
  getKDLChain (tracik_solver P) = None ->
  extractSeedCartesianTrajectory P req seed
  = Ret (true,
         mkJointTrajectory (getActiveJointModelNames P)
           (points seed
              ++ repeat (point_of_positions [])
                   (length (position_constraints c0))),
         mkCartesianSeedReport (length (position_constraints c0)) []).
Proof.
  intros Hreq Hnone. pose proof Hreq as (_ & Hlen & _ & Hroot).
  rewrite (@extractSeedCartesianTrajectory_spec P Hroot req c0 seed Hreq).
  destruct (chain_without_solver P (waypoints c0) Hnone VectorXd_empty)
    as (Hp & Hf & Hc).
  rewrite Hp, Hf, Hc, map_repeat, (waypoints_length c0 Hlen). reflexivity.
Qed.

(** The demo planner with a solver that has no chain. *)
Lemma cartesian_seed_without_chain_witness :
  extractSeedCartesianTrajectory Demo2.planner_without_chain
    Demo.request_cartesian JointTrajectory_empty
  = Ret (true,
         mkJointTrajectory Demo.names
           [point_of_positions []; point_of_positions [];
            point_of_positions []],
         mkCartesianSeedReport 3 []).
Proof.
  apply (@cartesian_seed_without_chain Demo2.planner_without_chain
           Demo.request_cartesian Demo.cartesian_set JointTrajectory_empty).
  - repeat split; simpl; lia.
  - reflexivity.
Defined.

(** ** Forcing the goal into the seed *)

Lemma set_nth_back (A : Type) (x y : A) (l : list A) :
  set_nth (length l) x (l ++ [y]) = l ++ [x].
Proof.
  induction l as [|h t IH]; simpl; [reflexivity | now rewrite IH].
Qed.

Lemma bind_congr (A B : Type) (c c' : outcome A) (k : A -> outcome B) :
  c = c' -> bind c k = bind c' k.
Proof. intros ->. reflexivity. Qed.

Lemma bool_pair_eta (A : Type) (x : bool * A) :
  (let '(b, a) := x in if negb b then Ret (false, a) else Ret (true, a))
  = Ret x.
Proof. destruct x as [[|] a]; reflexivity. Qed.

Lemma at_index_back (A : Type) (l : list A) (x : A) :
  at_index (l ++ [x]) (length l) = Ret x.
Proof. apply at_index_app_mid. Qed.

Section GoalSnap.

Variable P : StompPlanner.
Variables (request_ : MotionPlanRequest) (traj : JointTrajectory).
Variables (m parameters : MatrixXd) (st st' : RobotState P).
Variables (first_col last_col : VectorXd) (middle : list VectorXd).
Variables (gc : Constraints) (gcs : list Constraints).

Hypothesis extracted :
  extractSeedTrajectory P request_ request_ JointTrajectory_empty
  = Ret (true, traj).
Hypothesis converted : jointTrajectorytoParameters traj = Ret (true, m).
Hypothesis m_columns : colvecs m = first_col :: middle ++ [last_col].
Hypothesis three_columns : middle <> [].
Hypothesis got_start :
  robotStateMsgToRobotState P (start_state request_) (RobotState_new P)
  = (true, st).
Hypothesis start_near :
  (l1_distance first_col
     (map (getVariablePosition P st) (getActiveJointModelNames P))
   <=? 0.5)%float = true.
Hypothesis first_goal : goal_constraints request_ = gc :: gcs.
Hypothesis joint_goal : joint_constraints gc <> [].

Lemma goal_snap_shape :
  rows m = length (getActiveJointModelNames P) /\
  length first_col = rows m /\ length last_col = rows m /\
  (cols m <=? 2) = false.
Proof using extracted converted m_columns three_columns.
  destruct (jointTrajectorytoParameters_shape _ converted)
    as (_ & Hrows & _ & Hall).
  rewrite (extractSeedTrajectory_names _ _ _ _ extracted) in Hrows.
  rewrite m_columns in Hall.
  split; [exact Hrows|]. split; [exact (Forall_inv Hall)|].
  split.
  - apply Forall_inv_tail in Hall. rewrite Forall_app in Hall.
    destruct Hall as [_ Hlast]. exact (Forall_inv Hlast).
  - apply Nat.leb_gt. unfold cols. rewrite m_columns.
    cbn [length]. rewrite length_app. cbn [length].
    destruct middle; [contradiction | simpl; lia].
Qed.

(** Up to the goal loop, [getSeedParameters] has snapped the first column
    and starts the search for a goal from the last one. *)
Lemma getSeedParameters_after_start :
  getSeedParameters P request_ parameters
  = ('(found_goal, goal) <-
       seed_goal_loop P (goal_constraints request_) (enforceBounds P st)
         last_col ;;
     '(goal_ok, parameters) <-
       seed_goal_block (NDEBUG P)
         (mkMatrix (rows m)
            (map (getVariablePosition P st) (getActiveJointModelNames P)
               :: middle ++ [last_col]))
         found_goal goal ;;
     if negb goal_ok then Ret (false, parameters)
     else
       let '(smoothed, parameters) := applyPolynomialSmoothing P parameters in
       if negb smoothed then Ret (false, parameters)
       else Ret (true, parameters)).
Proof using extracted converted m_columns three_columns got_start start_near.
  destruct goal_snap_shape as (Hrows & Hfirst & Hlast & Hle).
  unfold getSeedParameters. rewrite extracted. cbn [bind negb].
  rewrite converted. cbn [bind negb]. rewrite Hle, got_start. cbn [negb].
  rewrite (@seed_start_block_near (NDEBUG P) m first_col (middle ++ [last_col])
             _ m_columns Hfirst)
    by (try exact start_near; rewrite length_map; congruence).
  cbn [bind negb].
  unfold rightCols1, eigen_assert, cols. cbn [colvecs length Nat.leb bind].
  rewrite Nat.sub_succ, Nat.sub_0_r.
  change (map (getVariablePosition P st) (getActiveJointModelNames P)
            :: middle ++ [last_col])
    with ((map (getVariablePosition P st) (getActiveJointModelNames P)
             :: middle) ++ [last_col]).
  replace (length (middle ++ [last_col]))
    with (length (map (getVariablePosition P st) (getActiveJointModelNames P)
                    :: middle))
    by (rewrite length_app; simpl; now rewrite Nat.add_1_r).
  rewrite at_index_back. reflexivity.
Qed.

Hypothesis goal_set :
  set_joint_constraint_values P (enforceBounds P st) (joint_constraints gc)
  = Ret st'.
Hypothesis goal_in_bounds : satisfiesBounds_group P st' = true.

Lemma seed_goal_loop_joint_goal :
  seed_goal_loop P (goal_constraints request_) (enforceBounds P st) last_col
  = Ret (true, map (getVariablePosition P st') (getActiveJointModelNames P)).
Proof using extracted converted m_columns three_columns first_goal joint_goal
  goal_set goal_in_bounds.
  destruct goal_snap_shape as (Hrows & _ & Hlast & _).
  rewrite first_goal. cbn [seed_goal_loop].
  destruct (joint_constraints gc) as [|jc jcs] eqn:Hjcs; [contradiction|].
  cbn [length Nat.eqb negb]. rewrite goal_set. cbn [bind].
  rewrite goal_in_bounds. cbn [negb].
  unfold copy_joint_values, eigen_assert.
  rewrite Hlast, Hrows, Nat.leb_refl. cbn [bind].
  rewrite <- Hrows, <- Hlast, skipn_all, app_nil_r. reflexivity.
Qed.

Lemma seed_goal_snapped (start goal : VectorXd) :
  length goal = rows m ->
  (l1_distance last_col goal <=? 0.5)%float = true ->
  seed_goal_block (NDEBUG P)
    (mkMatrix (rows m) (start :: middle ++ [last_col])) true goal
  = Ret (true, mkMatrix (rows m) (start :: middle ++ [goal])).
Proof using extracted converted m_columns three_columns.
  intros Hgoal Hnear.
  destruct goal_snap_shape as (_ & _ & Hlast & _).
  unfold seed_goal_block, rightCols1, within_tolerance, assign_rightCols1,
    eigen_assert, cols.
  cbn [colvecs rows length Nat.leb bind]. rewrite Nat.sub_succ, Nat.sub_0_r.
  change (start :: middle ++ [last_col]) with ((start :: middle) ++ [last_col]).
  replace (length (middle ++ [last_col])) with (length (start :: middle))
    by (rewrite length_app; simpl; now rewrite Nat.add_1_r).
  rewrite at_index_back. cbn [bind].
  rewrite Hlast, Hgoal, Nat.eqb_refl. cbn [bind].
  change MAX_START_DISTANCE_THRESH with 0.5%float. rewrite Hnear.
  cbn [andb bind]. rewrite set_nth_back. reflexivity.
Qed.

Lemma seed_goal_far (start goal : VectorXd) :
  length goal = rows m ->
  (l1_distance last_col goal <=? 0.5)%float = false ->
  seed_goal_block (NDEBUG P)
    (mkMatrix (rows m) (start :: middle ++ [last_col])) true goal
  = Ret (false, mkMatrix (rows m) (start :: middle ++ [last_col])).
Proof using extracted converted m_columns three_columns.
  intros Hgoal Hfar.
  destruct goal_snap_shape as (_ & _ & Hlast & _).
  unfold seed_goal_block, rightCols1, within_tolerance, eigen_assert, cols.
  cbn [colvecs rows length Nat.leb bind]. rewrite Nat.sub_succ, Nat.sub_0_r.
  change (start :: middle ++ [last_col]) with ((start :: middle) ++ [last_col]).
  replace (length (middle ++ [last_col])) with (length (start :: middle))
    by (rewrite length_app; simpl; now rewrite Nat.add_1_r).
  rewrite at_index_back. cbn [bind].
  rewrite Hlast, Hgoal, Nat.eqb_refl. cbn [bind].
  change MAX_START_DISTANCE_THRESH with 0.5%float. rewrite Hfar.
  reflexivity.
Qed.

End GoalSnap.

(** X8. Let the extracted seed convert to a matrix with at least three
    columns whose first column is within 0.5 of the request's start, and let
    the first goal constraint set carry joint constraints that the robot
    state accepts within bounds; [goal] is that state read joint by joint.
    If the L1 distance between the seed's last column and [goal] is at most
    0.5, [getSeedParameters] returns what the smoothing step makes of the
    seed with its first column replaced by the start and its last column
    by [goal], the columns in between untouched. If the distance exceeds
    0.5, it returns [false]. *)
Theorem seed_goal_snap (P : StompPlanner) (request_ : MotionPlanRequest)
  (traj : JointTrajectory) (m parameters : MatrixXd) (st st' : RobotState P)
  (first_col last_col : VectorXd) (middle : list VectorXd)
  (gc : Constraints) (gcs : list Constraints) :
  extractSeedTrajectory P request_ request_ JointTrajectory_empty
  = Ret (true, traj) ->
  jointTrajectorytoParameters traj = Ret (true, m) ->
  colvecs m = first_col :: middle ++ [last_col] ->
  middle <> [] ->
  robotStateMsgToRobotState P (start_state request_) (RobotState_new P)
  = (true, st) ->
  let start := map (getVariablePosition P st) (getActiveJointModelNames P) in
  (l1_distance first_col start <=? 0.5)%float = true ->
  goal_constraints request_ = gc :: gcs ->
  joint_constraints gc <> [] ->
  set_joint_constraint_values P (enforceBounds P st) (joint_constraints gc)
  = Ret st' ->
  satisfiesBounds_group P st' = true ->
  let goal := map (getVariablePosition P st') (getActiveJointModelNames P) in
  ((l1_distance last_col goal <=? 0.5)%float = true ->
   getSeedParameters P request_ parameters
   = Ret (applyPolynomialSmoothing P
            (mkMatrix (rows m) (start :: middle ++ [goal])))) /\
  ((0.5 <? l1_distance last_col goal)%float = true ->
   getSeedParameters P request_ parameters
   = Ret (false, mkMatrix (rows m) (start :: middle ++ [last_col]))).
Proof.
  intros Hex Hconv Hm Hmid Hst start Hnear Hgc Hjc Hset Hb goal.
  pose proof (@goal_snap_shape P request_ traj m first_col last_col middle
                Hex Hconv Hm Hmid) as (Hrows & _ & _ & _).
  assert (Hgoal : length goal = rows m)
    by (unfold goal; rewrite length_map; congruence).
  pose proof (@getSeedParameters_after_start P request_ traj m parameters st
                first_col last_col middle Hex Hconv Hm Hmid Hst Hnear)
    as Hprefix.
  rewrite (@seed_goal_loop_joint_goal P request_ traj m st st' first_col
             last_col middle gc gcs Hex Hconv Hm Hmid Hgc Hjc Hset Hb)
    in Hprefix.
  cbn [bind] in Hprefix.
  split; intro Hdist; rewrite Hprefix.
  - pose proof (@seed_goal_snapped P request_ traj m first_col last_col middle
                  Hex Hconv Hm Hmid start goal Hgoal Hdist) as Hblock.
    etransitivity; [apply bind_congr; exact Hblock|].
    cbn [bind negb]. apply bool_pair_eta.
  - apply ltb_not_leb in Hdist.
    pose proof (@seed_goal_far P request_ traj m first_col last_col middle
                  Hex Hconv Hm Hmid start goal Hgoal Hdist) as Hblock.
    etransitivity; [apply bind_congr; exact Hblock|].
    reflexivity.
Qed.

(** A three-step joint seed that ends 0.25 away from the goal. *)
Lemma seed_goal_snap_witness :
  getSeedParameters (Demo.planner false true) Demo2.request_near_goal
    MatrixXd_empty
  = Ret (true, mkMatrix 2 [[0; 0]; [0.5; 0.5]; [1; 1.25]]%float).
Proof.
  refine (proj1 (@seed_goal_snap (Demo.planner false true)
            Demo2.request_near_goal
            (mkJointTrajectory Demo.names
               [point_of_positions [0; 0]; point_of_positions [0.5; 0.5];
                point_of_positions [1; 1]]%float)
            (mkMatrix 2 [[0; 0]; [0.5; 0.5]; [1; 1]]%float)
            MatrixXd_empty
            [("j1"%string, 0%float); ("j2"%string, 0%float)]
            [("j2"%string, 1.25%float); ("j1"%string, 1%float);
             ("j1"%string, 0%float); ("j2"%string, 0%float)]
            [0; 0]%float [1; 1]%float [[0.5; 0.5]]%float
            (Demo.joint_set 1%float 1.25%float) []
            _ _ _ _ _ _ _ _ _ _) _).
  - reflexivity.
  - reflexivity.
  - reflexivity.
  - discriminate.
  - reflexivity.
  - vm_compute. reflexivity.
  - reflexivity.
  - discriminate.
  - reflexivity.
  - vm_compute. reflexivity.
  - vm_compute. reflexivity.
Defined.

(** The same seed with the goal 1 away from its end is rejected. *)
Example seed_goal_snap_far :
  getSeedParameters (Demo.planner false true) Demo2.request_far_goal
    MatrixXd_empty
  = Ret (false, mkMatrix 2 [[0; 0]; [0.5; 0.5]; [1; 1]]%float).
Proof. vm_compute. reflexivity. Qed.

(** ** Exceptions from the robot state *)

(** X9. [getSeedParameters] has no handler around the goal loop: when
    setting the joint values of the first goal constraint set throws (MoveIt
    does so for a joint name the model does not know), the exception leaves
    [getSeedParameters] and leaves [solve], which returns no error code. *)
Theorem seed_goal_exception_propagates (P : StompPlanner)
  (request_ : MotionPlanRequest) (traj : JointTrajectory)
  (m parameters : MatrixXd) (st : RobotState P)
  (first_col last_col : VectorXd) (middle : list VectorXd)
  (gc : Constraints) (gcs : list Constraints) (e : exception)
  (res : MotionPlanDetailedResponse P) :
  extractSeedTrajectory P request_ request_ JointTrajectory_empty
  = Ret (true, traj) ->
  jointTrajectorytoParameters traj = Ret (true, m) ->
  colvecs m = first_col :: middle ++ [last_col] ->
  middle <> [] ->
  robotStateMsgToRobotState P (start_state request_) (RobotState_new P)
  = (true, st) ->
  (l1_distance first_col
     (map (getVariablePosition P st) (getActiveJointModelNames P))
   <=? 0.5)%float = true ->
  goal_constraints request_ = gc :: gcs ->
  joint_constraints gc <> [] ->
  set_joint_constraint_values P (enforceBounds P st) (joint_constraints gc)
  = Throw e ->
  getSeedParameters P request_ parameters = Throw e /\
  solve request_ res = Throw e.
Proof.
  intros Hex Hconv Hm Hmid Hst Hnear Hgc Hjc Hset.
  assert (Hseed : forall p0, getSeedParameters P request_ p0 = Throw e).
  { intro p0.
    rewrite (@getSeedParameters_after_start P request_ traj m p0 st
               first_col last_col middle Hex Hconv Hm Hmid Hst Hnear).
    rewrite Hgc. cbn [seed_goal_loop].
    destruct (joint_constraints gc) as [|jc jcs]; [contradiction|].
    cbn [length Nat.eqb negb]. rewrite Hset. reflexivity. }
  split; [apply Hseed|]. unfold solve. rewrite Hseed. reflexivity.
Qed.

(** A goal constraint on a joint the robot does not have. *)
Lemma seed_goal_exception_propagates_witness :
  getSeedParameters Demo2.planner_strict_names
    Demo2.request_unknown_goal_joint MatrixXd_empty
  = Throw (moveit_Exception "Variable is not known to model") /\
  solve Demo2.request_unknown_goal_joint
    (MotionPlanDetailedResponse_empty Demo2.planner_strict_names)
  = Throw (moveit_Exception "Variable is not known to model").
Proof.
  refine (@seed_goal_exception_propagates Demo2.planner_strict_names
            Demo2.request_unknown_goal_joint
            (mkJointTrajectory Demo.names
               [point_of_positions [0; 0]; point_of_positions [0.5; 0.5];
                point_of_positions [1; 1]]%float)
            (mkMatrix 2 [[0; 0]; [0.5; 0.5]; [1; 1]]%float)
            MatrixXd_empty
            [("j1"%string, 0%float); ("j2"%string, 0%float)]
            [0; 0]%float [1; 1]%float [[0.5; 0.5]]%float
            _ _ _ _ _ _ _ _ _ _ _ _ _).
  - reflexivity.
  - reflexivity.
  - reflexivity.
  - discriminate.
  - reflexivity.
  - vm_compute. reflexivity.
  - reflexivity.
  - discriminate.
  - reflexivity.
Defined.

(** ** Start and goal on the joint path *)

(** The answer of a failed solve is not written to [result]. *)
Lemma ikFromCartesianConstraints_failed (P : StompPlanner)
  (pc : PositionConstraint) (oc : OrientationConstraint)
  (result hint r : VectorXd) (calls : list IKCall) :
  ikFromCartesianConstraints P pc oc result hint = Ret (false, r, calls) ->
  r = result.
Proof.
  unfold ikFromCartesianConstraints. intro H.
  apply bind_Ret in H. destruct H as (_ & _ & H).
  destruct (getKDLChain (tracik_solver P)) as [n|];
    [|injection H as <-; reflexivity].
  destruct (CartToJnt (tracik_solver P) (nominal n hint)
              (end_effector_pose pc oc)) as [rc ans].
  destruct (0 <=? rc)%Z; [discriminate H|].
  injection H as <-. reflexivity.
Qed.

(** [goal_loop_goal] is the [goal] the loop returns, and the [goal] it was
    given when the loop is left by an exception: the loop writes to [goal]
    only before a [break]. *)
Lemma goal_loop_goal_returned (P : StompPlanner) (gcs : list Constraints) :
  forall (state : RobotState P) (goal : VectorXd) (found : bool)
         (goal' : VectorXd),
    goal_loop P gcs state goal = Ret (found, goal') ->
    goal_loop_goal P gcs state goal = goal'.
Proof.
  induction gcs as [|gc gcs IH]; intros state goal found goal' H.
  - simpl in H. injection H as _ <-. reflexivity.
  - cbn [goal_loop goal_loop_goal] in *.
    destruct (negb (length (joint_constraints gc) =? 0)).
    + destruct (set_joint_constraint_values P state (joint_constraints gc))
        as [state'| | |]; try discriminate H.
      cbn [bind] in H.
      destruct (negb (satisfiesBounds P state')); [exact (IH _ _ _ _ H)|].
      destruct (copy_joint_values P state' goal) as [g| | |];
        try discriminate H.
      cbn [bind] in H. injection H as _ <-. reflexivity.
    + destruct (negb (length (position_constraints gc) =? 0)
                && negb (length (orientation_constraints gc) =? 0));
        [|exact (IH _ _ _ _ H)].
      destruct (front (position_constraints gc)) as [pc| | |];
        try discriminate H.
      cbn [bind] in *.
      destruct (front (orientation_constraints gc)) as [oc| | |];
        try discriminate H.
      cbn [bind] in *.
      destruct (ikFromCartesianConstraints P pc oc goal (ik_default_hint P))
        as [[[ok g] calls]| | |]; try discriminate H.
      cbn [bind] in H.
      destruct ok; [injection H as _ <-; reflexivity | exact (IH _ _ _ _ H)].
Qed.

Lemma goal_loop_goal_thrown (P : StompPlanner) (gcs : list Constraints) :
  forall (state : RobotState P) (goal : VectorXd) (e : exception),
    goal_loop P gcs state goal = Throw e ->
    goal_loop_goal P gcs state goal = goal.
Proof.
  induction gcs as [|gc gcs IH]; intros state goal e H.
  - discriminate H.
  - cbn [goal_loop goal_loop_goal] in *.
    destruct (negb (length (joint_constraints gc) =? 0)).
    + destruct (set_joint_constraint_values P state (joint_constraints gc))
        as [state'| | |]; try reflexivity.
      cbn [bind] in H.
      destruct (negb (satisfiesBounds P state')); [exact (IH _ _ _ H)|].
      unfold copy_joint_values, eigen_assert in H.
      destruct (length (getActiveJointModelNames P) <=? length goal);
        [discriminate H|].
      destruct (NDEBUG P); discriminate H.
    + destruct (negb (length (position_constraints gc) =? 0)
                && negb (length (orientation_constraints gc) =? 0));
        [|exact (IH _ _ _ H)].
      destruct (front (position_constraints gc)) as [pc| | |];
        try reflexivity.
      cbn [bind] in *.
      destruct (front (orientation_constraints gc)) as [oc| | |];
        try reflexivity.
      cbn [bind] in *.
      destruct (ikFromCartesianConstraints P pc oc goal (ik_default_hint P))
        as [[[ok g] calls]| | |] eqn:Hik; try reflexivity.
      cbn [bind] in H.
      destruct ok; [discriminate H|].
      apply ikFromCartesianConstraints_failed in Hik. subst g.
      exact (IH _ _ _ H).
Qed.

Section JointPath.

Variable P : StompPlanner.
Variables (request_ : MotionPlanRequest) (st : RobotState P).
Variables (gc : Constraints) (gcs : list Constraints).
Variables (start0 goal0 : VectorXd).

Hypothesis joint_seeded : isCartesianSeed request_ = Ret false.
Hypothesis got_start :
  robotStateMsgToRobotState P (start_state request_) (RobotState_new P)
  = (true, st).
Hypothesis start_in_bounds : satisfiesBounds P st = true.
Hypothesis resized :
  length (uninitialized P (length (getActiveJointModelNames P)))
  = length (getActiveJointModelNames P).
Hypothesis first_goal : goal_constraints request_ = gc :: gcs.
Hypothesis joint_goal : joint_constraints gc <> [].

Lemma copy_joint_values_resized (state : RobotState P) :
  copy_joint_values P state
    (uninitialized P (length (getActiveJointModelNames P)))
  = Ret (map (getVariablePosition P state) (getActiveJointModelNames P)).
Proof using resized.
  unfold copy_joint_values, eigen_assert.
  rewrite resized, Nat.leb_refl. cbn [bind].
  rewrite <- resized at 1. rewrite skipn_all, app_nil_r. reflexivity.
Qed.

(** Up to the goal loop on the joint path. *)
Lemma getStartAndGoal_joint_try_goal_loop :
  getStartAndGoal_joint_try P request_ start0 goal0
  = ('(found_goal, goal) <-
       goal_loop P (goal_constraints request_) st
         (uninitialized P (length (getActiveJointModelNames P))) ;;
     Ret (mkStartAndGoal found_goal
            (map (getVariablePosition P st) (getActiveJointModelNames P))
            goal request_)).
Proof using got_start start_in_bounds resized first_goal.
  unfold getStartAndGoal_joint_try. rewrite got_start. cbn [negb].
  rewrite start_in_bounds. cbn [negb].
  rewrite copy_joint_values_resized. cbn [bind].
  rewrite first_goal. reflexivity.
Qed.

Lemma getStartAndGoal_joint_goal_found (st' : RobotState P) :
  set_joint_constraint_values P st (joint_constraints gc) = Ret st' ->
  satisfiesBounds P st' = true ->
  getStartAndGoal P request_ start0 goal0
  = Ret (mkStartAndGoal true
           (map (getVariablePosition P st) (getActiveJointModelNames P))
           (map (getVariablePosition P st') (getActiveJointModelNames P))
           request_).
Proof using joint_seeded got_start start_in_bounds resized first_goal
  joint_goal.
  intros Hset Hb.
  unfold getStartAndGoal. rewrite joint_seeded. cbn [bind].
  unfold getStartAndGoal_joint.
  rewrite getStartAndGoal_joint_try_goal_loop, first_goal.
  cbn [goal_loop].
  destruct (joint_constraints gc) as [|jc jcs]; [contradiction|].
  cbn [length Nat.eqb negb]. rewrite Hset. cbn [bind].
  rewrite Hb. cbn [negb]. rewrite copy_joint_values_resized. reflexivity.
Qed.

Lemma getStartAndGoal_joint_goal_throws (what : string) :
  set_joint_constraint_values P st (joint_constraints gc)
  = Throw (moveit_Exception what) ->
  getStartAndGoal P request_ start0 goal0
  = Ret (mkStartAndGoal false
           (map (getVariablePosition P st) (getActiveJointModelNames P))
           (uninitialized P (length (getActiveJointModelNames P)))
           request_).
Proof using joint_seeded got_start start_in_bounds resized first_goal
  joint_goal.
  intro Hset.
  unfold getStartAndGoal. rewrite joint_seeded. cbn [bind].
  unfold getStartAndGoal_joint.
  rewrite getStartAndGoal_joint_try_goal_loop, first_goal, got_start.
  cbn [goal_loop goal_loop_goal snd].
  destruct (joint_constraints gc) as [|jc jcs]; [contradiction|].
  cbn [length Nat.eqb negb]. rewrite Hset. cbn [bind].
  rewrite copy_joint_values_resized. reflexivity.
Qed.

End JointPath.

(** X10. On the joint path, with a start state within bounds, a first goal
    constraint set whose joint values the robot state accepts within bounds
    resolves the problem: [getStartAndGoal] returns [true], the start is the
    request's start state read joint by joint, the goal is the state after
    the goal's joint values were set (a joint the goal does not name keeps
    its start value), and the request is left as it was. *)
Theorem getStartAndGoal_joint_goal (P : StompPlanner)
  (request_ : MotionPlanRequest) (st st' : RobotState P)
  (gc : Constraints) (gcs : list Constraints) (start0 goal0 : VectorXd) :
  isCartesianSeed request_ = Ret false ->
  robotStateMsgToRobotState P (start_state request_) (RobotState_new P)
  = (true, st) ->
  satisfiesBounds P st = true ->
  length (uninitialized P (length (getActiveJointModelNames P)))
  = length (getActiveJointModelNames P) ->
  goal_constraints request_ = gc :: gcs ->
  joint_constraints gc <> [] ->
  set_joint_constraint_values P st (joint_constraints gc) = Ret st' ->
  satisfiesBounds P st' = true ->
  getStartAndGoal P request_ start0 goal0
  = Ret (mkStartAndGoal true
           (map (getVariablePosition P st) (getActiveJointModelNames P))
           (map (getVariablePosition P st') (getActiveJointModelNames P))
           request_).
Proof.
  intros Hj Hst Hb Hun Hgc Hjc Hset Hb'.
  exact (@getStartAndGoal_joint_goal_found P request_ st gc gcs start0 goal0
           Hj Hst Hb Hun Hgc Hjc st' Hset Hb').
Qed.

(** A two-step joint seed, rejected as a seed, and a joint goal. *)
Lemma getStartAndGoal_joint_goal_witness :
  getStartAndGoal (Demo.planner false true) Demo.request_short_seed [] []
  = Ret (mkStartAndGoal true [0; 0]%float [1; 1]%float
           Demo.request_short_seed).
Proof.
  refine (@getStartAndGoal_joint_goal (Demo.planner false true)
            Demo.request_short_seed
            [("j1"%string, 0%float); ("j2"%string, 0%float)]
            [("j2"%string, 1%float); ("j1"%string, 1%float);
             ("j1"%string, 0%float); ("j2"%string, 0%float)]
            _ _ [] [] _ _ _ _ _ _ _ _).
  - reflexivity.
  - reflexivity.
  - vm_compute. reflexivity.
  - reflexivity.
  - reflexivity.
  - discriminate.
  - reflexivity.
  - vm_compute. reflexivity.
Defined.

(** X11. [getStartAndGoal] catches what [getSeedParameters] lets through:
    when setting the joint values of the first goal constraint set throws
    [moveit::Exception], it returns [false] with the request untouched. By
    then the two vectors have been resized and [start] filled: the caller
    finds in [start] the request's start state read joint by joint and in
    [goal] a vector of the group's size that nothing was written to. [solve]
    on a request whose seed was rejected answers [INVALID_MOTION_PLAN]
    without invoking the optimizer. *)
Theorem getStartAndGoal_catches_exception (P : StompPlanner)
  (request_ : MotionPlanRequest) (st : RobotState P)
  (gc : Constraints) (gcs : list Constraints) (start0 goal0 : VectorXd)
  (what : string) (res : MotionPlanDetailedResponse P) :
  isCartesianSeed request_ = Ret false ->
  robotStateMsgToRobotState P (start_state request_) (RobotState_new P)
  = (true, st) ->
  satisfiesBounds P st = true ->
  length (uninitialized P (length (getActiveJointModelNames P)))
  = length (getActiveJointModelNames P) ->
  goal_constraints request_ = gc :: gcs ->
  joint_constraints gc <> [] ->
  set_joint_constraint_values P st (joint_constraints gc)
  = Throw (moveit_Exception what) ->
  getStartAndGoal P request_ start0 goal0
  = Ret (mkStartAndGoal false
           (map (getVariablePosition P st) (getActiveJointModelNames P))
           (uninitialized P (length (getActiveJointModelNames P)))
           request_) /\
  (forall rejected,
     getSeedParameters P request_ MatrixXd_empty = Ret (false, rejected) ->
     solve request_ res
     = Ret (mkSolved false
              (set_error_code (solve_init_response res) INVALID_MOTION_PLAN)
              request_)).
Proof.
  intros Hj Hst Hb Hun Hgc Hjc Hset.
  assert (Hsg : forall s g,
            getStartAndGoal P request_ s g
            = Ret (mkStartAndGoal false
                     (map (getVariablePosition P st)
                        (getActiveJointModelNames P))
                     (uninitialized P (length (getActiveJointModelNames P)))
                     request_)).
  { intros s g.
    exact (@getStartAndGoal_joint_goal_throws P request_ st gc gcs s g
             Hj Hst Hb Hun Hgc Hjc what Hset). }
  split; [apply Hsg|].
  intros rejected Hseed. unfold solve. rewrite Hseed. cbn [bind].
  unfold solve_unseeded. rewrite Hsg. reflexivity.
Qed.

(** A rejected seed and a goal constraint on a joint the robot does not
    have: the caller's empty vectors come back with the group's two
    joints. *)
Lemma getStartAndGoal_catches_exception_witness :
  getStartAndGoal Demo2.planner_strict_names
    Demo2.request_short_unknown_goal [] []
  = Ret (mkStartAndGoal false [0; 0]%float [0; 0]%float
           Demo2.request_short_unknown_goal) /\
  solve Demo2.request_short_unknown_goal
    (MotionPlanDetailedResponse_empty Demo2.planner_strict_names)
  = Ret (mkSolved false
           (mkMotionPlanDetailedResponse Demo2.planner_strict_names
              [None] [EmptyString] [0%float] INVALID_MOTION_PLAN)
           Demo2.request_short_unknown_goal).
Proof.
  destruct (@getStartAndGoal_catches_exception Demo2.planner_strict_names
              Demo2.request_short_unknown_goal
              [("j1"%string, 0%float); ("j2"%string, 0%float)]
              _ [] [] [] "Variable is not known to model"
              (MotionPlanDetailedResponse_empty Demo2.planner_strict_names)
              eq_refl eq_refl eq_refl eq_refl eq_refl
              ltac:(discriminate) eq_refl) as [Hsg Hsolve].
  split; [exact Hsg|].
  exact (Hsolve _ eq_refl).
Defined.

(** ** What getStartAndGoal leaves in the request *)

Lemma goal_loop_request (P : StompPlanner) (request_ : MotionPlanRequest)
  (start0 goal0 : VectorXd) (sg : StartAndGoal) :
  getStartAndGoal_joint_try P request_ start0 goal0 = Ret sg ->
  sg_request sg = request_.
Proof.
  unfold getStartAndGoal_joint_try.
  destruct (robotStateMsgToRobotState P (start_state request_)
              (RobotState_new P)) as [[|] state]; cbn [negb];
    [|intro H; injection H as <-; reflexivity].
  destruct (satisfiesBounds P state); cbn [negb];
    [|intro H; injection H as <-; reflexivity].
  intro H. apply bind_Ret in H. destruct H as (start & _ & H).
  destruct (length (goal_constraints request_) =? 0);
    [injection H as <-; reflexivity|].
  apply bind_Ret in H. destruct H as ([found goal] & _ & H).
  injection H as <-. reflexivity.
Qed.

(** X12. [getStartAndGoal] writes to the planner's request only on the
    Cartesian path and only when it returns [true]: on the joint path, and
    whenever it returns [false], the request it leaves is the request it
    was given. *)
Theorem getStartAndGoal_request_untouched (P : StompPlanner)
  (request_ : MotionPlanRequest) (start0 goal0 : VectorXd)
  (sg : StartAndGoal) :
  getStartAndGoal P request_ start0 goal0 = Ret sg ->
  sg_found sg = false \/ isCartesianSeed request_ = Ret false ->
  sg_request sg = request_.
Proof.
  unfold getStartAndGoal. intros H Hcase.
  apply bind_Ret in H. destruct H as ([|] & Hcart & H).
  - destruct Hcase as [Hfound | Hjoint]; [|congruence].
    unfold getStartAndGoal_cartesian in H.
    apply bind_Ret in H. destruct H as (c0 & _ & H).
    apply bind_Ret in H. destruct H as (pc_s & _ & H).
    apply bind_Ret in H. destruct H as (oc_s & _ & H).
    apply bind_Ret in H. destruct H as ([[found_start start] calls_s] & _ & H).
    apply bind_Ret in H. destruct H as (pc_g & _ & H).
    apply bind_Ret in H. destruct H as (oc_g & _ & H).
    apply bind_Ret in H. destruct H as ([[found_goal goal] calls_g] & _ & H).
    destruct (found_goal && found_start) eqn:Hboth.
    + apply bind_Ret in H. destruct H as (start_msg & _ & H).
      apply bind_Ret in H. destruct H as (goal_msg & _ & H).
      injection H as <-. discriminate Hfound.
    + injection H as <-. reflexivity.
  - unfold getStartAndGoal_joint in H.
    destruct (getStartAndGoal_joint_try P request_ start0 goal0)
      as [sg'|[what|what]| |] eqn:Htry; try discriminate H.
    + injection H as <-. exact (goal_loop_request _ _ _ _ Htry).
    + injection H as <-. reflexivity.
Qed.

(** A rejected seed and a start state out of bounds. *)
Lemma getStartAndGoal_request_untouched_witness :
  getStartAndGoal (Demo.planner false true)
    Demo2.request_start_out_of_bounds [] []
  = Ret (mkStartAndGoal false [0; 0]%float [0; 0]%float
           Demo2.request_start_out_of_bounds) /\
  sg_request
    (mkStartAndGoal false [0; 0]%float [0; 0]%float
       Demo2.request_start_out_of_bounds)
  = Demo2.request_start_out_of_bounds.
Proof.
  split; [vm_compute; reflexivity|].
  apply (@getStartAndGoal_request_untouched (Demo.planner false true)
           Demo2.request_start_out_of_bounds [] []).
  - vm_compute. reflexivity.
  - left. reflexivity.
Defined.

(** ** What solve reports *)

Lemma resize1_length (A : Type) (x : A) (v : list A) :
  length (resize1 x v) = 1.
Proof. destruct v; reflexivity. Qed.

Lemma set_nth_single (A : Type) (x : A) (v : list A) :
  length v = 1 -> set_nth 0 x v = [x].
Proof. destruct v as [|a [|b v]]; simpl; intro H; try discriminate; reflexivity. Qed.

(** The result handling either attaches a trajectory and returns [true], or
    leaves the trajectory slot alone, sets [PLANNING_FAILED] and returns
    [false]. *)
Lemma solve_handle_results_classified (P : StompPlanner)
  (request_ : MotionPlanRequest) (res : MotionPlanDetailedResponse P)
  (planning_success : bool) (parameters : MatrixXd) :
  length (trajectory_ res) = 1 ->
  length (processing_time_ res) = 1 ->
  let r := solve_handle_results request_ res planning_success parameters in
  (solve_result r = true ->
   exists t, trajectory_ (solve_response r) = [Some t] /\
             processing_time_ (solve_response r) = [wall_elapsed P]) /\
  (solve_result r = false ->
   error_code_ (solve_response r) = PLANNING_FAILED /\
   trajectory_ (solve_response r) = trajectory_ res).
Proof.
  intros Htraj Htime r. unfold r, solve_handle_results.
  destruct planning_success;
    [|split; [discriminate | intros _; split; reflexivity]].
  destruct (parametersToJointTrajectory P request_ parameters)
    as [[|] trajectory]; cbn [negb];
    [|split; [discriminate | intros _; split; reflexivity]].
  split; [intros _ | discriminate].
  eexists. cbn [solve_response].
  split.
  - destruct (isPathValid P) as [path_valid|];
      [destruct (negb (path_valid _))|];
      cbn [set_processing_time0 set_error_code set_trajectory0 trajectory_];
      apply set_nth_single; exact Htraj.
  - destruct (isPathValid P) as [path_valid|];
      [destruct (negb (path_valid _))|];
      cbn [set_processing_time0 set_error_code set_trajectory0
           processing_time_];
      apply set_nth_single; exact Htime.
Qed.

(** X13. Whatever the collaborators answer, a [solve] that returns has one
    slot in each vector of the response. When it returns [true] the
    trajectory slot holds a trajectory and the processing time is recorded.
    When it returns [false] the error code is one of [FAILURE],
    [PLANNING_FAILED] and [INVALID_MOTION_PLAN], never [SUCCESS], and the
    trajectory slot is what the caller's response held, or null. *)
Theorem solve_outcome_classified (P : StompPlanner)
  (request_ : MotionPlanRequest) (res : MotionPlanDetailedResponse P)
  (r : Solved P) :
  solve request_ res = Ret r ->
  (solve_result r = true ->
   exists t, trajectory_ (solve_response r) = [Some t] /\
             processing_time_ (solve_response r) = [wall_elapsed P]) /\
  (solve_result r = false ->
   is_failure_code (error_code_ (solve_response r)) /\
   trajectory_ (solve_response r) = resize1 None (trajectory_ res)).
Proof.
  unfold solve. intro H.
  apply bind_Ret in H. destruct H as ([use_seed initial] & _ & H).
  assert (Hinit : forall code,
            length (trajectory_ (set_error_code (solve_init_response res) code))
            = 1 /\
            length (processing_time_
                      (set_error_code (solve_init_response res) code)) = 1).
  { intro code. split; apply resize1_length. }
  destruct use_seed.
  - unfold solve_seeded in H.
    destruct (setMotionPlanRequest P request_ _ _) as [[|] code]; cbn [negb] in H.
    + destruct (stomp_solve_seed P request_ _ initial) as [ok parameters].
      injection H as <-.
      destruct (Hinit code) as [Ht Hp].
      destruct (solve_handle_results_classified request_ _ ok parameters Ht Hp)
        as [Htrue Hfalse].
      split; [exact Htrue|]. intro Hr. destruct (Hfalse Hr) as [He Htr].
      split; [right; left; exact He | exact Htr].
    + injection H as <-. split; [discriminate|].
      intros _. split; [left; reflexivity | reflexivity].
  - unfold solve_unseeded in H.
    apply bind_Ret in H. destruct H as (sg & _ & H).
    destruct (sg_found sg); cbn [negb] in H.
    + destruct (setMotionPlanRequest P (sg_request sg) _ _) as [[|] code];
        cbn [negb] in H.
      * destruct (stomp_solve P (sg_request sg) _ _ _) as [ok parameters].
        injection H as <-.
        destruct (Hinit code) as [Ht Hp].
        destruct (solve_handle_results_classified (sg_request sg) _ ok
                    parameters Ht Hp) as [Htrue Hfalse].
        split; [exact Htrue|]. intro Hr. destruct (Hfalse Hr) as [He Htr].
        split; [right; left; exact He | exact Htr].
      * injection H as <-. split; [discriminate|].
        intros _. split; [left; reflexivity | reflexivity].
    + injection H as <-. split; [discriminate|].
      intros _. split; [right; right; reflexivity | reflexivity].
Qed.

(** A seeded request on which the optimizer and the planning scene agree. *)
Lemma solve_outcome_classified_witness :
  exists r,
    solve Demo.request_joint_seed (Demo.response0 false true) = Ret r /\
    (solve_result r = true ->
     exists t, trajectory_ (solve_response r) = [Some t] /\
               processing_time_ (solve_response r)
               = [wall_elapsed (Demo.planner false true)]) /\
    (solve_result r = false ->
     is_failure_code (error_code_ (solve_response r)) /\
     trajectory_ (solve_response r)
     = resize1 None (trajectory_ (Demo.response0 false true))).
Proof.
  eexists. split; [vm_compute; reflexivity|].
  apply (@solve_outcome_classified (Demo.planner false true)
           Demo.request_joint_seed (Demo.response0 false true)).
  vm_compute. reflexivity.
Defined.

(** X14. The compact [solve] reads the last trajectory of a detailed
    response that always has one: whenever the detailed [solve] returns, so
    does the compact one, with the same result, error code and request, and
    its trajectory is non-null exactly when the result is [true]. *)
Theorem solve_compact_trajectory (P : StompPlanner)
  (request_ : MotionPlanRequest) (planning_time : double) (r : Solved P) :
  solve request_ (MotionPlanDetailedResponse_empty P) = Ret r ->
  exists trajectory,
    solve_compact P request_ planning_time
    = Ret (solve_result r,
           mkMotionPlanResponse P trajectory planning_time
             (error_code_ (solve_response r)),
           solve_request r) /\
    (solve_result r = true <-> trajectory <> None).
Proof.
  intro H. unfold solve_compact. rewrite H. cbn [bind].
  destruct (solve_outcome_classified _ _ H) as [Htrue Hfalse].
  destruct (solve_result r).
  - destruct (Htrue eq_refl) as (t & Ht & _). rewrite Ht.
    exists (Some t). split; [reflexivity|].
    split; [discriminate | reflexivity].
  - destruct (Hfalse eq_refl) as (_ & Ht). rewrite Ht.
    exists None. split; [reflexivity|].
    split; [discriminate | intro Hn; contradiction].
Qed.

(** The compact response of the seeded demo request. *)
Lemma solve_compact_trajectory_witness :
  exists r trajectory,
    solve Demo.request_joint_seed
      (MotionPlanDetailedResponse_empty (Demo.planner false true)) = Ret r /\
    solve_compact (Demo.planner false true) Demo.request_joint_seed 2%float
    = Ret (solve_result r,
           mkMotionPlanResponse (Demo.planner false true) trajectory 2%float
             (error_code_ (solve_response r)),
           solve_request r) /\
    (solve_result r = true <-> trajectory <> None).
Proof.
  eexists.
  assert (H : solve Demo.request_joint_seed
                (MotionPlanDetailedResponse_empty (Demo.planner false true))
              = Ret _) by (vm_compute; reflexivity).
  destruct (@solve_compact_trajectory (Demo.planner false true)
              Demo.request_joint_seed 2%float _ H) as [trajectory Hc].
  exists trajectory. split; [exact H | exact Hc].
Defined.

(** ** Maps keyed by strings *)

Lemma string_compare_refl (s : string) : String.compare s s = Eq.
Proof.
  pose proof (String.compare_antisym s s) as H.
  destruct (String.compare s s); simpl in H; congruence.
Qed.

Lemma map_find_place_same (V : Type) (k : string) (v : V)
  (m : list (string * V)) :
  XmlRpc.map_find k m = None ->
  XmlRpc.map_find k (XmlRpc.map_place k v m) = Some v.
Proof.
  induction m as [|[k' v'] m IH]; simpl; intro H.
  - now rewrite String.eqb_refl.
  - destruct (String.eqb k k') eqn:Hk; [discriminate H|].
    destruct (String.compare k k'); simpl;
      rewrite ?String.eqb_refl, ?Hk; auto.
Qed.

Lemma map_find_place_other (V : Type) (k k' : string) (v : V)
  (m : list (string * V)) :
  k' <> k ->
  XmlRpc.map_find k' (XmlRpc.map_place k v m) = XmlRpc.map_find k' m.
Proof.
  intro Hne. apply String.eqb_neq in Hne.
  induction m as [|[k0 v0] m IH]; simpl.
  - now rewrite Hne.
  - destruct (String.compare k k0); simpl; rewrite ?Hne; try reflexivity.
    now rewrite IH.
Qed.

(** [insert] answers a lookup with what was there, and with the new value
    only under a key that was free. *)
Lemma map_find_insert (V : Type) (k k' : string) (v : V)
  (m : list (string * V)) :
  XmlRpc.map_find k' (XmlRpc.map_insert k v m)
  = match XmlRpc.map_find k' m with
    | Some x => Some x
    | None => if String.eqb k' k then Some v else None
    end.
Proof.
  unfold XmlRpc.map_insert.
  destruct (XmlRpc.map_find k m) as [x|] eqn:Hk.
  - destruct (XmlRpc.map_find k' m) as [y|] eqn:Hk'; [reflexivity|].
    destruct (String.eqb k' k) eqn:He; [|reflexivity].
    apply String.eqb_eq in He. congruence.
  - destruct (String.eqb k' k) eqn:He.
    + apply String.eqb_eq in He. subst k'.
      rewrite Hk. now apply map_find_place_same.
    + apply String.eqb_neq in He.
      rewrite (map_find_place_other v m He).
      destruct (XmlRpc.map_find k' m); reflexivity.
Qed.

Lemma map_assign_same (V : Type) (k : string) (v : V) (m : list (string * V)) :
  XmlRpc.map_find k m = Some v -> XmlRpc.map_assign k v m = m.
Proof.
  induction m as [|[k' v'] m IH]; simpl; intro H; [reflexivity|].
  destruct (String.eqb k k'); [congruence | now rewrite IH].
Qed.

Lemma map_insert_present (V : Type) (k : string) (v x : V)
  (m : list (string * V)) :
  XmlRpc.map_find k m = Some x -> XmlRpc.map_insert k v m = m.
Proof. intro H. unfold XmlRpc.map_insert. now rewrite H. Qed.

(** ** Registering the planning groups: getConfigData *)

Lemma map_find_assign_same (V : Type) (k : string) (v x : V)
  (m : list (string * V)) :
  XmlRpc.map_find k m = Some x ->
  XmlRpc.map_find k (XmlRpc.map_assign k v m) = Some v.
Proof.
  induction m as [|[k' v'] m IH]; simpl; intro H; [discriminate H|].
  destruct (String.eqb k k') eqn:Hk; simpl; rewrite Hk; [reflexivity | auto].
Qed.

(** One turn of the loop: an entry that can be registered is inserted under
    its group name and the loop goes on; any other entry ends the loop with
    [false] and the map as it stands. *)
Lemma getConfigData_loop_step (k : string) (second : XmlRpc.XmlRpcValue)
  (rest config : list (string * XmlRpc.XmlRpcValue)) :
  (registers second = true /\
   exists g second',
     getConfigData_loop ((k, second) :: rest) config
     = getConfigData_loop rest (XmlRpc.map_insert g second' config))
  \/
  (registers second = false /\
   getConfigData_loop ((k, second) :: rest) config = (false, config)).
Proof.
  cbn [getConfigData_loop]. unfold XmlRpc.index.
  destruct second as [ | b | i | d | s | | | a | members];
    cbn [XmlRpc.assertStruct registers];
    try (right; split; reflexivity).
  - left. split; [reflexivity|]. cbn. eexists. eexists. reflexivity.
  - rewrite map_find_insert, String.eqb_refl.
    destruct (XmlRpc.map_find "group_name" members)
      as [[ | b | i | d | s | | | a | ms]|];
      cbn [XmlRpc.as_string];
      try (right; split; reflexivity);
      left; (split; [reflexivity|]); eexists; eexists; reflexivity.
Qed.

Lemma getConfigData_loop_accepts
  (entries : list (string * XmlRpc.XmlRpcValue)) :
  forall config,
    fst (getConfigData_loop entries config) = true <->
    Forall (fun e => registers (snd e) = true) entries.
Proof.
  induction entries as [|[k second] entries IH]; intro config.
  - simpl. split; [constructor | reflexivity].
  - destruct (getConfigData_loop_step k second entries config)
      as [[Hreg (g & second' & Hstep)] | [Hreg Hstep]]; rewrite Hstep.
    + rewrite IH. split.
      * intro H. constructor; assumption.
      * intro H. exact (Forall_inv_tail H).
    + simpl. split; [discriminate|].
      intro H. apply Forall_inv in H. simpl in H. congruence.
Qed.

(** X15. [getConfigData] returns [true] exactly when the parameter is set,
    is a struct (or invalid), and each of its entries is a struct (or
    invalid) whose [group_name], if present, is a string (or invalid): a
    missing [group_name] is not an error. *)
Theorem getConfigData_accepts_iff (getParam : option XmlRpc.XmlRpcValue)
  (config : list (string * XmlRpc.XmlRpcValue)) :
  fst (getConfigData getParam config) = true <->
  exists stomp_config entries,
    getParam = Some stomp_config /\
    XmlRpc.assertStruct stomp_config = XmlRpc.Ok entries /\
    Forall (fun e => registers (snd e) = true) entries.
Proof.
  unfold getConfigData.
  destruct getParam as [stomp_config|].
  - destruct (XmlRpc.assertStruct stomp_config) as [entries|msg] eqn:Hs.
    + rewrite getConfigData_loop_accepts. split.
      * intro H. exists stomp_config, entries. auto.
      * intros (sc & es & Hsome & Hes & H).
        injection Hsome as <-. rewrite Hs in Hes. injection Hes as <-.
        exact H.
    + simpl. split; [discriminate|].
      intros (sc & es & Hsome & Hes & _).
      injection Hsome as <-. rewrite Hs in Hes. discriminate Hes.
  - simpl. split; [discriminate|].
    intros (sc & es & Hsome & _). discriminate Hsome.
Qed.

Lemma getConfigData_loop_keeps
  (entries : list (string * XmlRpc.XmlRpcValue)) :
  forall config k v,
    XmlRpc.map_find k config = Some v ->
    XmlRpc.map_find k (snd (getConfigData_loop entries config)) = Some v.
Proof.
  induction entries as [|[k0 second] entries IH]; intros config k v H.
  - exact H.
  - destruct (getConfigData_loop_step k0 second entries config)
      as [[_ (g & second' & Hstep)] | [_ Hstep]]; rewrite Hstep.
    + apply IH. rewrite map_find_insert, H. reflexivity.
    + exact H.
Qed.

(** X16. [getConfigData] never replaces what the map already holds: a group
    configuration present on entry is present, unchanged, on return, whether
    the call returns [true] or [false] and whatever the parameter holds
    under the same group name. *)
Theorem getConfigData_keeps_existing (getParam : option XmlRpc.XmlRpcValue)
  (config : list (string * XmlRpc.XmlRpcValue))
  (k : string) (v : XmlRpc.XmlRpcValue) :
  XmlRpc.map_find k config = Some v ->
  XmlRpc.map_find k (snd (getConfigData getParam config)) = Some v.
Proof.
  intro H. unfold getConfigData.
  destruct getParam as [stomp_config|]; [|exact H].
  destruct (XmlRpc.assertStruct stomp_config) as [entries|msg]; [|exact H].
  now apply getConfigData_loop_keeps.
Qed.

Lemma getConfigData_keeps_existing_witness :
  XmlRpc.map_find "arm" DemoConfig.loaded = Some (DemoConfig.group "arm" 60)
  /\ XmlRpc.map_find "arm"
       (snd (getConfigData (Some DemoConfig.stomp) DemoConfig.loaded))
     = Some (DemoConfig.group "arm" 60).
Proof.
  split; [reflexivity|].
  apply (@getConfigData_keeps_existing (Some DemoConfig.stomp)
           DemoConfig.loaded "arm" (DemoConfig.group "arm" 60)).
  reflexivity.
Defined.

Lemma getConfigData_loop_well_formed (k : string)
  (second : XmlRpc.XmlRpcValue) (g : string)
  (rest config : list (string * XmlRpc.XmlRpcValue)) :
  group_name_of second = Some g ->
  getConfigData_loop ((k, second) :: rest) config
  = getConfigData_loop rest (XmlRpc.map_insert g second config).
Proof.
  unfold group_name_of.
  destruct second as [ | b | i | d | s | | | a | members];
    try discriminate.
  destruct (XmlRpc.map_find "group_name" members)
    as [[ | b | i | d | s | | | a | ms]|] eqn:Hg; try discriminate.
  intro H. injection H as ->.
  cbn [getConfigData_loop]. unfold XmlRpc.index.
  cbn [XmlRpc.assertStruct].
  erewrite map_insert_present by exact Hg. rewrite Hg.
  cbn [XmlRpc.as_string XmlRpc.bind].
  rewrite map_assign_same by exact Hg. reflexivity.
Qed.

Lemma getConfigData_loop_first_wins
  (entries : list (string * XmlRpc.XmlRpcValue)) :
  Forall (fun e => group_name_of (snd e) <> None) entries ->
  forall config,
    fst (getConfigData_loop entries config) = true /\
    forall g,
      XmlRpc.map_find g (snd (getConfigData_loop entries config))
      = match XmlRpc.map_find g config with
        | Some x => Some x
        | None => first_with_group g entries
        end.
Proof.
  induction 1 as [|[k second] entries Hwf _ IH]; intro config.
  - split; [reflexivity|]. intro g. simpl.
    destruct (XmlRpc.map_find g config); reflexivity.
  - simpl in Hwf.
    destruct (group_name_of second) as [g0|] eqn:Hg0; [|contradiction].
    rewrite (getConfigData_loop_well_formed k _ entries config Hg0).
    destruct (IH (XmlRpc.map_insert g0 second config)) as [Hok Hfind].
    split; [exact Hok|]. intro g. rewrite Hfind, map_find_insert.
    cbn [first_with_group]. rewrite Hg0.
    destruct (XmlRpc.map_find g config); [reflexivity|].
    destruct (String.eqb g g0); reflexivity.
Qed.

(** X17. When every entry of the [stomp] parameter is a struct with a
    string [group_name], [getConfigData] returns [true] and the map answers
    a group name with what it held before, or else with the first entry, in
    key order, that carries this group name: the key an entry sits under is
    ignored, and later entries for the same group are dropped. *)
Theorem getConfigData_first_wins
  (entries config : list (string * XmlRpc.XmlRpcValue)) :
  Forall (fun e => group_name_of (snd e) <> None) entries ->
  fst (getConfigData (Some (XmlRpc.TypeStruct entries)) config) = true /\
  forall g,
    XmlRpc.map_find g
      (snd (getConfigData (Some (XmlRpc.TypeStruct entries)) config))
    = match XmlRpc.map_find g config with
      | Some x => Some x
      | None => first_with_group g entries
      end.
Proof.
  intro H. exact (getConfigData_loop_first_wins H config).
Qed.

Lemma getConfigData_first_wins_witness :
  Forall (fun e => group_name_of (snd e) <> None) DemoConfig.entries /\
  fst (getConfigData (Some (XmlRpc.TypeStruct DemoConfig.entries)) []) = true
  /\
  forall g,
    XmlRpc.map_find g
      (snd (getConfigData (Some (XmlRpc.TypeStruct DemoConfig.entries)) []))
    = match XmlRpc.map_find g [] with
      | Some x => Some x
      | None => first_with_group g DemoConfig.entries
      end.
Proof.
  split; [repeat constructor; discriminate|].
  apply (@getConfigData_first_wins DemoConfig.entries []).
  repeat constructor; discriminate.
Defined.

(** On the demo parameter the group [arm] gets the entry under key [a], not
    the one under [b]. *)
Example getConfigData_first_wins_demo :
  XmlRpc.map_find "arm" (snd (getConfigData (Some DemoConfig.stomp) []))
  = Some (DemoConfig.group "arm" 20).
Proof. reflexivity. Qed.

(** ** Reading the optimization parameters: parseConfig *)

Lemma index_present (members : list (string * XmlRpc.XmlRpcValue))
  (name : string) (x : XmlRpc.XmlRpcValue) :
  XmlRpc.map_find name members = Some x ->
  XmlRpc.index (XmlRpc.TypeStruct members) name
  = XmlRpc.Ok (x, XmlRpc.TypeStruct members).
Proof.
  intro H. unfold XmlRpc.index. cbn [XmlRpc.assertStruct].
  erewrite map_insert_present by exact H. now rewrite H.
Qed.

Lemma optional_parameter_absent (A : Type) (config : XmlRpc.XmlRpcValue)
  (name : string)
  (cast : XmlRpc.XmlRpcValue -> XmlRpc.result (A * XmlRpc.XmlRpcValue))
  (default : A) :
  XmlRpc.hasMember config name = false ->
  optional_parameter config name cast default = XmlRpc.Ok default.
Proof. intro H. unfold optional_parameter. now rewrite H. Qed.

Lemma optional_parameter_int (config : XmlRpc.XmlRpcValue) (name : string)
  (default : Z) :
  match optional_parameter config name XmlRpc.as_int default with
  | XmlRpc.Ok _ => holds_int config name = true
  | XmlRpc.XmlRpcException m =>
      holds_int config name = false /\ m = "type error"%string
  end.
Proof.
  unfold optional_parameter, holds_int, XmlRpc.hasMember.
  destruct config as [ | b | i | d | s | | | a | members];
    try reflexivity.
  destruct (XmlRpc.map_find name members) as [x|] eqn:Hx; [|reflexivity].
  rewrite (index_present _ _ Hx).
  destruct x; cbn; auto.
Qed.

Lemma optional_parameter_double (config : XmlRpc.XmlRpcValue) (name : string)
  (default : double) :
  match optional_parameter config name XmlRpc.as_double default with
  | XmlRpc.Ok _ => holds_double config name = true
  | XmlRpc.XmlRpcException m =>
      holds_double config name = false /\ m = "type error"%string
  end.
Proof.
  unfold optional_parameter, holds_double, XmlRpc.hasMember.
  destruct config as [ | b | i | d | s | | | a | members];
    try reflexivity.
  destruct (XmlRpc.map_find name members) as [x|] eqn:Hx; [|reflexivity].
  rewrite (index_present _ _ Hx).
  destruct x; cbn; auto.
Qed.

Lemma optional_parameter_int_as_double (config : XmlRpc.XmlRpcValue)
  (name : string) (default : double) :
  match optional_parameter config name
          (fun v => XmlRpc.bind (XmlRpc.as_int v) (fun iv =>
                      XmlRpc.Ok (double_of_int (fst iv), snd iv)))
          default with
  | XmlRpc.Ok _ => holds_int config name = true
  | XmlRpc.XmlRpcException m =>
      holds_int config name = false /\ m = "type error"%string
  end.
Proof.
  unfold optional_parameter, holds_int, XmlRpc.hasMember.
  destruct config as [ | b | i | d | s | | | a | members];
    try reflexivity.
  destruct (XmlRpc.map_find name members) as [x|] eqn:Hx; [|reflexivity].
  rewrite (index_present _ _ Hx).
  destruct x; cbn; auto.
Qed.

Ltac parse_step lemma :=
  match goal with
  | |- context [XmlRpc.bind (optional_parameter ?c ?n ?cast ?d) _] =>
      let H := fresh "H" in
      pose proof (lemma c n d) as H; cbv beta in H;
      destruct (optional_parameter c n cast d);
      [ rewrite H; cbn [XmlRpc.bind andb]
      | destruct H as [H ->]; right; split;
        [ rewrite H; repeat rewrite ?andb_false_r, ?andb_false_l; reflexivity
        | reflexivity ] ]
  end.

(** [parseConfig] by cases on the types of the optional keys. *)
Lemma parseConfig_cases (config : XmlRpc.XmlRpcValue) (active_joints : nat) :
  (well_typed config = true /\
   exists stomp_config,
     parseConfig config active_joints
     = XmlRpc.Ok (negb (int_of_Index active_joints =? 0)%Z, stomp_config) /\
     Config.num_dimensions stomp_config = int_of_Index active_joints)
  \/
  (well_typed config = false /\
   parseConfig config active_joints = XmlRpc.XmlRpcException "type error").
Proof.
  unfold parseConfig, well_typed.
  parse_step optional_parameter_double.
  parse_step optional_parameter_int.
  parse_step optional_parameter_int.
  parse_step optional_parameter_double.
  parse_step optional_parameter_int.
  parse_step optional_parameter_int.
  parse_step optional_parameter_int.
  parse_step optional_parameter_int.
  parse_step optional_parameter_int_as_double.
  left. split; [reflexivity|]. eexists. split; reflexivity.
Qed.

(** X18. [parseConfig] returns exactly when each of the nine optional keys
    is absent or holds a value of the type of its cast (or an invalid
    value), where [exponentiated_cost_sensitivity] must hold an [int]
    although the field is a [double]; otherwise it throws the
    [XmlRpcException] of the failed cast. No value is range-checked. *)
Theorem parseConfig_returns_iff_well_typed (config : XmlRpc.XmlRpcValue)
  (active_joints : nat) :
  ((exists r, parseConfig config active_joints = XmlRpc.Ok r) <->
   well_typed config = true) /\
  (forall m, parseConfig config active_joints = XmlRpc.XmlRpcException m ->
             m = "type error"%string).
Proof.
  destruct (parseConfig_cases config active_joints)
    as [[Hwt (cfg & Hcfg & _)] | [Hwt Hexc]].
  - rewrite Hcfg, Hwt. split.
    + split; [reflexivity | eauto].
    + discriminate.
  - rewrite Hexc, Hwt. split.
    + split; [intros [r Hr]; discriminate Hr | discriminate].
    + intros m Hm. now injection Hm as <-.
Qed.

(** X19. A configuration that has none of the nine optional keys, a value
    that is no struct included, gives the defaults of the source: 50
    iterations, 0 after a valid one, 40 timesteps, [delta_t] 1.0,
    initialization method 1, 10 rollouts of at most 100, control cost
    weight 0.0 and exponentiated cost sensitivity 10.0. *)
Theorem parseConfig_defaults (config : XmlRpc.XmlRpcValue)
  (active_joints : nat) :
  (forall name, In name optional_keys ->
                XmlRpc.hasMember config name = false) ->
  parseConfig config active_joints
  = XmlRpc.Ok (negb (int_of_Index active_joints =? 0)%Z,
               Config.mkStompConfiguration 50 0 40
                 (int_of_Index active_joints) 1%float 1 10 100
                 0%float 10%float).
Proof.
  intro H. unfold parseConfig.
  repeat (rewrite optional_parameter_absent
            by (apply H; unfold optional_keys; simpl; tauto);
          cbn [XmlRpc.bind]).
  reflexivity.
Qed.

Lemma parseConfig_defaults_witness :
  (forall name, In name optional_keys ->
                XmlRpc.hasMember (XmlRpc.TypeString "stomp") name = false) /\
  parseConfig (XmlRpc.TypeString "stomp") 6
  = XmlRpc.Ok (true, Config.mkStompConfiguration 50 0 40 6 1%float 1 10 100
                       0%float 10%float).
Proof.
  split; [reflexivity|].
  apply (@parseConfig_defaults (XmlRpc.TypeString "stomp") 6). reflexivity.
Defined.

Lemma int_of_Index_small (n : nat) :
  (Z.of_nat n < 2 ^ 31)%Z -> int_of_Index n = Z.of_nat n.
Proof.
  intro H. unfold int_of_Index.
  rewrite Z.mod_small by lia. lia.
Qed.

(** X20. With fewer than 2^31 active joints, a [parseConfig] that returns
    answers [true] exactly when the group has an active joint, and
    [num_dimensions] is the number of active joints. *)
Theorem parseConfig_result (config : XmlRpc.XmlRpcValue)
  (active_joints : nat) (ok : bool)
  (stomp_config : Config.StompConfiguration) :
  (Z.of_nat active_joints < 2 ^ 31)%Z ->
  parseConfig config active_joints = XmlRpc.Ok (ok, stomp_config) ->
  (ok = true <-> 0 < active_joints) /\
  Config.num_dimensions stomp_config = Z.of_nat active_joints.
Proof.
  intros Hn Hp.
  destruct (parseConfig_cases config active_joints)
    as [[_ (cfg & Hcfg & Hdim)] | [_ Hexc]];
    [|rewrite Hexc in Hp; discriminate Hp].
  rewrite Hcfg in Hp. injection Hp as <- <-.
  rewrite Hdim, !int_of_Index_small by exact Hn. split; [|reflexivity].
  rewrite Bool.negb_true_iff, Z.eqb_neq. lia.
Qed.

Lemma parseConfig_result_witness :
  (Z.of_nat 6 < 2 ^ 31)%Z /\
  parseConfig (DemoConfig.optimization 20) 6
  = XmlRpc.Ok (true, Config.mkStompConfiguration 50 0 20 6 1%float 1 10 100
                       0%float 10%float) /\
  (true = true <-> 0 < 6) /\
  Config.num_dimensions
    (Config.mkStompConfiguration 50 0 20 6 1%float 1 10 100 0%float 10%float)
  = Z.of_nat 6.
Proof.
  split; [reflexivity|]. split; [reflexivity|].
  apply (@parseConfig_result (DemoConfig.optimization 20) 6 true
           (Config.mkStompConfiguration 50 0 20 6 1%float 1 10 100
              0%float 10%float)); reflexivity.
Defined.

(** ** Loading the planner: setup *)

Lemma map_find_place_same_key (V : Type) (k : string) (v : V)
  (m : list (string * V)) :
  XmlRpc.map_find k (XmlRpc.map_insert k v m) <> None.
Proof.
  rewrite map_find_insert, String.eqb_refl.
  destruct (XmlRpc.map_find k m); discriminate.
Qed.

(** X21. [setup] returns only if the robot model has the planning group,
    [config_] has an [optimization] member whose optional keys are well
    typed, and the group has an active joint; [stomp_config_] is then what
    [parseConfig] read from that member, and [config_] is left with a
    [task] member, whether it had one or not. *)
Theorem setup_done_only_if (group_ : string) (config_ : XmlRpc.XmlRpcValue)
  (hasJointModelGroup : bool) (active_joints : nat)
  (new_task : XmlRpc.XmlRpcValue -> Construction)
  (new_stomp : Config.StompConfiguration -> Construction)
  (config' : XmlRpc.XmlRpcValue)
  (stomp_config_ : Config.StompConfiguration) :
  setup group_ config_ hasJointModelGroup active_joints new_task new_stomp
  = SetupDone config' stomp_config_ ->
  hasJointModelGroup = true /\
  XmlRpc.hasMember config' "task" = true /\
  int_of_Index active_joints <> 0%Z /\
  exists members optimization,
    config_ = XmlRpc.TypeStruct members /\
    XmlRpc.map_find "optimization" members = Some optimization /\
    well_typed optimization = true /\
    parseConfig optimization active_joints = XmlRpc.Ok (true, stomp_config_).
Proof.
  unfold setup, XmlRpc.index at 1.
  destruct (XmlRpc.assertStruct config_) as [members|m] eqn:Hs;
    [|discriminate].
  set (members' := XmlRpc.map_insert "task" XmlRpc.TypeInvalid members).
  assert (Htask : XmlRpc.map_find "task" members' <> None)
    by apply map_find_place_same_key.
  assert (Hopt : XmlRpc.map_find "optimization" members'
                 = XmlRpc.map_find "optimization" members).
  { unfold members'. rewrite map_find_insert.
    destruct (XmlRpc.map_find "optimization" members); reflexivity. }
  assert (Hdone : forall task_config,
    match new_task task_config with
    | Built =>
        if negb hasJointModelGroup
        then logic_error (group_not_found group_)
        else if negb (XmlRpc.hasMember (XmlRpc.TypeStruct members')
                        "optimization")
        then logic_error (failed_to_load group_)
        else
          match XmlRpc.index (XmlRpc.TypeStruct members') "optimization" with
          | XmlRpc.XmlRpcException m =>
              logic_error (failed_to_load_configuration group_ m)
          | XmlRpc.Ok (optimization, config_) =>
              match parseConfig optimization active_joints with
              | XmlRpc.XmlRpcException m =>
                  logic_error (failed_to_load_configuration group_ m)
              | XmlRpc.Ok (false, _) => logic_error (failed_to_load group_)
              | XmlRpc.Ok (true, stomp_config_) =>
                  match new_stomp stomp_config_ with
                  | ThrowsXmlRpcException m =>
                      logic_error (failed_to_load_configuration group_ m)
                  | ThrowsOther => OtherException
                  | Built => SetupDone config_ stomp_config_
                  end
              end
          end
    | ThrowsXmlRpcException m =>
        logic_error (failed_to_load_configuration group_ m)
    | ThrowsOther => OtherException
    end = SetupDone config' stomp_config_ ->
    hasJointModelGroup = true /\
    XmlRpc.hasMember config' "task" = true /\
    int_of_Index active_joints <> 0%Z /\
    exists members optimization,
      config_ = XmlRpc.TypeStruct members /\
      XmlRpc.map_find "optimization" members = Some optimization /\
      well_typed optimization = true /\
      parseConfig optimization active_joints
      = XmlRpc.Ok (true, stomp_config_)).
  { intro task_config.
    destruct (new_task task_config); try discriminate.
    destruct hasJointModelGroup; [|discriminate]. cbn [negb].
    unfold XmlRpc.hasMember at 1. rewrite Hopt.
    destruct (XmlRpc.map_find "optimization" members) as [opt|] eqn:Ho;
      [|discriminate]. cbn [negb].
    rewrite index_present with (x := opt) by exact Hopt.
    destruct (parseConfig_cases opt active_joints)
      as [[Hwt (cfg & Hcfg & _)] | [_ Hexc]];
      [|rewrite Hexc; discriminate].
    rewrite Hcfg.
    destruct (int_of_Index active_joints =? 0)%Z eqn:Hz; [discriminate|].
    cbn [negb].
    destruct (new_stomp cfg); try discriminate.
    intro H. injection H as <- <-.
    split; [reflexivity|]. split.
    - unfold XmlRpc.hasMember.
      destruct (XmlRpc.map_find "task" members'); [reflexivity|].
      now elim Htask.
    - split; [now apply Z.eqb_neq|].
      destruct config_; try discriminate Hs.
      + (* an invalid value: no member at all *)
        injection Hs as <-. discriminate Ho.
      + injection Hs as ->. exists members, opt.
        repeat split; assumption. }
  destruct (XmlRpc.map_find "task" members'); apply Hdone.
Qed.

Lemma setup_done_only_if_witness :
  setup "arm" (DemoConfig.group "arm" 20) true 6
    DemoConfig.always_built DemoConfig.always_built
  = SetupDone
      (XmlRpc.TypeStruct
         [("group_name"%string, XmlRpc.TypeString "arm");
          ("optimization"%string, DemoConfig.optimization 20);
          ("task"%string, XmlRpc.TypeInvalid)])
      (Config.mkStompConfiguration 50 0 20 6 1%float 1 10 100
         0%float 10%float)
  /\
  (true = true /\
   XmlRpc.hasMember
     (XmlRpc.TypeStruct
        [("group_name"%string, XmlRpc.TypeString "arm");
         ("optimization"%string, DemoConfig.optimization 20);
         ("task"%string, XmlRpc.TypeInvalid)]) "task" = true /\
   int_of_Index 6 <> 0%Z /\
   exists members optimization,
     DemoConfig.group "arm" 20 = XmlRpc.TypeStruct members /\
     XmlRpc.map_find "optimization" members = Some optimization /\
     well_typed optimization = true /\
     parseConfig optimization 6
     = XmlRpc.Ok (true, Config.mkStompConfiguration 50 0 20 6 1%float 1 10
                          100 0%float 10%float)).
Proof.
  split; [reflexivity|].
  apply (@setup_done_only_if "arm" (DemoConfig.group "arm" 20) true 6
           DemoConfig.always_built DemoConfig.always_built).
  reflexivity.
Defined.

(** ** Which requests the planner takes: canServiceRequest *)

(** X22. [canServiceRequest] always returns: [goal_constraints[0]] is read
    only when there is exactly one goal. It answers [true] exactly for a
    request to the planner's own group with a single goal that has a joint
    constraint. *)
Theorem canServiceRequest_returns (getGroupName req_group_name : string)
  (req : MotionPlanRequest) :
  canServiceRequest getGroupName req_group_name req
  = Ret (String.eqb req_group_name getGroupName &&
         match goal_constraints req with
         | [gc] => negb (length (joint_constraints gc) =? 0)
         | _ => false
         end).
Proof.
  unfold canServiceRequest.
  destruct (String.eqb req_group_name getGroupName); [|reflexivity].
  destruct (goal_constraints req) as [|gc [|gc' gcs]]; try reflexivity.
  cbn. destruct (length (joint_constraints gc) =? 0); reflexivity.
Qed.

(** X23. A request that [canServiceRequest] accepts has one goal, and the
    goal loop of [getStartAndGoal] settles it from the joint constraints
    alone: the goal is found exactly when the state with the goal's joint
    values satisfies the bounds, and the branch that solves a Cartesian goal
    by inverse kinematics is never taken. *)
Theorem canServiceRequest_goal_loop (getGroupName req_group_name : string)
  (req : MotionPlanRequest) :
  canServiceRequest getGroupName req_group_name req = Ret true ->
  exists gc,
    goal_constraints req = [gc] /\
    forall (P : StompPlanner) (state : RobotState P) (goal : VectorXd),
      goal_loop P (goal_constraints req) state goal
      = (state' <- set_joint_constraint_values P state (joint_constraints gc) ;;
         if satisfiesBounds P state'
         then goal' <- copy_joint_values P state' goal ;; Ret (true, goal')
         else Ret (false, goal)).
Proof.
  unfold canServiceRequest.
  destruct (String.eqb req_group_name getGroupName); [|discriminate].
  destruct (goal_constraints req) as [|gc [|gc' gcs]];
    cbn [length Nat.eqb negb]; try discriminate.
  change (at_index [gc] 0) with (Ret gc). cbn [bind].
  destruct (joint_constraints gc) as [|jc jcs] eqn:Hjc; [discriminate|].
  intros _.
  exists gc. split; [reflexivity|]. intros P state goal.
  cbn [goal_loop]. rewrite Hjc. cbn [length Nat.eqb negb].
  destruct (set_joint_constraint_values P state (jc :: jcs))
    as [state'| | |]; try reflexivity.
  cbn. destruct (satisfiesBounds P state'); reflexivity.
Qed.

Lemma canServiceRequest_goal_loop_witness :
  canServiceRequest "arm" "arm" Demo.request_no_seed = Ret true /\
  exists gc,
    goal_constraints Demo.request_no_seed = [gc] /\
    forall (P : StompPlanner) (state : RobotState P) (goal : VectorXd),
      goal_loop P (goal_constraints Demo.request_no_seed) state goal
      = (state' <- set_joint_constraint_values P state (joint_constraints gc) ;;
         if satisfiesBounds P state'
         then goal' <- copy_joint_values P state' goal ;; Ret (true, goal')
         else Ret (false, goal)).
Proof.
  split; [reflexivity|].
  apply (@canServiceRequest_goal_loop "arm" "arm" Demo.request_no_seed).
  reflexivity.
Defined.
